(** * perfect_guess: a shallow embedding of the number-guessing game

    The development follows [perfect_guess.py]:
    - Python built-ins used by the program ([int], [str.strip],
      [str.lower], [str] of an integer);
    - the console (the injected [input_fn] / [output_fn] pair) as a script
      of input events and a chronological log of prompts and messages;
    - [get_valid_number], [get_yes_no], [play_game];
    - the [json] text format, [safe_load_scores], [safe_save_scores];
    - [difficulty_presets] and [run_interactive].

    Text is modelled over the code points 0..255, one [ascii] per code
    point; Python integers are [Z].  What goes to the console is
    recorded as the UTF-8 bytes of the text, so the symbols of the
    messages appear as their byte sequences. *)

From Stdlib Require Import ZArith List String Ascii Bool Lia.
From Stdlib Require Import DecimalString DecimalZ DecimalPos DecimalFacts.
Import ListNotations.

Local Open Scope string_scope.
Local Open Scope list_scope.
Local Open Scope Z_scope.

Set Warnings "-register-all".

(* ================================================================== *)
(** * Python built-ins on text and integers *)
(* ================================================================== *)

Module Py.

(** Code point of a character. *)
Definition ord (c : ascii) : Z := Z.of_N (N_of_ascii c).

(** Membership of a code point in a finite table. *)
Definition ord_in (tbl : list Z) (c : ascii) : bool :=
  existsb (Z.eqb (ord c)) tbl.

(** [str.isspace] on one character (code points below 256). *)
Definition isspace (c : ascii) : bool :=
  ord_in [9; 10; 11; 12; 13; 28; 29; 30; 31; 32; 133; 160] c.

(** The white space [int()] skips around a numeral: the separators
    28..31 are white space for [str.strip] but not for [int]. *)
Definition int_space (c : ascii) : bool :=
  ord_in [9; 10; 11; 12; 13; 32; 133; 160] c.

Fixpoint drop_while (p : ascii -> bool) (l : list ascii) : list ascii :=
  match l with
  | [] => []
  | c :: r => if p c then drop_while p r else l
  end.

(** Removes the characters satisfying [p] at both ends. *)
Definition trim (p : ascii -> bool) (l : list ascii) : list ascii :=
  rev (drop_while p (rev (drop_while p l))).

(** [s.strip()] *)
Definition strip (s : string) : string :=
  string_of_list_ascii (trim isspace (list_ascii_of_string s)).

(** [str.lower] on one character: A..Z and the Latin-1 capitals
    (192..222 except the multiplication sign 215) move by 32. *)
Definition lower_char (c : ascii) : ascii :=
  let n := ord c in
  if ((65 <=? n) && (n <=? 90))
     || ((192 <=? n) && (n <=? 222) && negb (n =? 215))
  then ascii_of_N (Z.to_N (n + 32)) else c.

(** [s.lower()] *)
Definition lower (s : string) : string :=
  string_of_list_ascii (map lower_char (list_ascii_of_string s)).

(** Value of a decimal digit character. *)
Definition digit_of (c : ascii) : option Z :=
  let n := ord c in
  if (48 <=? n) && (n <=? 57) then Some (n - 48) else None.

Definition is_underscore (c : ascii) : bool := ord c =? 95.

(** Digits after the first one; a single underscore may separate two
    digits.  [pending] records that the previous character was an
    underscore. *)
Fixpoint digits_tail (acc : Z) (pending : bool) (l : list ascii) : option Z :=
  match l with
  | [] => if pending then None else Some acc
  | c :: r =>
      if is_underscore c then
        if pending then None else digits_tail acc true r
      else
        match digit_of c with
        | Some d => digits_tail (10 * acc + d) false r
        | None => None
        end
  end.

(** A non-empty run of digits that starts with a digit. *)
Definition digits (l : list ascii) : option Z :=
  match l with
  | [] => None
  | c :: r =>
      match digit_of c with
      | Some d => digits_tail d false r
      | None => None
      end
  end.

(** An optional sign followed by digits. *)
Definition signed_digits (l : list ascii) : option Z :=
  match l with
  | [] => None
  | c :: r =>
      if ord c =? 45 then option_map Z.opp (digits r)
      else if ord c =? 43 then digits r
      else digits l
  end.

(** [int(s)] for a string [s] in base ten: [None] stands for
    [ValueError]. *)
Definition int_of_str (s : string) : option Z :=
  signed_digits (trim int_space (list_ascii_of_string s)).

(** The UTF-8 bytes of a text, as the console receives it. *)
Definition utf8_char (c : ascii) : list ascii :=
  let n := ord c in
  if n <? 128 then [c]
  else [ascii_of_N (Z.to_N (192 + n / 64)); ascii_of_N (Z.to_N (128 + n mod 64))].

Definition utf8 (s : string) : string :=
  string_of_list_ascii (flat_map utf8_char (list_ascii_of_string s)).

(** [str(n)] for an integer [n]. *)
Definition str_of_int (n : Z) : string :=
  NilZero.string_of_int (Z.to_int n).

End Py.

(* ================================================================== *)
(** * The world the program runs in *)
(* ================================================================== *)

(** Exceptions the program can meet.  [TypeError], [OverflowError] and
    the I/O errors only occur inside [safe_load_scores] and
    [safe_save_scores], which catch every [Exception]; the three below
    are the ones that travel through the interactive code. *)
Inductive exn : Set :=
  | ValueError          (* int() on text that is not a numeral *)
  | EOFError            (* input_fn has no more lines *)
  | KeyboardInterrupt.  (* the player interrupts a pending input *)

(** What one call of [input_fn] does. *)
Inductive input_event : Set :=
  | Line (s : string)   (* returns the line [s] *)
  | Interrupt.          (* raises KeyboardInterrupt *)

(** What the program does to the console, in order. *)
Inductive event : Set :=
  | Asked (prompt : string)  (* input_fn(prompt) *)
  | Said (text : string).    (* output_fn(text) *)

(** A [random.Random] object.  The answer of its next [_randbelow(n)]
    may depend on the widths requested so far ([past], most recent
    first) and on [n]. *)
Record Random : Type := mkRandom {
  draws : list Z -> Z -> Z;
  past : list Z
}.

(** State of one path of the file system. *)
Inductive file : Set :=
  | Missing (creatable : bool)
      (* no file; open(path, "w") creates it iff [creatable] *)
  | Stored (readable writable : bool) (text : string).
      (* a file holding [text], as a text-mode read returns it; the
         flags tell whether opening it for reading / for writing
         succeeds *)

Record world : Type := mkWorld {
  stdin : list input_event;     (* what input_fn will do, call after call *)
  stdout : list event;          (* console log, oldest first *)
  fs : string -> file;          (* the file system, by path *)
  entropy : nat -> Random;      (* generators random.Random() hands out *)
  spawned : nat;                (* how many it has handed out *)
  seeded : Z -> Random          (* random.Random(seed) *)
}.

Definition set_stdin (l : list input_event) (w : world) : world :=
  mkWorld l (stdout w) (fs w) (entropy w) (spawned w) (seeded w).
Definition set_stdout (l : list event) (w : world) : world :=
  mkWorld (stdin w) l (fs w) (entropy w) (spawned w) (seeded w).
Definition set_fs (f : string -> file) (w : world) : world :=
  mkWorld (stdin w) (stdout w) f (entropy w) (spawned w) (seeded w).
Definition set_spawned (n : nat) (w : world) : world :=
  mkWorld (stdin w) (stdout w) (fs w) (entropy w) n (seeded w).

(** ** Computations: a state and exception monad over [world] *)

Inductive result (A : Type) : Type :=
  | Ok (a : A)        (* normal completion with value [a] *)
  | Raise (e : exn)   (* an exception leaves the function *)
  | Fuel.             (* the loop bound of the model ran out *)
Arguments Ok {A} a.
Arguments Raise {A} e.
Arguments Fuel {A}.

Definition M (A : Type) : Type := world -> result A * world.

Definition ret {A} (a : A) : M A := fun w => (Ok a, w).
Definition raise {A} (e : exn) : M A := fun w => (Raise e, w).
Definition bind {A B} (c : M A) (k : A -> M B) : M B :=
  fun w =>
    match c w with
    | (Ok a, w') => k a w'
    | (Raise e, w') => (Raise e, w')
    | (Fuel, w') => (Fuel, w')
    end.

Definition exn_eqb (a b : exn) : bool :=
  match a, b with
  | ValueError, ValueError => true
  | EOFError, EOFError => true
  | KeyboardInterrupt, KeyboardInterrupt => true
  | _, _ => false
  end.

(** [try: c  except e: h] *)
Definition try_except {A} (c : M A) (e : exn) (h : M A) : M A :=
  fun w =>
    match c w with
    | (Raise e', w') => if exn_eqb e e' then h w' else (Raise e', w')
    | r => r
    end.

Notation "x <- c ;; k" := (bind c (fun x => k))
  (at level 61, c at next level, right associativity).
Notation "c ;;; k" := (bind c (fun _ => k))
  (at level 61, right associativity).

(** [input_fn(prompt)]: logs the prompt and performs the next input
    event; with no event left the call raises [EOFError]. *)
Definition input_fn (prompt : string) : M string :=
  fun w =>
    let w1 := set_stdout (stdout w ++ [Asked prompt]) w in
    match stdin w with
    | [] => (Raise EOFError, w1)
    | Line s :: rest => (Ok s, set_stdin rest w1)
    | Interrupt :: rest => (Raise KeyboardInterrupt, set_stdin rest w1)
    end.

(** [output_fn(text)] *)
Definition output_fn (text : string) : M unit :=
  fun w => (Ok tt, set_stdout (stdout w ++ [Said text]) w).

(** [int(raw)] as a computation. *)
Definition int_ (raw : string) : M Z :=
  match Py.int_of_str raw with
  | Some v => ret v
  | None => raise ValueError
  end.

(** ** Loops

    [while True: body]: the body either goes round again with a new
    loop state ([inl]) or returns ([inr]). *)
Fixpoint loop {S A} (fuel : nat) (body : S -> M (S + A)) (s : S) : M A :=
  match fuel with
  | O => fun w => (Fuel, w)
  | Datatypes.S f =>
      r <- body s ;;
      match r with
      | inl s' => loop f body s'
      | inr a => ret a
      end
  end.

(** Every loop of the program performs at least one [input_fn] call per
    round, so one more round than there are input events is enough. *)
Definition while_true {S A} (body : S -> M (S + A)) (s : S) : M A :=
  fun w => loop (Datatypes.S (List.length (stdin w))) body s w.

Definition continue_ {S A} (s : S) : M (S + A) := ret (inl s).
Definition return_ {S A} (a : A) : M (S + A) := ret (inr a).

(* ================================================================== *)
(** * The game *)
(* ================================================================== *)

(** The line feed of the Python literals. *)
Definition nl : string := String (ascii_of_nat 10) EmptyString.

Notation "a +++ b" := (String.append a b) (at level 60, right associativity).

Definition str (n : Z) : string := Py.str_of_int n.

(** ** Texts of the validated reader *)

Definition msg_range (min_value max_value : Z) : string :=
  "⚠ Enter a number between " +++ str min_value +++ " and " +++ str max_value +++ ".".

Definition msg_invalid : string :=
  "❌ Invalid input! Please enter numbers only.".

Definition msg_yes_no : string := "❌ Please enter y/yes or n/no.".

(** ** [get_valid_number] *)

(** One round of the [while True] of [get_valid_number]. *)
Definition read_round (prompt : string) (min_value max_value : Z) (_ : unit)
    : M (unit + Z) :=
  try_except
    (raw <- input_fn prompt ;;
     value <- int_ raw ;;
     if (min_value <=? value) && (value <=? max_value)
     then return_ value
     else output_fn (msg_range min_value max_value) ;;; continue_ tt)
    ValueError
    (output_fn msg_invalid ;;; continue_ tt).

Definition get_valid_number (prompt : string) (min_value max_value : Z) : M Z :=
  while_true (read_round prompt min_value max_value) tt.

(** ** [get_yes_no] *)

Definition str_in (s : string) (l : list string) : bool :=
  existsb (String.eqb s) l.

(** One round of the [while True] of [get_yes_no]. *)
Definition ask_round (prompt : string) (_ : unit) : M (unit + bool) :=
  raw <- input_fn prompt ;;
  let choice := Py.lower (Py.strip raw) in
  if str_in choice ["y"; "yes"] then return_ true
  else if str_in choice ["n"; "no"] then return_ false
  else output_fn msg_yes_no ;;; continue_ tt.

Definition get_yes_no (prompt : string) : M bool :=
  while_true (ask_round prompt) tt.

(** ** The random source *)

(** [rng._randbelow(n)] for [n > 0]: a value in [0, n), and the
    generator moves on. *)
Definition randbelow (rng : Random) (n : Z) : Z * Random :=
  (draws rng (past rng) n mod n, mkRandom (draws rng) (n :: past rng)).

(** [rng.randint(a, b)]: [a + _randbelow(b - a + 1)], and [ValueError]
    on an empty range. *)
Definition randint (rng : Random) (a b : Z) : M (Z * Random) :=
  if a <=? b
  then let (v, rng') := randbelow rng (b - a + 1) in ret (a + v, rng')
  else raise ValueError.

(** [random.Random()]: a generator seeded from the operating system. *)
Definition new_random : M Random :=
  fun w => (Ok (entropy w (spawned w)), set_spawned (S (spawned w)) w).

(** ** Texts of a session *)

Definition msg_guess_between (min_value max_value : Z) : string :=
  nl +++ "🎯 Guess the number between " +++ str min_value +++ " and " +++ str max_value.

Definition prompt_attempt (attempts : Z) : string :=
  "Attempt " +++ str attempts +++ ": Enter your guess → ".

Definition msg_higher : string := "📈 Higher number please.".
Definition msg_lower : string := "📉 Lower number please.".

Definition msg_correct (secret_number attempts : Z) : string :=
  nl +++ "🎉 Correct! You guessed the number " +++ str secret_number
     +++ " in " +++ str attempts +++ " attempts." +++ nl.

Definition msg_game_over (max_attempts secret_number : Z) : string :=
  nl +++ "💀 Game Over! You've used all " +++ str max_attempts +++ " attempts."
     +++ nl +++ "The correct number was " +++ str secret_number +++ "." +++ nl.

(** ** [play_game]

    The Python function returns [(attempts, won)]; the generator it drew
    from is a mutable object of the caller, so the model hands its new
    state back as well. *)
Record played : Type := mkPlayed {
  attempts_used : Z;
  won : bool;
  rng_after : Random
}.

(** What follows a wrong guess: the limit check at the end of the loop
    body. *)
Definition limit_check (max_attempts : option Z) (secret_number : Z)
    (rng : Random) (attempts : Z) : M (Z + played) :=
  match max_attempts with
  | Some limit =>
      if attempts >=? limit
      then output_fn (msg_game_over limit secret_number) ;;;
           return_ (mkPlayed attempts false rng)
      else continue_ attempts
  | None => continue_ attempts
  end.

(** One round of the [while True] of [play_game]; the loop state is the
    attempt counter. *)
Definition guess_round (min_value max_value : Z) (max_attempts : option Z)
    (secret_number : Z) (rng : Random) (attempts : Z) : M (Z + played) :=
  let attempts := attempts + 1 in
  guess <- get_valid_number (prompt_attempt attempts) min_value max_value ;;
  if guess <? secret_number then
    output_fn msg_higher ;;; limit_check max_attempts secret_number rng attempts
  else if guess >? secret_number then
    output_fn msg_lower ;;; limit_check max_attempts secret_number rng attempts
  else
    output_fn (msg_correct secret_number attempts) ;;;
    return_ (mkPlayed attempts true rng).

Definition play_game (min_value max_value : Z) (max_attempts : option Z)
    (rng : option Random) : M played :=
  rng <- match rng with Some r => ret r | None => new_random end ;;
  drawn <- randint rng min_value max_value ;;
  let (secret_number, rng) := drawn in
  output_fn (msg_guess_between min_value max_value) ;;;
  while_true (guess_round min_value max_value max_attempts secret_number rng) 0.

(* ================================================================== *)
(** * Python values and the [json] module *)
(* ================================================================== *)

(** A Python [float]: not-a-number, an infinity, or the finite value
    [m * 2^e] (every finite double is such a value). *)
Inductive pyfloat : Set :=
  | FNan
  | FInf (negative : bool)
  | FFinite (m e : Z).

(** The values [json.load] can produce.  A [dict] keeps its keys in
    insertion order and holds every key once. *)
Inductive value : Set :=
  | VNone
  | VBool (b : bool)
  | VInt (n : Z)
  | VFloat (f : pyfloat)
  | VStr (s : string)
  | VList (l : list value)
  | VDict (d : list (string * value)).

Module Dict.
Section Dict.
Context {V : Type}.

(** [d.get(k)] *)
Fixpoint get (k : string) (d : list (string * V)) : option V :=
  match d with
  | [] => None
  | (k', v) :: r => if String.eqb k k' then Some v else get k r
  end.

(** [d[k] = v]: a present key keeps its place, a new key goes last. *)
Fixpoint set (k : string) (v : V) (d : list (string * V)) : list (string * V) :=
  match d with
  | [] => [(k, v)]
  | (k', v') :: r =>
      if String.eqb k k' then (k', v) :: r else (k', v') :: set k v r
  end.

(** [dict(pairs)] *)
Definition of_pairs (pairs : list (string * V)) : list (string * V) :=
  fold_left (fun d kv => set (fst kv) (snd kv) d) pairs [].

End Dict.
End Dict.

Module Json.

(** ** Numbers *)

(** The double nearest to [num / den] ([num >= 0], [den > 0]), ties to
    the even significand: 53 significant bits, no exponent below
    [-1074], infinity from [2^1024] on. *)
Definition nearest_double (num den : Z) : pyfloat :=
  if num =? 0 then FFinite 0 0 else
  let e0 := Z.log2 num - Z.log2 den in
  let e := if (if 0 <=? e0 then den * 2 ^ e0 <=? num
               else den <=? num * 2 ^ (- e0))
           then e0 else e0 - 1 in
  let q := Z.max (e - 52) (-1074) in
  let n' := if 0 <=? q then num else num * 2 ^ (- q) in
  let d' := if 0 <=? q then den * 2 ^ q else den in
  let k := n' / d' in
  let r := n' mod d' in
  let k := if d' <? 2 * r then k + 1
           else if (d' =? 2 * r) && Z.odd k then k + 1
           else k in
  if (if 0 <=? q then 2 ^ 1024 <=? k * 2 ^ q else false)
  then FInf false
  else FFinite k q.

Definition negate (f : pyfloat) : pyfloat :=
  match f with
  | FNan => FNan
  | FInf s => FInf (negb s)
  | FFinite m e => FFinite (- m) e
  end.

(** [float(text)] for the decimal [mant * 10^e10], [mant >= 0]. *)
Definition float_of_decimal (negative : bool) (mant e10 : Z) : pyfloat :=
  let f := if 0 <=? e10 then nearest_double (mant * 10 ^ e10) 1
           else nearest_double mant (10 ^ (- e10)) in
  if negative then negate f else f.

(** ** Reading JSON text *)

Definition is_code (code : Z) (c : ascii) : bool := Py.ord c =? code.

(** White space between tokens: space, tab, line feed, carriage return. *)
Definition ws (c : ascii) : bool := Py.ord_in [32; 9; 10; 13] c.

Definition skip_ws (l : list ascii) : list ascii := Py.drop_while ws l.

(** Removes the literal [p] from the front of [l]. *)
Fixpoint literal (p : list ascii) (l : list ascii) : option (list ascii) :=
  match p, l with
  | [], _ => Some l
  | a :: p', b :: l' => if Ascii.eqb a b then literal p' l' else None
  | _ :: _, [] => None
  end.

Definition hex_of (c : ascii) : option Z :=
  let n := Py.ord c in
  if (48 <=? n) && (n <=? 57) then Some (n - 48)
  else if (97 <=? n) && (n <=? 102) then Some (n - 87)
  else if (65 <=? n) && (n <=? 70) then Some (n - 55)
  else None.

Definition chr (n : Z) : ascii := ascii_of_N (Z.to_N n).

(** The character a one-letter escape stands for. *)
Definition unescape (c : ascii) : option ascii :=
  let n := Py.ord c in
  if n =? 34 then Some (chr 34)          (* quotation mark *)
  else if n =? 92 then Some (chr 92)     (* backslash *)
  else if n =? 47 then Some (chr 47)     (* slash *)
  else if n =? 98 then Some (chr 8)      (* backspace *)
  else if n =? 102 then Some (chr 12)    (* form feed *)
  else if n =? 110 then Some (chr 10)    (* line feed *)
  else if n =? 114 then Some (chr 13)    (* carriage return *)
  else if n =? 116 then Some (chr 9)     (* tab *)
  else None.

(** The rest of a string literal after its opening quote.  A raw
    control character is refused; an escape [\uXXXX] is read when it
    names a code point of the modelled alphabet (below 256). *)
Fixpoint scan_string (l : list ascii) : option (string * list ascii) :=
  match l with
  | [] => None
  | c :: r =>
      if is_code 34 c then Some (EmptyString, r)
      else if is_code 92 c then
        match r with
        | [] => None
        | e :: r1 =>
            if is_code 117 e then
              match r1 with
              | h1 :: h2 :: h3 :: h4 :: r2 =>
                  match hex_of h1, hex_of h2, hex_of h3, hex_of h4 with
                  | Some a, Some b, Some c', Some d =>
                      let n := ((a * 16 + b) * 16 + c') * 16 + d in
                      if n <? 256 then
                        match scan_string r2 with
                        | Some (s, rest) => Some (String (chr n) s, rest)
                        | None => None
                        end
                      else None
                  | _, _, _, _ => None
                  end
              | _ => None
              end
            else
              match unescape e with
              | Some ch =>
                  match scan_string r1 with
                  | Some (s, rest) => Some (String ch s, rest)
                  | None => None
                  end
              | None => None
              end
        end
      else if Py.ord c <? 32 then None
      else
        match scan_string r with
        | Some (s, rest) => Some (String c s, rest)
        | None => None
        end
  end.

(** The longest run of digits at the front of [l]: its value continuing
    [acc], its length, and what follows. *)
Fixpoint span_digits (acc : Z) (len : Z) (l : list ascii) : Z * Z * list ascii :=
  match l with
  | [] => (acc, len, [])
  | c :: r =>
      match Py.digit_of c with
      | Some d => span_digits (10 * acc + d) (len + 1) r
      | None => (acc, len, l)
      end
  end.

(** A number: an optional minus sign; a zero, or a non-zero digit and
    any digits; optionally a point and one or more digits; optionally
    e or E, an optional sign and one or more digits.  The result is an
    integer when neither fraction nor exponent is present, a float
    otherwise. *)
Definition scan_number (l : list ascii) : option (value * list ascii) :=
  let (negative, l1) :=
    match l with
    | c :: r => if is_code 45 c then (true, r) else (false, l)
    | [] => (false, l)
    end in
  let int_part :=
    match l1 with
    | c :: r =>
        if is_code 48 c then Some (0, r)
        else match Py.digit_of c with
             | Some _ => let '(n, _, rest) := span_digits 0 0 l1 in Some (n, rest)
             | None => None
             end
    | [] => None
    end in
  match int_part with
  | None => None
  | Some (n, l2) =>
      let '(mant, scale, l3, has_frac) :=
        match l2 with
        | c :: r =>
            if is_code 46 c then
              let '(m, len, rest) := span_digits n 0 r in
              if 0 <? len then (m, len, rest, true) else (n, 0, l2, false)
            else (n, 0, l2, false)
        | [] => (n, 0, l2, false)
        end in
      let '(expo, l4, has_exp) :=
        match l3 with
        | c :: r =>
            if is_code 101 c || is_code 69 c then
              let '(neg_e, r1) :=
                match r with
                | s :: r' => if is_code 45 s then (true, r')
                             else if is_code 43 s then (false, r')
                             else (false, r)
                | [] => (false, r)
                end in
              let '(x, len, rest) := span_digits 0 0 r1 in
              if 0 <? len then ((if neg_e then - x else x), rest, true)
              else (0, l3, false)
            else (0, l3, false)
        | [] => (0, l3, false)
        end in
      if has_frac || has_exp
      then Some (VFloat (float_of_decimal negative mant (expo - scale)), l4)
      else Some (VInt (if negative then - n else n), l4)
  end.

Definition chars (s : string) : list ascii := list_ascii_of_string s.

(** One JSON value at the front of [l]. *)
Fixpoint scan_value (fuel : nat) (l : list ascii) : option (value * list ascii) :=
  match fuel with
  | O => None
  | S f =>
      match l with
      | [] => None
      | c :: r =>
          if is_code 34 c then
            match scan_string r with
            | Some (s, rest) => Some (VStr s, rest)
            | None => None
            end
          else if is_code 123 c then
            match skip_ws r with
            | c' :: r' =>
                if is_code 125 c' then Some (VDict [], r')
                else match scan_members f (skip_ws r) with
                     | Some (pairs, rest) => Some (VDict (Dict.of_pairs pairs), rest)
                     | None => None
                     end
            | [] => None
            end
          else if is_code 91 c then
            match skip_ws r with
            | c' :: r' =>
                if is_code 93 c' then Some (VList [], r')
                else match scan_elements f (skip_ws r) with
                     | Some (items, rest) => Some (VList items, rest)
                     | None => None
                     end
            | [] => None
            end
          else
            match literal (chars "null") l with
            | Some rest => Some (VNone, rest)
            | None =>
            match literal (chars "true") l with
            | Some rest => Some (VBool true, rest)
            | None =>
            match literal (chars "false") l with
            | Some rest => Some (VBool false, rest)
            | None =>
            match literal (chars "NaN") l with
            | Some rest => Some (VFloat FNan, rest)
            | None =>
            match literal (chars "Infinity") l with
            | Some rest => Some (VFloat (FInf false), rest)
            | None =>
            match literal (chars "-Infinity") l with
            | Some rest => Some (VFloat (FInf true), rest)
            | None => scan_number l
            end end end end end end
      end
  end

(** [key : value] pairs up to the closing brace; [l] starts at a key. *)
with scan_members (fuel : nat) (l : list ascii)
    : option (list (string * value) * list ascii) :=
  match fuel with
  | O => None
  | S f =>
      match l with
      | c :: r =>
          if is_code 34 c then
            match scan_string r with
            | Some (k, l1) =>
                match skip_ws l1 with
                | c1 :: l2 =>
                    if is_code 58 c1 then
                      match scan_value f (skip_ws l2) with
                      | Some (v, l3) =>
                          match skip_ws l3 with
                          | c3 :: l4 =>
                              if is_code 125 c3 then Some ([(k, v)], l4)
                              else if is_code 44 c3 then
                                match scan_members f (skip_ws l4) with
                                | Some (pairs, rest) => Some ((k, v) :: pairs, rest)
                                | None => None
                                end
                              else None
                          | [] => None
                          end
                      | None => None
                      end
                    else None
                | [] => None
                end
            | None => None
            end
          else None
      | [] => None
      end
  end

(** Values up to the closing bracket; [l] starts at a value. *)
with scan_elements (fuel : nat) (l : list ascii)
    : option (list value * list ascii) :=
  match fuel with
  | O => None
  | S f =>
      match scan_value f l with
      | Some (v, l1) =>
          match skip_ws l1 with
          | c :: l2 =>
              if is_code 93 c then Some ([v], l2)
              else if is_code 44 c then
                match scan_elements f (skip_ws l2) with
                | Some (items, rest) => Some (v :: items, rest)
                | None => None
                end
              else None
          | [] => None
          end
      | None => None
      end
  end.

(** [json.loads(text)]: one value, white space around it, nothing
    else; [None] stands for [JSONDecodeError].  Every level of nesting
    takes at least one character, so the length of the text bounds the
    depth of the recursion. *)
Definition loads (text : string) : option value :=
  let l := chars text in
  match scan_value (S (List.length l)) (skip_ws l) with
  | Some (v, rest) =>
      match skip_ws rest with
      | [] => Some v
      | _ :: _ => None
      end
  | None => None
  end.

(** ** Writing JSON text *)

Definition hex_digit (n : Z) : ascii :=
  if n <? 10 then chr (48 + n) else chr (87 + n).

(** One character of a string literal as [json.dumps] writes it
    (ASCII only): short escapes, the printable ASCII characters as
    they are, every other code point as a [\u] escape in lower case. *)
Definition escape (c : ascii) : list ascii :=
  let n := Py.ord c in
  if n =? 34 then [chr 92; chr 34]
  else if n =? 92 then [chr 92; chr 92]
  else if n =? 10 then [chr 92; chr 110]
  else if n =? 13 then [chr 92; chr 114]
  else if n =? 9 then [chr 92; chr 116]
  else if n =? 8 then [chr 92; chr 98]
  else if n =? 12 then [chr 92; chr 102]
  else if (32 <=? n) && (n <=? 126) then [c]
  else [chr 92; chr 117; chr 48; chr 48; hex_digit (n / 16); hex_digit (n mod 16)].

Definition dump_string (s : string) : list ascii :=
  chr 34 :: flat_map escape (chars s) ++ [chr 34].

Definition dump_int (n : Z) : list ascii := chars (Py.str_of_int n).

(** [key: value] on a line of its own, indented by two spaces. *)
Definition dump_item (kv : string * Z) : list ascii :=
  chr 10 :: chr 32 :: chr 32 :: dump_string (fst kv) ++ chr 58 :: chr 32 :: dump_int (snd kv).

Fixpoint dump_items (d : list (string * Z)) : list ascii :=
  match d with
  | [] => []
  | [kv] => dump_item kv
  | kv :: r => dump_item kv ++ chr 44 :: dump_items r
  end.

(** [json.dumps(d, indent=2)] for a dict from strings to integers. *)
Definition dumps (d : list (string * Z)) : string :=
  string_of_list_ascii
    match d with
    | [] => [chr 123; chr 125]
    | _ :: _ => chr 123 :: dump_items d ++ [chr 10; chr 125]
    end.

End Json.

(* ================================================================== *)
(** * The score store *)
(* ================================================================== *)

(** A score record: a Python dict from difficulty key to attempts. *)
Definition scores : Type := list (string * Z).

(** Truncation of [m * 2^e] towards zero. *)
Definition trunc (m e : Z) : Z :=
  if 0 <=? e then m * 2 ^ e else Z.quot m (2 ^ (- e)).

(** [int(v)]; [None] stands for the exception it raises ([TypeError],
    [ValueError] or [OverflowError]). *)
Definition int_of_value (v : value) : option Z :=
  match v with
  | VInt n => Some n
  | VBool b => Some (if b then 1 else 0)
  | VFloat (FFinite m e) => Some (trunc m e)
  | VFloat _ => None
  | VStr s => Py.int_of_str s
  | VNone | VList _ | VDict _ => None
  end.

(** [{k: int(v) for k, v in items}], continuing the dict [acc]. *)
Fixpoint int_items (items : list (string * value)) (acc : scores) : option scores :=
  match items with
  | [] => Some acc
  | (k, v) :: r =>
      match int_of_value v with
      | Some n => int_items r (Dict.set k n acc)
      | None => None
      end
  end.

(** [data.items()] exists for a dict only. *)
Definition items_of (data : value) : option (list (string * value)) :=
  match data with
  | VDict d => Some d
  | _ => None
  end.

(** The body of the [try] of [safe_load_scores] on the file found at the
    path; the outer [None] stands for an exception, which the
    [except Exception] clause catches. *)
Definition load_scores (f : file) : option scores :=
  match f with
  | Missing _ => Some []                       (* not path.exists() *)
  | Stored readable _ text =>
      if readable then
        match Json.loads text with             (* json.load(fh) *)
        | Some data =>
            match items_of data with
            | Some items => int_items items []
            | None => None
            end
        | None => None
        end
      else None                                (* path.open fails *)
  end.

Definition safe_load_scores (path : string) : M scores :=
  fun w =>
    match load_scores (fs w path) with
    | Some d => (Ok d, w)
    | None => (Ok [], w)
    end.

(** The file system with [f] at [path]. *)
Definition write_file (path : string) (f : file) (files : string -> file)
    : string -> file :=
  fun p => if String.eqb p path then f else files p.

(** [path.open("w")] followed by [json.dump(scores, fh, indent=2)]:
    the new text replaces the old one; where the file cannot be opened
    for writing the exception is swallowed and nothing changes. *)
Definition safe_save_scores (record : scores) (path : string) : M unit :=
  fun w =>
    match fs w path with
    | Missing true =>
        (Ok tt, set_fs (write_file path (Stored true true (Json.dumps record)) (fs w)) w)
    | Stored readable true _ =>
        (Ok tt, set_fs (write_file path (Stored readable true (Json.dumps record)) (fs w)) w)
    | Missing false | Stored _ false _ => (Ok tt, w)
    end.

(* ================================================================== *)
(** * The interactive loop *)
(* ================================================================== *)

(** A difficulty level: the dict with keys name, min, max, attempts. *)
Record level : Type := mkLevel {
  name : string;
  min : Z;
  max : Z;
  attempts : option Z
}.

Definition difficulty_presets : list (string * level) :=
  [ ("1", mkLevel "Easy" 1 9 None);
    ("2", mkLevel "Medium" 1 20 (Some 7));
    ("3", mkLevel "Hard" 1 50 (Some 5)) ].

(** [for x in l: f(x)] *)
Fixpoint for_each {A} (l : list A) (f : A -> M unit) : M unit :=
  match l with
  | [] => ret tt
  | x :: r => f x ;;; for_each r f
  end.

(** ** Texts of the loop *)

Definition msg_banner : string := nl +++ "..:: THE PERFECT GUESS ::.." +++ nl.
Definition msg_choose : string := "Choose Difficulty:".

Definition msg_preset (key : string) (lv : level) : string :=
  let attempts_str :=
    match attempts lv with
    | None => "unlimited"
    | Some n => str n +++ " attempts"
    end in
  Py.utf8 key +++ ". " +++ name lv +++ " (" +++ str (min lv) +++ "–" +++ str (max lv)
    +++ ", " +++ attempts_str +++ ")".

Definition msg_custom : string := "4. Custom range".
Definition prompt_choice : string := "Enter your choice (1/2/3/4): ".
Definition prompt_minimum : string := "Enter minimum (integer): ".
Definition prompt_maximum : string := "Enter maximum (integer): ".
Definition msg_min_max : string :=
  "Minimum must be <= maximum. Returning to difficulty menu." +++ nl.
Definition msg_invalid_choice : string := "❌ Invalid choice. Try again." +++ nl.

Definition msg_new_best (level_name : string) (attempts_used : Z) : string :=
  "🏆 New best score for " +++ level_name +++ ": " +++ str attempts_used
    +++ " attempts!" +++ nl.

Definition msg_your_attempts (attempts_used prev_best : Z) : string :=
  "Your attempts: " +++ str attempts_used +++ ". Best for this difficulty: "
    +++ str prev_best +++ " attempts." +++ nl.

Definition msg_try_again : string := "Try again to beat the best score!" +++ nl.
Definition prompt_play_again : string := "🔁 Play again? (y/n): ".
Definition msg_goodbye : string := nl +++ "👋 Thanks for playing. Goodbye!" +++ nl.
Definition msg_saved : string := "🥇 Best scores saved:".

Definition msg_score_line (title : string) (v : Z) : string :=
  "- " +++ title +++ ": " +++ str v +++ " attempts".

Definition msg_interrupted : string := nl +++ nl +++ "Interrupted. Goodbye.".

(** ** The steps of one round *)

(** The difficulty menu. *)
Definition show_menu : M unit :=
  output_fn msg_choose ;;;
  for_each difficulty_presets (fun kl => output_fn (msg_preset (fst kl) (snd kl))) ;;;
  output_fn msg_custom.

(** What the selection leads to: a level to play under a score key, or
    back to the menu. *)
Inductive selection : Type :=
  | Selected (lv : level) (difficulty_key : string)
  | BackToMenu.

(** Reading the selection, with the bounds of a custom range. *)
Definition select_level : M selection :=
  raw <- input_fn prompt_choice ;;
  let choice := Py.strip raw in
  if String.eqb choice "4" then
    raw_min <- input_fn prompt_minimum ;;
    min_v <- int_ (Py.strip raw_min) ;;
    raw_max <- input_fn prompt_maximum ;;
    max_v <- int_ (Py.strip raw_max) ;;
    if min_v >? max_v then
      output_fn msg_min_max ;;; ret BackToMenu
    else
      ret (Selected (mkLevel "Custom" min_v max_v None)
                    ("custom_" +++ str min_v +++ "_" +++ str max_v))
  else
    match Dict.get choice difficulty_presets with
    | Some lv => ret (Selected lv choice)
    | None => output_fn msg_invalid_choice ;;; ret BackToMenu
    end.

(** The best-score update after a session. *)
Definition update_best (score_file : string) (lv : level) (difficulty_key : string)
    (attempts_used : Z) (won : bool) (best_score : scores) : M scores :=
  if won then
    let prev_best := Dict.get difficulty_key best_score in
    match prev_best with
    | Some prev =>
        if attempts_used <? prev then
          let best_score := Dict.set difficulty_key attempts_used best_score in
          safe_save_scores best_score score_file ;;;
          output_fn (msg_new_best (name lv) attempts_used) ;;;
          ret best_score
        else
          output_fn (msg_your_attempts attempts_used prev) ;;;
          ret best_score
    | None =>
        let best_score := Dict.set difficulty_key attempts_used best_score in
        safe_save_scores best_score score_file ;;;
        output_fn (msg_new_best (name lv) attempts_used) ;;;
        ret best_score
    end
  else
    output_fn msg_try_again ;;; ret best_score.

(** The farewell with the leader board. *)
Definition farewell (best_score : scores) : M unit :=
  output_fn msg_goodbye ;;;
  match best_score with
  | [] => ret tt
  | _ :: _ =>
      output_fn msg_saved ;;;
      for_each best_score (fun kv =>
        let title :=
          match Dict.get (fst kv) difficulty_presets with
          | Some lv => name lv
          | None => Py.utf8 (fst kv)
          end in
        output_fn (msg_score_line title (snd kv)))
  end.

(** One round of the [while True] of [run_interactive]; the loop state
    is the generator and the score record. *)
Definition round (score_file : string) (st : Random * scores)
    : M (Random * scores + unit) :=
  let (rng, best_score) := st in
  show_menu ;;;
  sel <- select_level ;;
  match sel with
  | BackToMenu => continue_ (rng, best_score)
  | Selected lv difficulty_key =>
      p <- play_game (min lv) (max lv) (attempts lv) (Some rng) ;;
      best_score <- update_best score_file lv difficulty_key
                      (attempts_used p) (won p) best_score ;;
      again <- get_yes_no prompt_play_again ;;
      if again then continue_ (rng_after p, best_score)
      else farewell best_score ;;; return_ tt
  end.

(** ** [run_interactive] *)

Definition run_interactive (seed : option Z) (score_file : string) : M unit :=
  rng <- match seed with
         | Some n => fun w => (Ok (seeded w n), w)
         | None => new_random
         end ;;
  best_score <- safe_load_scores score_file ;;
  output_fn msg_banner ;;;
  try_except
    (while_true (round score_file) (rng, best_score))
    KeyboardInterrupt
    (output_fn msg_interrupted).


(* ================================================================== *)
(** * Vocabulary of the statements *)
(* ================================================================== *)

(** The world after the console events [evs]. *)
Definition logged (evs : list event) (w : world) : world :=
  set_stdout (stdout w ++ evs) w.

(** What the validated reader makes of one line: the integer it
    returns, or nothing when it asks again. *)
Definition accepts (min_value max_value : Z) (s : string) : option Z :=
  match Py.int_of_str s with
  | Some v => if (min_value <=? v) && (v <=? max_value) then Some v else None
  | None => None
  end.

(** The message that answers a line the reader does not accept. *)
Definition complaint (min_value max_value : Z) (s : string) : string :=
  match Py.int_of_str s with
  | Some _ => msg_range min_value max_value
  | None => msg_invalid
  end.

(** The input events that matter to a session: accepted lines and
    interrupts. *)
Definition kept (min_value max_value : Z) (e : input_event) : bool :=
  match e with
  | Line s => match accepts min_value max_value s with Some _ => true | None => false end
  | Interrupt => true
  end.

(** [w2] is fed the input of [w1] without the lines the reader rejects. *)
Definition same_guesses (min_value max_value : Z) (w1 w2 : world) : Prop :=
  stdin w2 = filter (kept min_value max_value) (stdin w1).

(** The generator a session draws from: the one supplied, or the next
    one [random.Random()] hands out. *)
Definition source_of (rng : option Random) (w : world) : Random :=
  match rng with
  | Some r => r
  | None => entropy w (spawned w)
  end.

(** The secret [rng.randint(min_value, max_value)] yields. *)
Definition secret_of (rng : Random) (min_value max_value : Z) : Z :=
  min_value + fst (randbelow rng (max_value - min_value + 1)).

(** The generator after that draw. *)
Definition drawn_from (rng : Random) (min_value max_value : Z) : Random :=
  snd (randbelow rng (max_value - min_value + 1)).

(** The world when the guessing loop of a session starts. *)
Definition started (min_value max_value : Z) (rng : option Random) (w : world) : world :=
  logged [Said (msg_guess_between min_value max_value)]
    match rng with
    | Some _ => w
    | None => set_spawned (S (spawned w)) w
    end.

(** The guessing loop of a session from the attempt counter on. *)
Definition session (min_value max_value : Z) (max_attempts : option Z)
    (secret_number : Z) (rng : Random) : Z -> M played :=
  while_true (guess_round min_value max_value max_attempts secret_number rng).

(** The hint that answers a wrong guess. *)
Definition hint (guess secret_number : Z) : string :=
  if guess <? secret_number then msg_higher else msg_lower.

(** What the player types for one attempt: lines the reader rejects,
    then the line it accepts. *)
Definition turn : Type := list string * string.

Definition turn_input (t : turn) : list input_event :=
  map Line (fst t) ++ [Line (snd t)].

Definition is_some {A} (o : option A) : bool :=
  match o with Some _ => true | None => false end.

(** The lines of [t] are rejected except the last one, a guess. *)
Definition valid_turn (min_value max_value : Z) (t : turn) : bool :=
  forallb (fun b => negb (is_some (accepts min_value max_value b))) (fst t)
  && is_some (accepts min_value max_value (snd t)).

(** The guess of a valid turn ([min_value - 1] stands for none). *)
Definition guess_of (min_value max_value : Z) (t : turn) : Z :=
  match accepts min_value max_value (snd t) with
  | Some v => v
  | None => min_value - 1
  end.

(** A valid turn whose guess is not the secret. *)
Definition wrong_turn (min_value max_value secret_number : Z) (t : turn) : bool :=
  valid_turn min_value max_value t
  && negb (guess_of min_value max_value t =? secret_number).

(** The console during the reading of one attempt. *)
Definition reading_log (prompt : string) (min_value max_value : Z) (t : turn)
    : list event :=
  flat_map (fun b => [Asked prompt; Said (complaint min_value max_value b)]) (fst t)
  ++ [Asked prompt].

(** The console over the wrong turns [ts], the first of which is
    attempt [attempts + 1]. *)
Fixpoint wrong_log (min_value max_value secret_number attempts : Z)
    (ts : list turn) : list event :=
  match ts with
  | [] => []
  | t :: r =>
      reading_log (prompt_attempt (attempts + 1)) min_value max_value t
      ++ Said (hint (guess_of min_value max_value t) secret_number)
      :: wrong_log min_value max_value secret_number (attempts + 1) r
  end.

Definition is_asked (e : event) : bool :=
  match e with Asked _ => true | Said _ => false end.

(** Number of rejected lines in the turns [ts]. *)
Definition rejections (ts : list turn) : nat :=
  list_sum (map (fun t : turn => List.length (fst t)) ts).

(** What a round of the guessing loop decides once the guess is read:
    another round ([inl]) or the outcome of the session ([inr]). *)
Definition verdict (max_attempts : option Z) (secret_number : Z) (rng : Random)
    (attempts guess : Z) : Z + played :=
  if (guess <? secret_number) || (guess >? secret_number) then
    match max_attempts with
    | Some limit =>
        if attempts >=? limit then inr (mkPlayed attempts false rng)
        else inl attempts
    | None => inl attempts
    end
  else inr (mkPlayed attempts true rng).

(** A won session with [attempts_used] attempts beats the record
    [best_score] under [difficulty_key]: no entry yet, or a strictly
    larger one. *)
Definition improves (difficulty_key : string) (attempts_used : Z) (won : bool)
    (best_score : scores) : bool :=
  won && match Dict.get difficulty_key best_score with
         | None => true
         | Some prev => attempts_used <? prev
         end.

(** The console while the difficulty menu is shown. *)
Definition menu_log : list event :=
  Said msg_choose
  :: map (fun kl : string * level => Said (msg_preset (fst kl) (snd kl)))
         difficulty_presets
  ++ [Said msg_custom].

(** A computation that leaves the file system and the supply of fresh
    generators alone. *)
Definition console_only {A} (c : M A) : Prop :=
  forall w, spawned (snd (c w)) = spawned w /\ fs (snd (c w)) = fs w.

(** The pair [(attempts, won)] the Python [play_game] returns. *)
Definition outcome (r : result played) : option (Z * bool) :=
  match r with
  | Ok p => Some (attempts_used p, won p)
  | Raise _ | Fuel => None
  end.

(** A world for worked examples: the given input, an empty console,
    no file anywhere, and generators whose raw draw is always [raw]. *)
Definition sample_world (raw : Z) (inp : list input_event) : world :=
  mkWorld inp [] (fun _ => Missing true)
          (fun _ => mkRandom (fun _ _ => raw) []) 0
          (fun _ => mkRandom (fun _ _ => raw) []).

(** The world [w] with a readable and writable file holding [text] at
    [path]. *)
Definition with_file (path text : string) (w : world) : world :=
  set_fs (write_file path (Stored true true text) (fs w)) w.

(** The quotation mark, for the JSON texts of the examples. *)
Definition quote : string := String (ascii_of_nat 34) EmptyString.

(** A score file whose value is a numeric string. *)
Definition text_string_value : string :=
  "{" +++ quote +++ "1" +++ quote +++ ": " +++ quote +++ "3" +++ quote +++ "}".

(** A score file whose value is a float. *)
Definition text_float_value : string :=
  "{" +++ quote +++ "1" +++ quote +++ ": 3.7}".

(** A score file whose value converts to no integer. *)
Definition text_null_value : string :=
  "{" +++ quote +++ "1" +++ quote +++ ": null}".

(** A score file that is not JSON. *)
Definition text_not_json : string := "{not json".

(** [int(v)] of the value stored under [k], when there is one. *)
Definition int_at (k : string) (items : list (string * value)) : option Z :=
  match Dict.get k items with
  | Some v => int_of_value v
  | None => None
  end.

(** What may follow a number in the text [json.dumps] writes: a comma
    or a line feed. *)
Definition ends_number (tail : list ascii) : Prop :=
  match tail with
  | c :: _ => Py.ord c = 44 \/ Py.ord c = 10
  | [] => False
  end.

(** The object a record is written as. *)
Definition as_items (record : scores) : list (string * value) :=
  map (fun kv => (fst kv, VInt (snd kv))) record.

(** A path at which a file can be written and read back: no file yet
    in a directory that takes one, or a file open to reading and
    writing. *)
Definition usable (f : file) : Prop :=
  f = Missing true \/ exists old, f = Stored true true old.

(** [load] twice in a row. *)
Definition load_twice (path : string) : M (scores * scores) :=
  first <- safe_load_scores path ;;
  second <- safe_load_scores path ;;
  ret (first, second).

(** Number of input events still to come. *)
Definition pending (w : world) : nat := List.length (stdin w).

(** A computation that never exhausts the loop bound and never adds
    input. *)
Definition quiet {A} (c : M A) : Prop :=
  forall w, fst (c w) <> Fuel /\ (pending (snd (c w)) <= pending w)%nat.

(** A quiet computation that has read input unless it ended by
    [EOFError]. *)
Definition strict {A} (c : M A) : Prop :=
  forall w, fst (c w) <> Fuel
            /\ (pending (snd (c w)) <= pending w)%nat
            /\ (fst (c w) <> Raise EOFError -> (pending (snd (c w)) < pending w)%nat).

(** A computation that completes without touching the input. *)
Definition silent {A} (c : M A) : Prop :=
  forall w, (exists a, fst (c w) = Ok a) /\ stdin (snd (c w)) = stdin w.

(** ** Vocabulary of the further properties *)

(** What [get_yes_no] makes of one line: the answer it returns, or
    nothing when it asks again. *)
Definition answer (raw : string) : option bool :=
  let choice := Py.lower (Py.strip raw) in
  if str_in choice ["y"; "yes"] then Some true
  else if str_in choice ["n"; "no"] then Some false
  else None.

(** The key under which a custom range is scored. *)
Definition custom_key (min_v max_v : Z) : string :=
  "custom_" +++ str min_v +++ "_" +++ str max_v.

(** The exception a computation ended by, if any. *)
Definition failure {A} (r : result A) : option exn :=
  match r with
  | Raise e => Some e
  | Ok _ | Fuel => None
  end.

(** How an ending relates the input before and after: the lines [ls]
    were read in order, followed by the interrupt when the ending is
    [KeyboardInterrupt]; an [EOFError] leaves nothing unread. *)
Definition read_as (e : option exn) (before after : list input_event)
    (ls : list string) : Prop :=
  match e with
  | Some KeyboardInterrupt => before = map Line ls ++ Interrupt :: after
  | Some EOFError => before = map Line ls /\ after = []
  | _ => before = map Line ls ++ after
  end.

(** A computation that takes its input from the front, event by event. *)
Definition reads_in_order {A} (c : M A) : Prop :=
  forall w, exists ls,
    read_as (failure (fst (c w))) (stdin w) (stdin (snd (c w))) ls.



(** The generator [run_interactive] plays with. *)
Definition first_rng (seed : option Z) (w : world) : Random :=
  match seed with
  | Some n => seeded w n
  | None => entropy w (spawned w)
  end.

(** The record [run_interactive] starts from. *)
Definition loaded (score_file : string) (w : world) : scores :=
  match load_scores (fs w score_file) with
  | Some d => d
  | None => []
  end.

(** The world when the loop of [run_interactive] starts. *)
Definition opened (seed : option Z) (w : world) : world :=
  logged [Said msg_banner]
    match seed with
    | Some _ => w
    | None => set_spawned (S (spawned w)) w
    end.

(** A character of a decimal numeral: a digit or the minus sign. *)
Definition numeral_char (c : ascii) : bool :=
  ((48 <=? Py.ord c) && (Py.ord c <=? 57)) || (Py.ord c =? 45).

(** A computation that creates no generator and writes no file other
    than the one at [path]. *)
Definition writes_only {A} (path : string) (c : M A) : Prop :=
  forall w, spawned (snd (c w)) = spawned w
            /\ forall p, p <> path -> fs (snd (c w)) p = fs w p.

(* ================================================================== *)
(** * The one-file variant, [Guess-the-Number_Game.py] *)
(* ================================================================== *)

(** [while cond: body], the test of an iteration made at the end of the
    one before. *)
Definition while_ {S} (cond : S -> bool) (body : S -> M S) (s : S) : M S :=
  if cond s then
    while_true (fun s => s' <- body s ;;
                         if cond s' then continue_ s' else return_ s') s
  else ret s.

Definition legacy_intro : string := nl +++ "Guess the number between 1 and 9".
Definition legacy_title : string := nl +++ "..:: The Perfect Guess ::..".

Definition legacy_prompt (guesses : Z) : string :=
  nl +++ str (guesses + 1) +++ ". Enter the number: ".

Definition legacy_lower : string := "-->> Lower Number Please".
Definition legacy_higher : string := "-->> Higher Number Please".
Definition legacy_wrong : string :=
  "--> You have entered the wrong number! Please enter the number between 1 and 9".

Definition legacy_done (randNo guesses : Z) : string :=
  nl +++ "..:: You have guessed the number " +++ str randNo +++ " correctly in "
     +++ str guesses +++ " attempts" +++ nl.

(** The body of the loop; the loop state is the pair of [a] and
    [guesses]. *)
Definition legacy_round (randNo : Z) (st : Z * Z) : M (Z * Z) :=
  let (a, guesses) := st in
  try_except
    (raw <- input_fn (legacy_prompt guesses) ;;
     a <- int_ raw ;;
     let guesses := guesses + 1 in
     (if a >? randNo then output_fn legacy_lower
      else if a <? randNo then output_fn legacy_higher
      else ret tt) ;;;
     ret (a, guesses))
    ValueError
    (output_fn legacy_wrong ;;; ret (a, guesses)).

(** The script; [random.randint] draws from the generator of the
    [random] module, seeded from the operating system. *)
Definition guess_the_number_game : M unit :=
  rng <- new_random ;;
  drawn <- randint rng 1 9 ;;
  let (randNo, _) := drawn in
  let a := -1 in
  let guesses := 0 in
  output_fn legacy_intro ;;;
  output_fn legacy_title ;;;
  st <- while_ (fun st => negb (fst st =? randNo)) (legacy_round randNo) (a, guesses) ;;
  output_fn (legacy_done randNo (snd st)).

(** The loop of the script once it is entered. *)
Definition legacy_loop (randNo : Z) : Z * Z -> M (Z * Z) :=
  while_true (fun s => s' <- legacy_round randNo s ;;
                       if negb (fst s' =? randNo) then continue_ s' else return_ s').

(** How the loop of the one-file variant can end. *)
Definition legacy_outcome {A} (r : Z) (inp : list input_event)
    (res : result A * world) : Prop :=
  match fst res with
  | Ok _ =>
      exists ls s rest,
        inp = map Line ls ++ Line s :: rest
        /\ Forall (fun l => Py.int_of_str l <> Some r) ls
        /\ Py.int_of_str s = Some r
        /\ stdin (snd res) = rest
  | Raise EOFError =>
      (exists ls, inp = map Line ls
                  /\ Forall (fun l => Py.int_of_str l <> Some r) ls)
      /\ stdin (snd res) = []
  | Raise KeyboardInterrupt =>
      exists ls rest,
        inp = map Line ls ++ Interrupt :: rest
        /\ Forall (fun l => Py.int_of_str l <> Some r) ls
        /\ stdin (snd res) = rest
  | Raise ValueError => False
  | Fuel => False
  end.

(** Number of lines that [int] accepts. *)
Definition numerals (ls : list string) : Z :=
  Z.of_nat (List.length (filter (fun l => is_some (Py.int_of_str l)) ls)).

(** Number of lines the validated reader accepts. *)
Definition accepted (min_value max_value : Z) (ls : list string) : Z :=
  Z.of_nat (List.length (filter (fun l => is_some (accepts min_value max_value l)) ls)).

(* ================================================================== *)
(** * Properties *)
(* ================================================================== *)

Arguments Py.strip : simpl never.
Arguments Py.lower : simpl never.
Arguments Py.int_of_str : simpl never.
Arguments Py.str_of_int : simpl never.
Arguments String.append : simpl never.

Arguments Json.literal : simpl never.
Arguments Json.scan_number : simpl never.
Arguments Json.scan_string : simpl never.
Arguments Json.skip_ws : simpl never.
Arguments Json.is_code : simpl never.
Arguments Json.loads : simpl never.
Arguments Json.dumps : simpl never.

(** Destructs the scrutinees of the goal's hypothesis [H], closing the
    branches that return nothing. *)
Ltac scan_cases H :=
  repeat match type of H with
         | context [match ?x with _ => _ end] =>
             destruct x eqn:?; try discriminate H
         | context [if ?b then _ else _] =>
             destruct b eqn:?; try discriminate H
         end.

(** Appends associated to the right, conses pulled out. *)
Ltac list_norm :=
  repeat (rewrite <- List.app_assoc
          || rewrite <- List.app_comm_cons
          || rewrite List.app_nil_l).

(** ** Worked examples *)

Example int_of_str_examples :
  map Py.int_of_str [" 5 "; "+5"; "-0"; "0_7"; "007"; "_7"; "7_"; "1__0"; ""; "- 5"; "5.0"; "x"]
  = [Some 5; Some 5; Some 0; Some 7; Some 7; None; None; None; None; None; None; None].
Proof. reflexivity. Qed.

Example strip_lower_example : Py.lower (Py.strip "  YeS ") = "yes".
Proof. reflexivity. Qed.

Example str_of_int_examples : map Py.str_of_int [0; 7; -15; 120] = ["0"; "7"; "-15"; "120"].
Proof. reflexivity. Qed.

Example dumps_example :
  Json.dumps [("1", 3); ("custom_-3_5", 12)]
  = "{" +++ nl +++ "  " +++ quote +++ "1" +++ quote +++ ": 3," +++ nl
    +++ "  " +++ quote +++ "custom_-3_5" +++ quote +++ ": 12" +++ nl +++ "}".
Proof. reflexivity. Qed.

Example dumps_empty_example : Json.dumps [] = "{}".
Proof. reflexivity. Qed.

Example loads_examples :
  map Json.loads [text_string_value; text_float_value; text_null_value; text_not_json;
                  "[1, 2.5e1, true]"; "01"; "[1,]"; " -12 "]
  = [Some (VDict [("1", VStr "3")]);
     Some (VDict [("1", VFloat (FFinite 8331659310635418 (-51)))]);
     Some (VDict [("1", VNone)]);
     None;
     Some (VList [VInt 1; VFloat (FFinite 7036874417766400 (-48)); VBool true]);
     None; None; Some (VInt (-12))].
Proof. vm_compute; reflexivity. Qed.

(** The test of the repository: a seeded generator, range 1..10, the
    secret typed at once. *)
Example play_game_test :
  outcome (fst (play_game 1 10 None (Some (mkRandom (fun _ _ => 6) []))
                  (sample_world 0 [Line "7"])))
  = Some (1, true).
Proof. reflexivity. Qed.

(** ** The monad and its loops *)

Lemma bind_ok {A B} (c : M A) (k : A -> M B) w a w' :
  c w = (Ok a, w') -> bind c k w = k a w'.
Proof. unfold bind; intros ->; reflexivity. Qed.

Lemma bind_raise {A B} (c : M A) (k : A -> M B) w e w' :
  c w = (Raise e, w') -> bind c k w = (Raise e, w').
Proof. unfold bind; intros ->; reflexivity. Qed.

Lemma bind_inv {A B} (c : M A) (k : A -> M B) w b w' :
  bind c k w = (Ok b, w') -> exists a w1, c w = (Ok a, w1) /\ k a w1 = (Ok b, w').
Proof.
  unfold bind; destruct (c w) as [[a|e|] w1]; intros H; try discriminate H.
  exists a, w1; split; [reflexivity | exact H].
Qed.

Lemma silent_quiet {A} (c : M A) : silent c -> quiet c.
Proof.
  intros H w; destruct (H w) as [[a Ha] Hs]; split.
  - rewrite Ha; discriminate.
  - unfold pending; rewrite Hs; lia.
Qed.

Lemma strict_quiet {A} (c : M A) : strict c -> quiet c.
Proof. intros H w; destruct (H w) as (? & ? & _); auto. Qed.

Lemma silent_ret {A} (a : A) : silent (ret a).
Proof. intros w; split; [exists a|]; reflexivity. Qed.

Lemma silent_output text : silent (output_fn text).
Proof. intros w; split; [exists tt|]; reflexivity. Qed.

Lemma quiet_raise {A} e : quiet (@raise A e).
Proof. intros w; split; [discriminate | simpl; lia]. Qed.

Lemma strict_input prompt : strict (input_fn prompt).
Proof.
  intros [inp out files en sp sd]; unfold input_fn, pending; simpl.
  destruct inp as [|[s|] rest]; simpl;
    (split; [discriminate | split; [lia | intros H; try congruence; lia]]).
Qed.

Lemma quiet_bind {A B} (c : M A) (k : A -> M B) :
  quiet c -> (forall a, quiet (k a)) -> quiet (bind c k).
Proof.
  intros Hc Hk w; unfold bind.
  destruct (Hc w) as [Hf Hl]; destruct (c w) as [[a|e|] w1]; simpl in *.
  - destruct (Hk a w1) as [Hf' Hl']; split; [assumption | lia].
  - split; [discriminate | assumption].
  - contradiction.
Qed.

Lemma silent_bind {A B} (c : M A) (k : A -> M B) :
  silent c -> (forall a, silent (k a)) -> silent (bind c k).
Proof.
  intros Hc Hk w; unfold bind.
  destruct (Hc w) as [[a Ha] Hs]; destruct (c w) as [r w1]; simpl in *; subst r.
  destruct (Hk a w1) as [Hx Hs']; split; [exact Hx | congruence].
Qed.

Lemma strict_bind {A B} (c : M A) (k : A -> M B) :
  strict c -> (forall a, quiet (k a)) -> strict (bind c k).
Proof.
  intros Hc Hk w; unfold bind.
  destruct (Hc w) as (Hf & Hl & Hs); destruct (c w) as [[a|e|] w1]; simpl in *.
  - destruct (Hk a w1) as [Hf' Hl'].
    assert (pending w1 < pending w)%nat by (apply Hs; discriminate).
    (split; [|split]); [assumption | lia | intros _; lia].
  - (split; [|split]); [discriminate | assumption |].
    intros H; apply Hs; intros E; apply H; inversion E; reflexivity.
  - contradiction.
Qed.

Lemma strict_after_silent {A B} (c : M A) (k : A -> M B) :
  silent c -> (forall a, strict (k a)) -> strict (bind c k).
Proof.
  intros Hc Hk w; unfold bind.
  destruct (Hc w) as [[a Ha] Hs]; destruct (c w) as [r w1]; simpl in *; subst r.
  destruct (Hk a w1) as (Hf & Hl & Hs'); unfold pending in *; rewrite Hs in *.
  auto.
Qed.

Lemma strict_try_except {A} (c h : M A) e :
  e <> EOFError -> strict c -> quiet h -> strict (try_except c e h).
Proof.
  intros He Hc Hh w; unfold try_except.
  destruct (Hc w) as (Hf & Hl & Hs); destruct (c w) as [[a|e'|] w1]; simpl in *;
    try ((split; [|split]); assumption).
  destruct (exn_eqb e e') eqn:E.
  - assert (e' <> EOFError) by (destruct e, e'; simpl in E; congruence).
    assert (pending w1 < pending w)%nat by (apply Hs; congruence).
    destruct (Hh w1) as [Hf' Hl']; (split; [|split]); [assumption | lia | intros _; lia].
  - simpl; (split; [|split]); assumption.
Qed.

Lemma quiet_try_except {A} (c h : M A) e :
  quiet c -> quiet h -> quiet (try_except c e h).
Proof.
  intros Hc Hh w; unfold try_except.
  destruct (Hc w) as (Hf & Hl); destruct (c w) as [[a|e'|] w1]; simpl in *;
    try (split; assumption).
  destruct (exn_eqb e e').
  - destruct (Hh w1) as [Hf' Hl']; split; [assumption | lia].
  - simpl; split; assumption.
Qed.

Section Loops.
Context {S A : Type} (body : S -> M (S + A)).
Hypothesis body_strict : forall s, strict (body s).

Lemma loop_enough n : forall s w,
  (pending w < n)%nat ->
  fst (loop n body s w) <> Fuel
  /\ (pending (snd (loop n body s w)) <= pending w)%nat
  /\ (fst (loop n body s w) <> Raise EOFError ->
      (pending (snd (loop n body s w)) < pending w)%nat).
Proof.
  induction n as [|n IH]; intros s w Hn; [lia|].
  simpl loop; unfold bind.
  destruct (body_strict s w) as (Hf & Hl & Hs).
  destruct (body s w) as [[[s'|a]|e|] w1]; simpl in *.
  - assert (pending w1 < pending w)%nat by (apply Hs; discriminate).
    destruct (IH s' w1) as (Hf' & Hl' & Hs'); [lia|].
    (split; [|split]); [assumption | lia | intros _; lia].
  - (split; [|split]); [discriminate | assumption | intros _; apply Hs; discriminate].
  - (split; [|split]); [discriminate | assumption |].
    intros H; apply Hs; intros E; apply H; inversion E; reflexivity.
  - contradiction.
Qed.

Lemma loop_fuel n : forall m s w,
  (pending w < n)%nat -> (pending w < m)%nat ->
  loop n body s w = loop m body s w.
Proof.
  induction n as [|n IH]; intros m s w Hn Hm; [lia|].
  destruct m as [|m]; [lia|].
  simpl loop; unfold bind.
  destruct (body_strict s w) as (Hf & Hl & Hs).
  destruct (body s w) as [[[s'|a]|e|] w1]; simpl in *; try reflexivity.
  assert (pending w1 < pending w)%nat by (apply Hs; discriminate).
  apply IH; lia.
Qed.

(** One round of a loop, with the loop bound out of the way. *)
Lemma while_true_step s w :
  while_true body s w =
  match body s w with
  | (Ok (inl s'), w') => while_true body s' w'
  | (Ok (inr a), w') => (Ok a, w')
  | (Raise e, w') => (Raise e, w')
  | (Fuel, w') => (Fuel, w')
  end.
Proof.
  unfold while_true at 1; simpl loop; unfold bind.
  destruct (body_strict s w) as (Hf & Hl & Hs).
  destruct (body s w) as [[[s'|a]|e|] w1]; simpl in *; try reflexivity.
  assert (pending w1 < pending w)%nat by (apply Hs; discriminate).
  unfold while_true; apply loop_fuel; unfold pending in *; lia.
Qed.

Lemma strict_while_true s : strict (while_true body s).
Proof. intros w; unfold while_true; apply loop_enough; unfold pending; lia. Qed.

End Loops.

(** ** The validated reader *)

Lemma read_round_strict prompt lo hi u : strict (read_round prompt lo hi u).
Proof.
  unfold read_round; apply strict_try_except; [discriminate | |].
  - apply strict_bind; [apply strict_input|]; intros raw.
    apply quiet_bind.
    + unfold int_; destruct (Py.int_of_str raw);
        [apply silent_quiet, silent_ret | apply quiet_raise].
    + intros v; destruct ((lo <=? v) && (v <=? hi)); apply silent_quiet;
        [apply silent_ret|].
      apply silent_bind; [apply silent_output | intros; apply silent_ret].
  - apply silent_quiet, silent_bind; [apply silent_output | intros; apply silent_ret].
Qed.

Lemma get_valid_number_strict prompt lo hi : strict (get_valid_number prompt lo hi).
Proof. apply strict_while_true; intros; apply read_round_strict. Qed.

Lemma get_valid_number_eof prompt lo hi w :
  stdin w = [] ->
  get_valid_number prompt lo hi w = (Raise EOFError, logged [Asked prompt] w).
Proof.
  intros E; unfold get_valid_number.
  rewrite while_true_step by (intros; apply read_round_strict).
  destruct w as [inp out files en sp sd]; simpl in E; subst inp; reflexivity.
Qed.

Lemma get_valid_number_interrupt prompt lo hi w rest :
  stdin w = Interrupt :: rest ->
  get_valid_number prompt lo hi w
  = (Raise KeyboardInterrupt, set_stdin rest (logged [Asked prompt] w)).
Proof.
  intros E; unfold get_valid_number.
  rewrite while_true_step by (intros; apply read_round_strict).
  destruct w as [inp out files en sp sd]; simpl in E; subst inp; reflexivity.
Qed.

Lemma get_valid_number_accept prompt lo hi w s rest v :
  stdin w = Line s :: rest -> accepts lo hi s = Some v ->
  get_valid_number prompt lo hi w = (Ok v, set_stdin rest (logged [Asked prompt] w)).
Proof.
  intros E Hs; unfold get_valid_number.
  rewrite while_true_step by (intros; apply read_round_strict).
  destruct w as [inp out files en sp sd]; simpl in E; subst inp.
  unfold accepts in Hs.
  unfold read_round, try_except, bind, input_fn, int_; simpl.
  destruct (Py.int_of_str s) as [x|]; [|discriminate]; simpl.
  destruct ((lo <=? x) && (x <=? hi)); [|discriminate].
  inversion Hs; subst; reflexivity.
Qed.

Lemma get_valid_number_reject prompt lo hi w s rest :
  stdin w = Line s :: rest -> accepts lo hi s = None ->
  get_valid_number prompt lo hi w
  = get_valid_number prompt lo hi
      (set_stdin rest (logged [Asked prompt; Said (complaint lo hi s)] w)).
Proof.
  intros E Hs; unfold get_valid_number at 1.
  rewrite while_true_step by (intros; apply read_round_strict).
  destruct w as [inp out files en sp sd]; simpl in E; subst inp.
  unfold accepts in Hs; unfold complaint, logged.
  unfold read_round, try_except, bind, input_fn, int_; simpl.
  destruct (Py.int_of_str s) as [x|]; simpl.
  - destruct ((lo <=? x) && (x <=? hi)); [discriminate|]; simpl.
    rewrite <- app_assoc; reflexivity.
  - rewrite <- app_assoc; reflexivity.
Qed.

Lemma get_valid_number_in_range prompt lo hi : forall w v w',
  get_valid_number prompt lo hi w = (Ok v, w') -> lo <= v <= hi.
Proof.
  intros w; remember (stdin w) as inp eqn:E; revert w E.
  induction inp as [|[s|] rest IH]; intros w E v w' H; symmetry in E.
  - rewrite get_valid_number_eof in H by assumption; discriminate.
  - destruct (accepts lo hi s) as [x|] eqn:Hs.
    + rewrite (get_valid_number_accept _ _ _ _ _ _ _ E Hs) in H.
      inversion H; subst; unfold accepts in Hs.
      destruct (Py.int_of_str s) as [y|]; [|discriminate].
      destruct ((lo <=? y) && (y <=? hi)) eqn:Hr; [|discriminate].
      inversion Hs; subst; lia.
    + rewrite (get_valid_number_reject _ _ _ _ _ _ E Hs) in H.
      eapply IH; [|exact H]; reflexivity.
  - rewrite (get_valid_number_interrupt _ _ _ _ _ E) in H; discriminate.
Qed.

(** The reader skips the rejected lines [bad], complaining about each,
    and returns at the first accepted line. *)
Lemma get_valid_number_skips prompt lo hi bad : forall w s rest v,
  stdin w = map Line bad ++ Line s :: rest ->
  Forall (fun b => accepts lo hi b = None) bad ->
  accepts lo hi s = Some v ->
  get_valid_number prompt lo hi w
  = (Ok v, set_stdin rest
             (logged (flat_map (fun b => [Asked prompt; Said (complaint lo hi b)]) bad
                      ++ [Asked prompt]) w)).
Proof.
  induction bad as [|b bad IH]; intros w s rest v E Hbad Hs; simpl in E.
  - rewrite (get_valid_number_accept _ _ _ _ _ _ _ E Hs); reflexivity.
  - inversion Hbad as [|? ? Hb Hbad']; subst.
    rewrite (get_valid_number_reject _ _ _ _ _ _ E Hb).
    rewrite (IH _ s rest v); [| reflexivity | assumption | assumption].
    destruct w as [inp out files en sp sd]; unfold logged, set_stdin, set_stdout; simpl.
    rewrite <- app_assoc; reflexivity.
Qed.

(** Rejected lines do not change what the reader returns. *)
Lemma get_valid_number_filter prompt1 prompt2 lo hi : forall w1 w2,
  same_guesses lo hi w1 w2 ->
  fst (get_valid_number prompt1 lo hi w1) = fst (get_valid_number prompt2 lo hi w2)
  /\ same_guesses lo hi (snd (get_valid_number prompt1 lo hi w1))
                        (snd (get_valid_number prompt2 lo hi w2)).
Proof.
  intros w1; remember (stdin w1) as inp eqn:E; revert w1 E.
  induction inp as [|[s|] rest IH]; intros w1 E w2 R; symmetry in E;
    unfold same_guesses in R; rewrite E in R; simpl in R.
  - rewrite !get_valid_number_eof by assumption.
    split; [reflexivity | unfold same_guesses; simpl; rewrite E, R; reflexivity].
  - destruct (accepts lo hi s) as [x|] eqn:Hs.
    + rewrite (get_valid_number_accept _ _ _ _ _ _ _ E Hs).
      rewrite (get_valid_number_accept _ _ _ _ _ _ _ R Hs).
      split; reflexivity.
    + rewrite (get_valid_number_reject _ _ _ _ _ _ E Hs).
      apply IH; [reflexivity | exact R].
  - rewrite (get_valid_number_interrupt _ _ _ _ _ E).
    rewrite (get_valid_number_interrupt _ _ _ _ _ R).
    split; reflexivity.
Qed.

(** ** The guessing loop *)

Lemma limit_check_silent lim secret rng a : silent (limit_check lim secret rng a).
Proof.
  unfold limit_check; destruct lim as [m|]; [destruct (a >=? m)|];
    [apply silent_bind; [apply silent_output | intros] | |]; apply silent_ret.
Qed.

Lemma guess_round_strict lo hi lim secret rng a :
  strict (guess_round lo hi lim secret rng a).
Proof.
  unfold guess_round; apply strict_bind; [apply get_valid_number_strict|].
  intros g; apply silent_quiet.
  destruct (g <? secret); [|destruct (g >? secret)];
    (apply silent_bind; [apply silent_output | intros]);
    try apply limit_check_silent; apply silent_ret.
Qed.

Lemma play_game_start lo hi lim rng w :
  lo <= hi ->
  play_game lo hi lim rng w
  = session lo hi lim (secret_of (source_of rng w) lo hi)
      (drawn_from (source_of rng w) lo hi) 0 (started lo hi rng w).
Proof.
  intros H; unfold play_game, session, started, secret_of, drawn_from, source_of, randint.
  apply Z.leb_le in H; rewrite H.
  destruct rng as [r|]; unfold bind, new_random, ret, output_fn, logged; simpl;
    reflexivity.
Qed.

Lemma play_game_empty_range lo hi lim rng w :
  hi < lo -> fst (play_game lo hi lim rng w) = Raise ValueError.
Proof.
  intros H; unfold play_game, randint.
  apply Z.leb_gt in H; rewrite H.
  destruct rng as [r|]; reflexivity.
Qed.

Section Session.
Variables (lo hi : Z) (lim : option Z) (secret : Z) (rng : Random).

Lemma valid_turn_reads prompt t w rest :
  valid_turn lo hi t = true ->
  stdin w = turn_input t ++ rest ->
  get_valid_number prompt lo hi w
  = (Ok (guess_of lo hi t), set_stdin rest (logged (reading_log prompt lo hi t) w)).
Proof.
  intros Hv E; destruct t as [bad s]; unfold valid_turn, guess_of in *; simpl in *.
  apply andb_true_iff in Hv; destruct Hv as [Hbad Hs].
  destruct (accepts lo hi s) as [v|] eqn:Ha; [|discriminate].
  unfold turn_input in E; simpl in E; rewrite <- app_assoc in E; simpl in E.
  apply (get_valid_number_skips prompt lo hi bad w s rest v E); [|exact Ha].
  apply Forall_forall; intros b Hb.
  rewrite forallb_forall in Hbad; specialize (Hbad b Hb).
  destruct (accepts lo hi b); [discriminate | reflexivity].
Qed.

(** A turn that guesses the secret ends the session with a win. *)
Lemma session_win a t w rest :
  valid_turn lo hi t = true -> guess_of lo hi t = secret ->
  stdin w = turn_input t ++ rest ->
  session lo hi lim secret rng a w
  = (Ok (mkPlayed (a + 1) true rng),
     set_stdin rest
       (logged (reading_log (prompt_attempt (a + 1)) lo hi t
                ++ [Said (msg_correct secret (a + 1))]) w)).
Proof.
  intros Hv Hg E; unfold session.
  rewrite while_true_step by (intros; apply guess_round_strict).
  unfold guess_round.
  rewrite (bind_ok _ _ _ _ _ (valid_turn_reads _ t w rest Hv E)).
  rewrite Hg, Z.gtb_ltb, Z.ltb_irrefl.
  destruct w as [inp out files en sp sd]; unfold logged, set_stdin, set_stdout; simpl.
  rewrite <- app_assoc; reflexivity.
Qed.
Lemma wrong_turn_valid t :
  wrong_turn lo hi secret t = true ->
  valid_turn lo hi t = true /\ guess_of lo hi t <> secret.
Proof.
  unfold wrong_turn; intros H; apply andb_true_iff in H; destruct H as [H1 H2].
  split; [assumption|]; apply negb_true_iff, Z.eqb_neq in H2; assumption.
Qed.

(** After a wrong guess the round says the hint and checks the limit. *)
Lemma wrong_guess_round a t w rest :
  wrong_turn lo hi secret t = true ->
  stdin w = turn_input t ++ rest ->
  guess_round lo hi lim secret rng a w
  = limit_check lim secret rng (a + 1)
      (set_stdin rest
         (logged (reading_log (prompt_attempt (a + 1)) lo hi t
                  ++ [Said (hint (guess_of lo hi t) secret)]) w)).
Proof.
  intros Hw E; destruct (wrong_turn_valid t Hw) as [Hv Hne].
  unfold guess_round.
  rewrite (bind_ok _ _ _ _ _ (valid_turn_reads _ t w rest Hv E)).
  unfold hint; rewrite Z.gtb_ltb.
  destruct (guess_of lo hi t <? secret) eqn:L1.
  - destruct w as [inp out files en sp sd]; unfold bind, output_fn, logged, set_stdin, set_stdout; simpl.
    rewrite <- app_assoc; reflexivity.
  - destruct (secret <? guess_of lo hi t) eqn:L2.
    + destruct w as [inp out files en sp sd]; unfold bind, output_fn, logged, set_stdin, set_stdout; simpl.
      rewrite <- app_assoc; reflexivity.
    + apply Z.ltb_ge in L1, L2; lia.
Qed.

(** A wrong guess below the limit leads to the next attempt. *)
Lemma session_miss a t w rest :
  wrong_turn lo hi secret t = true ->
  match lim with Some m => a + 1 < m | None => True end ->
  stdin w = turn_input t ++ rest ->
  session lo hi lim secret rng a w
  = session lo hi lim secret rng (a + 1)
      (set_stdin rest
         (logged (reading_log (prompt_attempt (a + 1)) lo hi t
                  ++ [Said (hint (guess_of lo hi t) secret)]) w)).
Proof.
  intros Hw Hl E; unfold session at 1.
  rewrite while_true_step by (intros; apply guess_round_strict).
  rewrite (wrong_guess_round a t w rest Hw E).
  unfold limit_check; destruct lim as [m|]; [|reflexivity].
  replace (a + 1 >=? m) with false; [reflexivity|].
  symmetry; rewrite Z.geb_leb; apply Z.leb_gt; assumption.
Qed.

(** A wrong guess that reaches the limit ends the session with a loss. *)
Lemma session_over a t w rest m :
  wrong_turn lo hi secret t = true ->
  lim = Some m -> m <= a + 1 ->
  stdin w = turn_input t ++ rest ->
  session lo hi lim secret rng a w
  = (Ok (mkPlayed (a + 1) false rng),
     set_stdin rest
       (logged (reading_log (prompt_attempt (a + 1)) lo hi t
                ++ [Said (hint (guess_of lo hi t) secret);
                    Said (msg_game_over m secret)]) w)).
Proof.
  intros Hw Hm Hl E; unfold session.
  rewrite while_true_step by (intros; apply guess_round_strict).
  rewrite (wrong_guess_round a t w rest Hw E).
  unfold limit_check; rewrite Hm.
  replace (a + 1 >=? m) with true
    by (symmetry; rewrite Z.geb_leb; apply Z.leb_le; assumption).
  destruct w as [inp out files en sp sd]; unfold bind, output_fn, logged, set_stdin, set_stdout; simpl.
  rewrite <- !app_assoc; reflexivity.
Qed.

(** Wrong guesses below the limit, one after the other. *)
Lemma session_misses ts : forall a w rest,
  forallb (wrong_turn lo hi secret) ts = true ->
  match lim with Some m => a + Z.of_nat (List.length ts) < m | None => True end ->
  stdin w = flat_map turn_input ts ++ rest ->
  session lo hi lim secret rng a w
  = session lo hi lim secret rng (a + Z.of_nat (List.length ts))
      (set_stdin rest (logged (wrong_log lo hi secret a ts) w)).
Proof.
  induction ts as [|t ts IH]; intros a w rest Hw Hl E.
  - simpl in *; rewrite Z.add_0_r.
    destruct w as [inp out files en sp sd]; unfold logged, set_stdin, set_stdout; simpl in *.
    rewrite List.app_nil_r; subst; reflexivity.
  - simpl in Hw; apply andb_true_iff in Hw; destruct Hw as [Ht Hts].
    simpl in E; rewrite <- app_assoc in E.
    rewrite (session_miss a t w (flat_map turn_input ts ++ rest) Ht); [| |exact E].
    2:{ destruct lim; [|exact I]. simpl List.length in Hl. lia. }
    rewrite (IH (a + 1) _ rest Hts); [| |reflexivity].
    2:{ destruct lim; [|exact I]. simpl List.length in Hl. lia. }
    replace (a + 1 + Z.of_nat (List.length ts))
      with (a + Z.of_nat (List.length (t :: ts))) by (simpl List.length; lia).
    f_equal.
    destruct w as [inp out files en sp sd]; unfold logged, set_stdin, set_stdout; simpl.
    rewrite <- !app_assoc; reflexivity.
Qed.
(** Wrong guesses up to the limit: the session is lost at the last. *)
Lemma session_limit ts : forall a w rest m,
  ts <> [] ->
  forallb (wrong_turn lo hi secret) ts = true ->
  lim = Some m -> a + Z.of_nat (List.length ts) = m ->
  stdin w = flat_map turn_input ts ++ rest ->
  session lo hi lim secret rng a w
  = (Ok (mkPlayed m false rng),
     set_stdin rest
       (logged (wrong_log lo hi secret a ts ++ [Said (msg_game_over m secret)]) w)).
Proof.
  induction ts as [|t ts IH]; intros a w rest m Hne Hw Hm Hl E; [congruence|].
  simpl in Hw; apply andb_true_iff in Hw; destruct Hw as [Ht Hts].
  simpl in E; rewrite <- app_assoc in E.
  destruct ts as [|t' ts'].
  - simpl in *; rewrite (session_over a t w rest m Ht Hm); [|lia|exact E].
    replace (a + 1) with m by lia.
    rewrite <- !app_assoc; reflexivity.
  - rewrite (session_miss a t w (flat_map turn_input (t' :: ts') ++ rest) Ht);
      [| rewrite Hm; simpl List.length in Hl; lia | exact E].
    rewrite (IH (a + 1) _ rest m); [| discriminate | exact Hts | exact Hm | | reflexivity].
    2:{ simpl List.length in *; lia. }
    f_equal.
    destruct w as [inp out files en sp sd]; unfold logged, set_stdin, set_stdout.
    cbn [stdout stdin fs entropy spawned seeded].
    f_equal; cbn [wrong_log]; list_norm; reflexivity.
Qed.

(** Without a limit, wrong guesses alone never end the session: when
    the input ends the pending [input_fn] call fails. *)
Lemma session_unbounded ts a w :
  lim = None ->
  forallb (wrong_turn lo hi secret) ts = true ->
  stdin w = flat_map turn_input ts ->
  fst (session lo hi lim secret rng a w) = Raise EOFError.
Proof.
  intros Hn Hw E.
  rewrite (session_misses ts a w [] Hw); [| rewrite Hn; exact I | rewrite List.app_nil_r; exact E].
  unfold session; rewrite while_true_step by (intros; apply guess_round_strict).
  unfold guess_round; erewrite bind_raise; [reflexivity|].
  apply get_valid_number_eof; reflexivity.
Qed.

(** Without a limit a session that returns has been won. *)
Lemma session_unbounded_won :
  lim = None ->
  forall n a w p w', loop n (guess_round lo hi lim secret rng) a w = (Ok p, w') ->
  won p = true.
Proof.
  intros Hn; induction n as [|n IH]; intros a w p w' H; [discriminate|].
  simpl in H; unfold bind at 1 in H.
  destruct (guess_round lo hi lim secret rng a w) as [[[a'|q]|e|] w1] eqn:G;
    try discriminate.
  - eapply IH; exact H.
  - inversion H; subst q w1; clear H.
    unfold guess_round, bind in G.
    destruct (get_valid_number _ lo hi w) as [[g|e|] w2]; try discriminate.
    rewrite Hn in G; unfold limit_check, output_fn, continue_, return_, ret in G.
    destruct (g <? secret); [discriminate|].
    destruct (g >? secret); [discriminate|].
    inversion G; reflexivity.
Qed.
(** A round is the reading of a guess followed by its verdict. *)
Lemma guess_round_verdict a w :
  fst (guess_round lo hi lim secret rng a w)
  = match fst (get_valid_number (prompt_attempt (a + 1)) lo hi w) with
    | Ok g => Ok (verdict lim secret rng (a + 1) g)
    | Raise e => Raise e
    | Fuel => Fuel
    end
  /\ stdin (snd (guess_round lo hi lim secret rng a w))
     = stdin (snd (get_valid_number (prompt_attempt (a + 1)) lo hi w)).
Proof.
  unfold guess_round, bind, verdict, limit_check.
  destruct (get_valid_number (prompt_attempt (a + 1)) lo hi w) as [[g|e|] w1];
    [|split; reflexivity..].
  cbn [fst snd].
  destruct (g <? secret); [|destruct (g >? secret)]; simpl;
    try (split; reflexivity);
    (destruct lim as [m|]; [destruct (a + 1 >=? m)|]; split; reflexivity).
Qed.

(** Rejected lines do not change the outcome of the guessing loop. *)
Lemma session_filter n : forall a w1 w2,
  same_guesses lo hi w1 w2 ->
  fst (loop n (guess_round lo hi lim secret rng) a w1)
  = fst (loop n (guess_round lo hi lim secret rng) a w2).
Proof.
  induction n as [|n IH]; intros a w1 w2 R; [reflexivity|].
  simpl loop; unfold bind.
  destruct (guess_round_verdict a w1) as [F1 S1].
  destruct (guess_round_verdict a w2) as [F2 S2].
  destruct (get_valid_number_filter (prompt_attempt (a + 1)) (prompt_attempt (a + 1))
              lo hi w1 w2 R) as [F R'].
  rewrite <- F in F2.
  unfold same_guesses in R'; rewrite <- S1, <- S2 in R'.
  destruct (guess_round lo hi lim secret rng a w1) as [r1 w1'].
  destruct (guess_round lo hi lim secret rng a w2) as [r2 w2'].
  simpl in *; rewrite <- F1 in F2; subst r2.
  destruct r1 as [[a'|p]|e|]; try reflexivity.
  apply IH; exact R'.
Qed.
End Session.

(** ** Facts about the random source and the console log *)

Lemma secret_in_range rng lo hi :
  lo <= hi -> lo <= secret_of rng lo hi <= hi.
Proof.
  intros H; unfold secret_of, randbelow; simpl.
  pose proof (Z.mod_pos_bound (draws rng (past rng) (hi - lo + 1)) (hi - lo + 1)).
  lia.
Qed.

Lemma valid_guess_in_range lo hi t :
  valid_turn lo hi t = true -> lo <= guess_of lo hi t <= hi.
Proof.
  unfold valid_turn, guess_of, accepts; intros H.
  apply andb_true_iff in H; destruct H as [_ H].
  destruct (Py.int_of_str (snd t)) as [v|]; [|discriminate].
  destruct ((lo <=? v) && (v <=? hi)) eqn:R; [|discriminate]; lia.
Qed.

Lemma filter_asked_app l1 l2 :
  filter is_asked (l1 ++ l2) = filter is_asked l1 ++ filter is_asked l2.
Proof. apply filter_app. Qed.

Lemma reading_log_asked prompt lo hi t :
  List.length (filter is_asked (reading_log prompt lo hi t)) = S (List.length (fst t)).
Proof.
  unfold reading_log; rewrite filter_app, length_app; simpl.
  induction (fst t) as [|b l IH]; simpl in *; lia.
Qed.

Lemma wrong_log_asked lo hi secret ts : forall a,
  List.length (filter is_asked (wrong_log lo hi secret a ts))
  = (List.length ts + rejections ts)%nat.
Proof.
  induction ts as [|t ts IH]; intros a; [reflexivity|].
  cbn [wrong_log]; rewrite filter_app, length_app, reading_log_asked.
  cbn [filter is_asked]; rewrite IH; unfold rejections; simpl; lia.
Qed.

Lemma reading_log_prompt prompt lo hi t p :
  In (Asked p) (reading_log prompt lo hi t) -> p = prompt.
Proof.
  unfold reading_log; intros H; apply in_app_or in H; destruct H as [H|H].
  - apply in_flat_map in H; destruct H as (b & _ & [H|[H|[]]]); congruence.
  - destruct H as [H|[]]; congruence.
Qed.

Lemma wrong_log_prompts lo hi secret ts : forall a p,
  In (Asked p) (wrong_log lo hi secret a ts) ->
  exists k, a < k <= a + Z.of_nat (List.length ts) /\ p = prompt_attempt k.
Proof.
  induction ts as [|t ts IH]; intros a p H; [destruct H|].
  cbn [wrong_log] in H; apply in_app_or in H; destruct H as [H|[H|H]].
  - apply reading_log_prompt in H; exists (a + 1); simpl List.length; split; [lia|assumption].
  - discriminate.
  - destruct (IH _ _ H) as (k & Hk & ->); exists k; simpl List.length; split; [lia|reflexivity].
Qed.

Lemma accepts_spec lo hi s v :
  accepts lo hi s = Some v <-> Py.int_of_str s = Some v /\ lo <= v <= hi.
Proof.
  unfold accepts; destruct (Py.int_of_str s) as [x|].
  - destruct ((lo <=? x) && (x <=? hi)) eqn:R; split.
    + intros H; inversion H; subst; split; [reflexivity | lia].
    + intros [H _]; exact H.
    + discriminate.
    + intros [H B]; inversion H; subst; lia.
  - split; [discriminate | intros [H _]; discriminate].
Qed.

Lemma complaint_spec lo hi b :
  accepts lo hi b = None ->
  (Py.int_of_str b = None /\ complaint lo hi b = msg_invalid)
  \/ (exists x, Py.int_of_str b = Some x /\ ~ (lo <= x <= hi)
                /\ complaint lo hi b = msg_range lo hi).
Proof.
  unfold accepts, complaint; destruct (Py.int_of_str b) as [x|].
  - destruct ((lo <=? x) && (x <=? hi)) eqn:R; [discriminate|].
    intros _; right; exists x; repeat split; lia.
  - intros _; left; split; reflexivity.
Qed.

Lemma filter_length_le {A} (f : A -> bool) (l : list A) :
  (List.length (filter f l) <= List.length l)%nat.
Proof. induction l as [|x l IH]; simpl; [lia | destruct (f x); simpl; lia]. Qed.

(** Dropping the lines the reader rejects changes neither the attempt
    count nor the outcome of a session. *)
Lemma play_game_filter lo hi lim rng w :
  fst (play_game lo hi lim rng w)
  = fst (play_game lo hi lim rng (set_stdin (filter (kept lo hi) (stdin w)) w)).
Proof.
  destruct (Z_le_gt_dec lo hi) as [Hle|Hgt].
  - rewrite !play_game_start by assumption.
    set (w1 := started lo hi rng w).
    set (w2 := started lo hi rng (set_stdin (filter (kept lo hi) (stdin w)) w)).
    assert (R : same_guesses lo hi w1 w2) by (destruct rng; reflexivity).
    change (source_of rng (set_stdin (filter (kept lo hi) (stdin w)) w))
      with (source_of rng w).
    unfold session, while_true.
    rewrite (loop_fuel _ (fun a => guess_round_strict lo hi lim _ _ a)
               (S (List.length (stdin w2))) (S (List.length (stdin w1))) 0 w2).
    + apply session_filter; exact R.
    + unfold pending; lia.
    + unfold pending; rewrite R; pose proof (filter_length_le (kept lo hi) (stdin w1)); lia.
  - rewrite !play_game_empty_range by lia; reflexivity.
Qed.

(** ** Dictionaries *)

Lemma get_set_same {V} k (v : V) d : Dict.get k (Dict.set k v d) = Some v.
Proof.
  induction d as [|[k' v'] d IH]; simpl.
  - rewrite String.eqb_refl; reflexivity.
  - destruct (String.eqb k k') eqn:E; simpl; rewrite E; [reflexivity | exact IH].
Qed.

Lemma get_set_other {V} k k0 (v : V) d :
  k0 <> k -> Dict.get k0 (Dict.set k v d) = Dict.get k0 d.
Proof.
  intros Hne; induction d as [|[k' v'] d IH]; simpl.
  - apply String.eqb_neq in Hne; rewrite Hne; reflexivity.
  - destruct (String.eqb k k') eqn:E; simpl.
    + apply String.eqb_eq in E; subst k'.
      apply String.eqb_neq in Hne; rewrite Hne; reflexivity.
    + rewrite IH; reflexivity.
Qed.

(** ** The score update *)

Lemma update_best_improving score_file lv key a won best w :
  improves key a won best = true ->
  update_best score_file lv key a won best w
  = (Ok (Dict.set key a best),
     logged [Said (msg_new_best (name lv) a)]
       (snd (safe_save_scores (Dict.set key a best) score_file w))).
Proof.
  unfold improves, update_best; intros H.
  apply andb_true_iff in H; destruct H as [-> H].
  assert (S : forall d, fst (safe_save_scores d score_file w) = Ok tt).
  { intros d; unfold safe_save_scores.
    destruct (fs w score_file) as [[|]|r [|] t]; reflexivity. }
  destruct (Dict.get key best) as [prev|]; [rewrite H|];
    unfold bind; specialize (S (Dict.set key a best));
    destruct (safe_save_scores (Dict.set key a best) score_file w) as [r w1];
    simpl in S; subst r; reflexivity.
Qed.

Lemma update_best_otherwise score_file lv key a won best w :
  improves key a won best = false ->
  fst (update_best score_file lv key a won best w) = Ok best
  /\ fs (snd (update_best score_file lv key a won best w)) = fs w.
Proof.
  unfold improves, update_best; intros H.
  destruct won; [|split; reflexivity].
  simpl in H; destruct (Dict.get key best) as [prev|]; [|discriminate].
  rewrite H; split; reflexivity.
Qed.

(** ** The rounds of the interactive loop *)

Lemma silent_for_each {A} (l : list A) (f : A -> M unit) :
  (forall x, silent (f x)) -> silent (for_each l f).
Proof.
  intros H; induction l as [|x l IH]; simpl; [apply silent_ret|].
  apply silent_bind; [apply H | intros; exact IH].
Qed.

Lemma show_menu_silent : silent show_menu.
Proof.
  unfold show_menu; apply silent_bind; [apply silent_output | intros _].
  apply silent_bind; [|intros; apply silent_output].
  apply silent_for_each; intros; apply silent_output.
Qed.

Lemma show_menu_log w : show_menu w = (Ok tt, logged menu_log w).
Proof.
  destruct w; unfold show_menu, logged, menu_log, bind, output_fn, set_stdout; simpl.
  list_norm; reflexivity.
Qed.

Lemma quiet_int_ raw : quiet (int_ raw).
Proof.
  unfold int_; destruct (Py.int_of_str raw);
    [apply silent_quiet, silent_ret | apply quiet_raise].
Qed.

Lemma select_level_strict : strict select_level.
Proof.
  unfold select_level; apply strict_bind; [apply strict_input | intros raw].
  destruct (String.eqb (Py.strip raw) "4").
  - apply quiet_bind; [apply strict_quiet, strict_input | intros raw_min].
    apply quiet_bind; [apply quiet_int_ | intros min_v].
    apply quiet_bind; [apply strict_quiet, strict_input | intros raw_max].
    apply quiet_bind; [apply quiet_int_ | intros max_v].
    destruct (min_v >? max_v); apply silent_quiet; [|apply silent_ret].
    apply silent_bind; [apply silent_output | intros; apply silent_ret].
  - destruct (Dict.get (Py.strip raw) difficulty_presets); apply silent_quiet;
      [apply silent_ret|].
    apply silent_bind; [apply silent_output | intros; apply silent_ret].
Qed.

Lemma play_game_quiet lo hi lim rng : quiet (play_game lo hi lim rng).
Proof.
  unfold play_game; apply quiet_bind.
  - destruct rng; apply silent_quiet; [apply silent_ret|].
    intros w; split; [exists (entropy w (spawned w))|]; reflexivity.
  - intros r; apply quiet_bind.
    + unfold randint; destruct (lo <=? hi); [|apply quiet_raise].
      destruct (randbelow r (hi - lo + 1)); apply silent_quiet, silent_ret.
    + intros [secret r']; apply quiet_bind; [apply silent_quiet, silent_output|].
      intros _; apply strict_quiet, strict_while_true.
      intros; apply guess_round_strict.
Qed.

Lemma ask_round_strict prompt u : strict (ask_round prompt u).
Proof.
  unfold ask_round; apply strict_bind; [apply strict_input | intros raw].
  apply silent_quiet.
  destruct (str_in _ _); [apply silent_ret|].
  destruct (str_in _ _); [apply silent_ret|].
  apply silent_bind; [apply silent_output | intros; apply silent_ret].
Qed.

Lemma safe_save_scores_silent d path : silent (safe_save_scores d path).
Proof.
  intros w; unfold safe_save_scores.
  destruct (fs w path) as [[|]|r [|] t]; split; try (exists tt); reflexivity.
Qed.

Lemma update_best_silent f lv key a won best : silent (update_best f lv key a won best).
Proof.
  unfold update_best; destruct won.
  - destruct (Dict.get key best) as [prev|]; [destruct (a <? prev)|];
      repeat (apply silent_bind; [first [apply safe_save_scores_silent | apply silent_output] | intros]);
      apply silent_ret.
  - apply silent_bind; [apply silent_output | intros; apply silent_ret].
Qed.

Lemma farewell_silent best : silent (farewell best).
Proof.
  unfold farewell; apply silent_bind; [apply silent_output | intros _].
  destruct best; [apply silent_ret|].
  apply silent_bind; [apply silent_output | intros _].
  apply silent_for_each; intros; apply silent_output.
Qed.

Lemma round_strict score_file st : strict (round score_file st).
Proof.
  destruct st as [rng best]; unfold round.
  apply strict_after_silent; [apply show_menu_silent | intros _].
  apply strict_bind; [apply select_level_strict | intros sel].
  destruct sel as [lv key|]; [|apply silent_quiet, silent_ret].
  apply quiet_bind; [apply play_game_quiet | intros p].
  apply quiet_bind; [apply silent_quiet, update_best_silent | intros best'].
  apply quiet_bind; [apply strict_quiet, strict_while_true; intros; apply ask_round_strict|].
  intros again; destruct again; apply silent_quiet; [apply silent_ret|].
  apply silent_bind; [apply farewell_silent | intros; apply silent_ret].
Qed.

(** ** What a session touches *)

Lemma console_only_input prompt : console_only (input_fn prompt).
Proof. intros [inp out files en sp sd]; unfold input_fn; destruct inp as [|[|]]; split; reflexivity. Qed.

Lemma console_only_output text : console_only (output_fn text).
Proof. intros w; split; reflexivity. Qed.

Lemma console_only_ret {A} (a : A) : console_only (ret a).
Proof. intros w; split; reflexivity. Qed.

Lemma console_only_raise {A} e : console_only (@raise A e).
Proof. intros w; split; reflexivity. Qed.

Lemma console_only_bind {A B} (c : M A) (k : A -> M B) :
  console_only c -> (forall a, console_only (k a)) -> console_only (bind c k).
Proof.
  intros Hc Hk w; unfold bind; destruct (Hc w) as [S1 F1].
  destruct (c w) as [[a|e|] w1]; simpl in *; try (split; assumption).
  destruct (Hk a w1) as [S2 F2]; split; congruence.
Qed.

Lemma console_only_try {A} (c h : M A) e :
  console_only c -> console_only h -> console_only (try_except c e h).
Proof.
  intros Hc Hh w; unfold try_except; destruct (Hc w) as [S1 F1].
  destruct (c w) as [[a|e'|] w1]; simpl in *; try (split; assumption).
  destruct (exn_eqb e e'); [|split; assumption].
  destruct (Hh w1) as [S2 F2]; split; congruence.
Qed.

Lemma console_only_loop {S A} (body : S -> M (S + A)) n :
  (forall s, console_only (body s)) -> forall s, console_only (loop n body s).
Proof.
  intros Hb; induction n as [|n IH]; intros s; [intros w; split; reflexivity|].
  simpl; apply console_only_bind; [apply Hb|].
  intros [s'|a]; [apply IH | apply console_only_ret].
Qed.

Lemma console_only_while {S A} (body : S -> M (S + A)) s :
  (forall s, console_only (body s)) -> console_only (while_true body s).
Proof. intros Hb w; unfold while_true; apply console_only_loop; assumption. Qed.

Lemma get_valid_number_console_only prompt lo hi :
  console_only (get_valid_number prompt lo hi).
Proof.
  apply console_only_while; intros u; unfold read_round.
  apply console_only_try.
  - apply console_only_bind; [apply console_only_input | intros raw].
    apply console_only_bind.
    + unfold int_; destruct (Py.int_of_str raw);
        [apply console_only_ret | apply console_only_raise].
    + intros v; destruct ((lo <=? v) && (v <=? hi)); [apply console_only_ret|].
      apply console_only_bind; [apply console_only_output | intros; apply console_only_ret].
  - apply console_only_bind; [apply console_only_output | intros; apply console_only_ret].
Qed.

Lemma guess_round_console_only lo hi lim secret rng a :
  console_only (guess_round lo hi lim secret rng a).
Proof.
  unfold guess_round; apply console_only_bind;
    [apply get_valid_number_console_only | intros g].
  assert (L : forall x, console_only (limit_check lim secret rng x)).
  { intros x; unfold limit_check; destruct lim as [m|]; [destruct (x >=? m)|];
      try apply console_only_ret.
    apply console_only_bind; [apply console_only_output | intros; apply console_only_ret]. }
  destruct (g <? secret); [|destruct (g >? secret)];
    (apply console_only_bind; [apply console_only_output | intros]);
    try apply L; apply console_only_ret.
Qed.

(** A session given a generator touches nothing but the console. *)
Lemma play_game_supplied_console_only lo hi lim r :
  console_only (play_game lo hi lim (Some r)).
Proof.
  unfold play_game; apply console_only_bind; [apply console_only_ret | intros r0].
  apply console_only_bind.
  - unfold randint; destruct (lo <=? hi); [|apply console_only_raise].
    destruct (randbelow r0 (hi - lo + 1)); apply console_only_ret.
  - intros [secret r']; apply console_only_bind; [apply console_only_output | intros _].
    apply console_only_while; intros; apply guess_round_console_only.
Qed.

(** A session given a generator depends on the input only. *)
Lemma play_game_supplied_deterministic lo hi lim r w1 w2 :
  stdin w1 = stdin w2 ->
  fst (play_game lo hi lim (Some r) w1) = fst (play_game lo hi lim (Some r) w2).
Proof.
  intros E; destruct (Z_le_gt_dec lo hi) as [Hle|Hgt].
  - rewrite !play_game_start by assumption; unfold source_of, session, while_true.
    replace (List.length (stdin (started lo hi (Some r) w2)))
      with (List.length (stdin (started lo hi (Some r) w1)))
      by (simpl; rewrite E; reflexivity).
    set (wf := set_stdin (filter (kept lo hi) (stdin w1)) w1).
    rewrite (session_filter lo hi lim _ _ _ 0 (started lo hi (Some r) w1) wf)
      by reflexivity.
    rewrite (session_filter lo hi lim _ _ _ 0 (started lo hi (Some r) w2) wf);
      [reflexivity|].
    unfold same_guesses; simpl; rewrite E; reflexivity.
  - rewrite !play_game_empty_range by lia; reflexivity.
Qed.

(** ** The score store *)

Lemma safe_load_scores_total path w :
  exists d, safe_load_scores path w = (Ok d, w).
Proof.
  unfold safe_load_scores; destruct (load_scores (fs w path)) as [d|];
    eexists; reflexivity.
Qed.

Lemma safe_load_scores_fallback path w :
  load_scores (fs w path) = None -> safe_load_scores path w = (Ok [], w).
Proof. unfold safe_load_scores; intros ->; reflexivity. Qed.

Lemma int_items_fails items : forall acc,
  (exists k v, In (k, v) items /\ int_of_value v = None) ->
  int_items items acc = None.
Proof.
  induction items as [|[k0 v0] items IH]; intros acc (k & v & Hin & Hv);
    [destruct Hin|].
  simpl; destruct Hin as [Heq|Hin].
  - inversion Heq; subst; rewrite Hv; reflexivity.
  - destruct (int_of_value v0); [|reflexivity].
    apply IH; exists k, v; split; assumption.
Qed.

Lemma int_items_succeeds items : forall acc d,
  int_items items acc = Some d ->
  Forall (fun kv => int_of_value (snd kv) <> None) items.
Proof.
  induction items as [|[k0 v0] items IH]; intros acc d H; [constructor|].
  simpl in H; destruct (int_of_value v0) as [n|] eqn:E; [|discriminate].
  constructor; [simpl; congruence | eapply IH; exact H].
Qed.

Lemma get_set {V} k k0 (v : V) d :
  Dict.get k0 (Dict.set k v d) = if String.eqb k0 k then Some v else Dict.get k0 d.
Proof.
  destruct (String.eqb k0 k) eqn:E.
  - apply String.eqb_eq in E; subst; apply get_set_same.
  - apply String.eqb_neq in E; apply get_set_other; assumption.
Qed.

(** After the comprehension a key holds the integer of the last value
    the items give it, or what the dict held before. *)
Lemma int_items_get items : forall acc d k,
  int_items items acc = Some d ->
  NoDup (map fst items) ->
  Dict.get k d = match Dict.get k items with
                 | Some v => int_of_value v
                 | None => Dict.get k acc
                 end.
Proof.
  induction items as [|[k0 v0] items IH]; intros acc d k H ND; simpl in *.
  - inversion H; reflexivity.
  - destruct (int_of_value v0) as [n|] eqn:E; [|discriminate].
    inversion ND as [|? ? Hnotin ND']; subst.
    rewrite (IH _ _ k H ND'), get_set.
    destruct (String.eqb k k0) eqn:K; [|reflexivity].
    apply String.eqb_eq in K; subst k0.
    destruct (Dict.get k items) as [v|] eqn:G; [|congruence].
    exfalso; apply Hnotin; clear - G.
    induction items as [|[k1 v1] items IH]; [discriminate|]; simpl in *.
    destruct (String.eqb k k1) eqn:K.
    + apply String.eqb_eq in K; left; congruence.
    + right; apply IH; exact G.
Qed.

(** ** Keys of a parsed object *)

Lemma set_keys_in {V} k (v : V) d k' :
  In k' (map fst (Dict.set k v d)) <-> k' = k \/ In k' (map fst d).
Proof.
  induction d as [|[k0 v0] d IH]; simpl.
  - intuition congruence.
  - destruct (String.eqb k k0) eqn:E; simpl.
    + apply String.eqb_eq in E; subst; intuition congruence.
    + rewrite IH; intuition congruence.
Qed.

Lemma set_nodup {V} k (v : V) d :
  NoDup (map fst d) -> NoDup (map fst (Dict.set k v d)).
Proof.
  induction d as [|[k0 v0] d IH]; simpl; intros ND.
  - constructor; [intros [] | constructor].
  - inversion ND as [|? ? Hn ND']; subst.
    destruct (String.eqb k k0) eqn:E; simpl; constructor; auto.
    rewrite set_keys_in; intros [->|H]; [|contradiction].
    rewrite String.eqb_refl in E; discriminate.
Qed.

Lemma of_pairs_nodup {V} (pairs : list (string * V)) :
  NoDup (map fst (Dict.of_pairs pairs)).
Proof.
  unfold Dict.of_pairs.
  assert (G : forall d, NoDup (map fst d) ->
                NoDup (map fst (fold_left (fun d kv => Dict.set (fst kv) (snd kv) d) pairs d))).
  { induction pairs as [|kv pairs IH]; intros d ND; simpl; [assumption|].
    apply IH, set_nodup; assumption. }
  apply G; constructor.
Qed.

Lemma scan_number_kind l v rest :
  Json.scan_number l = Some (v, rest) ->
  (exists n, v = VInt n) \/ (exists f, v = VFloat f).
Proof.
  unfold Json.scan_number; intros H.
  scan_cases H; inversion H; subst; eauto.
Qed.

Lemma scan_value_dict fuel l items rest :
  Json.scan_value fuel l = Some (VDict items, rest) -> NoDup (map fst items).
Proof.
  destruct fuel as [|f]; [discriminate|]; simpl.
  destruct l as [|c r]; [discriminate|].
  intros H.
  destruct (Json.is_code 34 c).
  { destruct (Json.scan_string r) as [[? ?]|]; discriminate. }
  destruct (Json.is_code 123 c).
  { destruct (Json.skip_ws r) as [|c' r']; [discriminate|].
    destruct (Json.is_code 125 c'); [inversion H; constructor|].
    destruct (Json.scan_members f (c' :: r')) as [[pairs rest']|]; [|discriminate].
    inversion H; apply of_pairs_nodup. }
  destruct (Json.is_code 91 c).
  { destruct (Json.skip_ws r) as [|c' r']; [discriminate|].
    destruct (Json.is_code 93 c'); [discriminate|].
    destruct (Json.scan_elements f (c' :: r')) as [[? ?]|]; discriminate. }
  repeat (destruct (Json.literal _ (c :: r)); [discriminate|]).
  apply scan_number_kind in H; destruct H as [[n H]|[x H]]; discriminate.
Qed.

Lemma loads_dict_nodup text items :
  Json.loads text = Some (VDict items) -> NoDup (map fst items).
Proof.
  unfold Json.loads; intros H.
  destruct (Json.scan_value _ _) as [[v rest]|] eqn:E; [|discriminate].
  destruct (Json.skip_ws rest); [|discriminate].
  inversion H; subst; eapply scan_value_dict; exact E.
Qed.

(** ** Reading back what [json.dumps] writes *)

Lemma to_uint_head p l : Pos.to_uint p <> Decimal.D0 l.
Proof.
  intros E.
  assert (U : Decimal.unorm (Pos.to_uint p) = Pos.to_uint p).
  { rewrite <- DecimalPos.Unsigned.to_of, DecimalPos.Unsigned.of_to; reflexivity. }
  rewrite E in U; unfold Decimal.unorm in U; rewrite DecimalFacts.nzhead_D0 in U.
  destruct (Decimal.nzhead l) eqn:N; try discriminate U.
  - inversion U; subst l.
    exact (DecimalPos.Unsigned.to_uint_nonzero p E).
  - inversion U; subst; exact (DecimalFacts.nzhead_nonzero _ _ N).
Qed.

Lemma ends_number_no_digit c tail :
  ends_number (c :: tail) ->
  Py.digit_of c = None /\ Json.is_code 46 c = false
  /\ Json.is_code 101 c = false /\ Json.is_code 69 c = false.
Proof.
  unfold ends_number, Py.digit_of, Json.is_code; intros [H|H]; rewrite H;
    repeat split; reflexivity.
Qed.

(** The digits of a numeral, read after the value [acc]. *)
Lemma span_digits_step c d acc len l :
  Py.digit_of c = Some d ->
  Json.span_digits acc len (c :: l) = Json.span_digits (10 * acc + d) (len + 1) l.
Proof. intros H; simpl; rewrite H; reflexivity. Qed.

Lemma span_digits_uint l : forall acc len tail,
  ends_number tail ->
  exists len',
    Json.span_digits (Z.pos acc) len (Json.chars (NilEmpty.string_of_uint l) ++ tail)
    = (Z.pos (Pos.of_uint_acc l acc), len', tail).
Proof.
  induction l; intros acc len tail Ht;
    cbn [NilEmpty.string_of_uint Json.chars list_ascii_of_string app Pos.of_uint_acc].
  - destruct tail as [|c tail]; [destruct Ht|].
    destruct (ends_number_no_digit c tail Ht) as (D & _).
    exists len; simpl; rewrite D; reflexivity.
  - destruct (IHl (10 * acc)%positive (len + 1) tail Ht) as [len' E]; exists len'; exact E.
  - destruct (IHl (1 + 10 * acc)%positive (len + 1) tail Ht) as [len' E]; exists len'; exact E.
  - destruct (IHl (2 + 10 * acc)%positive (len + 1) tail Ht) as [len' E]; exists len'.
    rewrite (span_digits_step _ 2) by reflexivity.
    replace (10 * Z.pos acc + 2) with (Z.pos (2 + 10 * acc)) by lia; exact E.
  - destruct (IHl (3 + 10 * acc)%positive (len + 1) tail Ht) as [len' E]; exists len'.
    rewrite (span_digits_step _ 3) by reflexivity.
    replace (10 * Z.pos acc + 3) with (Z.pos (3 + 10 * acc)) by lia; exact E.
  - destruct (IHl (4 + 10 * acc)%positive (len + 1) tail Ht) as [len' E]; exists len'.
    rewrite (span_digits_step _ 4) by reflexivity.
    replace (10 * Z.pos acc + 4) with (Z.pos (4 + 10 * acc)) by lia; exact E.
  - destruct (IHl (5 + 10 * acc)%positive (len + 1) tail Ht) as [len' E]; exists len'.
    rewrite (span_digits_step _ 5) by reflexivity.
    replace (10 * Z.pos acc + 5) with (Z.pos (5 + 10 * acc)) by lia; exact E.
  - destruct (IHl (6 + 10 * acc)%positive (len + 1) tail Ht) as [len' E]; exists len'.
    rewrite (span_digits_step _ 6) by reflexivity.
    replace (10 * Z.pos acc + 6) with (Z.pos (6 + 10 * acc)) by lia; exact E.
  - destruct (IHl (7 + 10 * acc)%positive (len + 1) tail Ht) as [len' E]; exists len'.
    rewrite (span_digits_step _ 7) by reflexivity.
    replace (10 * Z.pos acc + 7) with (Z.pos (7 + 10 * acc)) by lia; exact E.
  - destruct (IHl (8 + 10 * acc)%positive (len + 1) tail Ht) as [len' E]; exists len'.
    rewrite (span_digits_step _ 8) by reflexivity.
    replace (10 * Z.pos acc + 8) with (Z.pos (8 + 10 * acc)) by lia; exact E.
  - destruct (IHl (9 + 10 * acc)%positive (len + 1) tail Ht) as [len' E]; exists len'.
    rewrite (span_digits_step _ 9) by reflexivity.
    replace (10 * Z.pos acc + 9) with (Z.pos (9 + 10 * acc)) by lia; exact E.
Qed.

(** An integer without sign that starts with a non-zero digit. *)
Lemma scan_number_digits c k rest n len tail :
  Py.digit_of c = Some k ->
  Json.is_code 45 c = false -> Json.is_code 48 c = false ->
  Json.span_digits k 1 rest = (n, len, tail) ->
  ends_number tail ->
  Json.scan_number (c :: rest) = Some (VInt n, tail).
Proof.
  intros D M Z0 E Ht; unfold Json.scan_number.
  rewrite M, Z0, D, (span_digits_step c k 0 0 rest D).
  change (10 * 0 + k) with k; change (0 + 1) with 1; rewrite E.
  destruct tail as [|c' tail]; [destruct Ht|].
  destruct (ends_number_no_digit c' tail Ht) as (_ & F1 & F2 & F3).
  rewrite F1, F2, F3; reflexivity.
Qed.

(** A positive numeral in front of a comma or a line feed. *)
Lemma scan_number_pos p tail :
  ends_number tail ->
  Json.scan_number (Json.chars (NilEmpty.string_of_uint (Pos.to_uint p)) ++ tail)
  = Some (VInt (Z.pos p), tail).
Proof.
  intros Ht.
  pose proof (DecimalPos.Unsigned.of_to p) as V.
  pose proof (to_uint_head p) as H0.
  destruct (Pos.to_uint p) as [|l|l|l|l|l|l|l|l|l|l] eqn:D;
    [exfalso; exact (DecimalPos.Unsigned.to_uint_nonnil p D)
    | exfalso; exact (H0 l eq_refl) | ..];
    cbn [Pos.of_uint] in V; inversion V as [V']; clear V;
    cbn [NilEmpty.string_of_uint Json.chars list_ascii_of_string app];
    match type of V' with
    | Pos.of_uint_acc l ?k = p =>
        destruct (span_digits_uint l k 1 tail Ht) as [len' E];
        apply (scan_number_digits _ (Z.pos k) _ _ len' _);
          [reflexivity | reflexivity | reflexivity | exact E | exact Ht]
    end.
Qed.

Lemma scan_number_neg_digits c k rest n len tail :
  Py.digit_of c = Some k ->
  Json.is_code 45 c = false -> Json.is_code 48 c = false ->
  Json.span_digits k 1 rest = (n, len, tail) ->
  ends_number tail ->
  Json.scan_number (Json.chr 45 :: c :: rest) = Some (VInt (- n), tail).
Proof.
  intros D M Z0 E Ht; unfold Json.scan_number.
  change (Json.is_code 45 (Json.chr 45)) with true; cbv iota.
  rewrite Z0, D, (span_digits_step c k 0 0 rest D).
  change (10 * 0 + k) with k; change (0 + 1) with 1; rewrite E.
  destruct tail as [|c' tail]; [destruct Ht|].
  destruct (ends_number_no_digit c' tail Ht) as (_ & F1 & F2 & F3).
  rewrite F1, F2, F3; reflexivity.
Qed.

Lemma scan_number_neg p tail :
  ends_number tail ->
  Json.scan_number
    (Json.chr 45 :: Json.chars (NilEmpty.string_of_uint (Pos.to_uint p)) ++ tail)
  = Some (VInt (Z.neg p), tail).
Proof.
  intros Ht.
  pose proof (DecimalPos.Unsigned.of_to p) as V.
  pose proof (to_uint_head p) as H0.
  destruct (Pos.to_uint p) as [|l|l|l|l|l|l|l|l|l|l] eqn:D;
    [exfalso; exact (DecimalPos.Unsigned.to_uint_nonnil p D)
    | exfalso; exact (H0 l eq_refl) | ..];
    cbn [Pos.of_uint] in V; inversion V as [V']; clear V;
    cbn [NilEmpty.string_of_uint Json.chars list_ascii_of_string app];
    match type of V' with
    | Pos.of_uint_acc l ?k = p =>
        destruct (span_digits_uint l k 1 tail Ht) as [len' E];
        change (Z.neg (Pos.of_uint_acc l k)) with (- Z.pos (Pos.of_uint_acc l k));
        apply (scan_number_neg_digits _ (Z.pos k) _ _ len' _);
          [reflexivity | reflexivity | reflexivity | exact E | exact Ht]
    end.
Qed.

(** A value that starts with a digit, or with a minus sign and a
    digit, is read as a number. *)
Lemma scan_value_digit f c rest :
  Py.digit_of c <> None ->
  Json.scan_value (S f) (c :: rest) = Json.scan_number (c :: rest).
Proof.
  intros H; destruct c as [[] [] [] [] [] [] [] []];
    try (exfalso; apply H; reflexivity); reflexivity.
Qed.

Lemma scan_value_minus f c rest :
  Py.digit_of c <> None ->
  Json.scan_value (S f) (Json.chr 45 :: c :: rest)
  = Json.scan_number (Json.chr 45 :: c :: rest).
Proof.
  intros H; destruct c as [[] [] [] [] [] [] [] []];
    try (exfalso; apply H; reflexivity); reflexivity.
Qed.

Lemma numeral_head p :
  exists c rest, Json.chars (NilEmpty.string_of_uint (Pos.to_uint p)) = c :: rest
                 /\ Py.digit_of c <> None.
Proof.
  destruct (Pos.to_uint p) eqn:D;
    [exfalso; exact (DecimalPos.Unsigned.to_uint_nonnil p D) | ..];
    eexists; eexists; (split; [reflexivity | discriminate]).
Qed.

Lemma dump_int_pos p :
  Json.dump_int (Z.pos p) = Json.chars (NilEmpty.string_of_uint (Pos.to_uint p)).
Proof.
  unfold Json.dump_int, Py.str_of_int; simpl.
  destruct (Pos.to_uint p) eqn:D;
    [exfalso; exact (DecimalPos.Unsigned.to_uint_nonnil p D) | ..]; reflexivity.
Qed.

Lemma dump_int_neg p :
  Json.dump_int (Z.neg p)
  = Json.chr 45 :: Json.chars (NilEmpty.string_of_uint (Pos.to_uint p)).
Proof.
  unfold Json.dump_int, Py.str_of_int; simpl.
  destruct (Pos.to_uint p) eqn:D;
    [exfalso; exact (DecimalPos.Unsigned.to_uint_nonnil p D) | ..]; reflexivity.
Qed.

(** An integer written by [json.dumps] is read back. *)
Lemma scan_value_int f n tail :
  ends_number tail ->
  Json.scan_value (S f) (Json.dump_int n ++ tail) = Some (VInt n, tail).
Proof.
  intros Ht; destruct n as [|p|p].
  - change (Json.dump_int 0 ++ tail) with (Json.chr 48 :: tail).
    rewrite scan_value_digit by discriminate.
    unfold Json.scan_number.
    change (Json.is_code 45 (Json.chr 48)) with false; cbv beta iota zeta.
    change (Json.is_code 48 (Json.chr 48)) with true; cbv beta iota zeta.
    destruct tail as [|c' tail]; [destruct Ht|].
    destruct (ends_number_no_digit c' tail Ht) as (_ & F1 & F2 & F3).
    rewrite F1; cbv beta iota zeta; rewrite F2, F3; reflexivity.
  - rewrite dump_int_pos, <- (scan_number_pos p tail Ht).
    destruct (numeral_head p) as (c & rest & E & D); rewrite E.
    apply scan_value_digit; exact D.
  - rewrite dump_int_neg, <- (scan_number_neg p tail Ht).
    destruct (numeral_head p) as (c & rest & E & D); rewrite E.
    apply (scan_value_minus f c (rest ++ tail)); exact D.
Qed.

(** One escaped character is read back as that character. *)
Lemma scan_string_escape c tail :
  Json.scan_string (Json.escape c ++ tail)
  = match Json.scan_string tail with
    | Some (s, r) => Some (String c s, r)
    | None => None
    end.
Proof. destruct c as [[] [] [] [] [] [] [] []]; reflexivity. Qed.

(** A string literal written by [json.dumps] is read back. *)
Lemma scan_string_dump k tail :
  Json.scan_string (flat_map Json.escape (Json.chars k) ++ Json.chr 34 :: tail)
  = Some (k, tail).
Proof.
  induction k as [|c k IH]; [reflexivity|].
  cbn [Json.chars list_ascii_of_string flat_map].
  change (list_ascii_of_string k) with (Json.chars k).
  rewrite <- List.app_assoc, scan_string_escape, IH; reflexivity.
Qed.

Lemma skip_ws_dump_int n tail :
  Json.skip_ws (Json.chr 32 :: Json.dump_int n ++ tail) = Json.dump_int n ++ tail.
Proof.
  destruct n as [|p|p]; [reflexivity | |].
  - rewrite dump_int_pos; destruct (numeral_head p) as (c & rest & E & D); rewrite E.
    destruct c as [[] [] [] [] [] [] [] []];
      try (exfalso; apply D; reflexivity); reflexivity.
  - rewrite dump_int_neg; reflexivity.
Qed.

(** The equation of [scan_members] at a key. *)
Lemma scan_members_key f r :
  Json.scan_members (S f) (Json.chr 34 :: r)
  = match Json.scan_string r with
    | Some (k, l1) =>
        match Json.skip_ws l1 with
        | c1 :: l2 =>
            if Json.is_code 58 c1 then
              match Json.scan_value f (Json.skip_ws l2) with
              | Some (v, l3) =>
                  match Json.skip_ws l3 with
                  | c3 :: l4 =>
                      if Json.is_code 125 c3 then Some ([(k, v)], l4)
                      else if Json.is_code 44 c3 then
                        match Json.scan_members f (Json.skip_ws l4) with
                        | Some (pairs, rest) => Some ((k, v) :: pairs, rest)
                        | None => None
                        end
                      else None
                  | [] => None
                  end
              | None => None
              end
            else None
        | [] => None
        end
    | None => None
    end.
Proof. reflexivity. Qed.

(** What [json.dumps] writes for one item, after the indentation. *)
Lemma dump_item_shape kv tail :
  Json.skip_ws (Json.dump_item kv ++ tail)
  = Json.chr 34
    :: flat_map Json.escape (Json.chars (fst kv))
    ++ Json.chr 34 :: Json.chr 58 :: Json.chr 32 :: Json.dump_int (snd kv) ++ tail.
Proof.
  unfold Json.dump_item, Json.dump_string.
  cbn [app]; list_norm; reflexivity.
Qed.

(** The items written by [json.dumps] are read back, in order. *)
Lemma scan_members_dump d : forall f,
  d <> [] -> (List.length d < f)%nat ->
  Json.scan_members f (Json.skip_ws (Json.dump_items d ++ [Json.chr 10; Json.chr 125]))
  = Some (as_items d, []).
Proof.
  induction d as [|kv d IH]; intros f Hne Hf; [congruence|].
  destruct f as [|f]; [lia|].
  destruct f as [|f]; [simpl in Hf; lia|].
  destruct d as [|kv' d'].
  - cbn [Json.dump_items].
    rewrite dump_item_shape, scan_members_key, scan_string_dump.
    change (Json.skip_ws (Json.chr 58 :: ?l)) with (Json.chr 58 :: l).
    cbv beta iota.
    change (Json.is_code 58 (Json.chr 58)) with true; cbv beta iota.
    rewrite skip_ws_dump_int, scan_value_int by (right; reflexivity).
    reflexivity.
  - cbn [Json.dump_items]; rewrite <- List.app_assoc, <- List.app_comm_cons.
    rewrite dump_item_shape, scan_members_key, scan_string_dump.
    change (Json.skip_ws (Json.chr 58 :: ?l)) with (Json.chr 58 :: l).
    cbv beta iota.
    change (Json.is_code 58 (Json.chr 58)) with true; cbv beta iota.
    rewrite skip_ws_dump_int, scan_value_int by (left; reflexivity).
    change (Json.skip_ws (Json.chr 44 :: ?l)) with (Json.chr 44 :: l).
    cbv beta iota.
    change (Json.is_code 125 (Json.chr 44)) with false;
      change (Json.is_code 44 (Json.chr 44)) with true; cbv beta iota.
    rewrite IH; [reflexivity | discriminate | simpl in *; lia].
Qed.

Lemma set_fresh {V} k (v : V) d :
  ~ In k (map fst d) -> Dict.set k v d = d ++ [(k, v)].
Proof.
  induction d as [|[k0 v0] d IH]; simpl; intros H; [reflexivity|].
  destruct (String.eqb k k0) eqn:E.
  - apply String.eqb_eq in E; subst; exfalso; apply H; left; reflexivity.
  - rewrite IH; [reflexivity | intros X; apply H; right; exact X].
Qed.

Lemma nodup_app_cons {A} (l1 l2 : list A) x :
  NoDup (l1 ++ x :: l2) -> ~ In x l1 /\ NoDup ((l1 ++ [x]) ++ l2).
Proof.
  intros H; split.
  - apply NoDup_remove_2 in H; intros X; apply H, in_or_app; left; exact X.
  - rewrite <- List.app_assoc; exact H.
Qed.

Lemma of_pairs_fresh {V} (pairs : list (string * V)) :
  NoDup (map fst pairs) -> Dict.of_pairs pairs = pairs.
Proof.
  unfold Dict.of_pairs.
  assert (G : forall acc, NoDup (map fst (acc ++ pairs)) ->
                fold_left (fun d kv => Dict.set (fst kv) (snd kv) d) pairs acc
                = acc ++ pairs).
  { induction pairs as [|[k v] pairs IH]; intros acc ND; simpl.
    - rewrite List.app_nil_r; reflexivity.
    - rewrite map_app in ND; simpl in ND.
      destruct (nodup_app_cons _ _ _ ND) as [Hk ND'].
      rewrite set_fresh by exact Hk.
      rewrite IH; [rewrite <- List.app_assoc; reflexivity|].
      rewrite !map_app; simpl; exact ND'. }
  intros ND; apply (G []); exact ND.
Qed.

Lemma int_items_as_items d : forall acc,
  NoDup (map fst (acc ++ d)) -> int_items (as_items d) acc = Some (acc ++ d).
Proof.
  induction d as [|[k v] d IH]; intros acc ND; simpl.
  - rewrite List.app_nil_r; reflexivity.
  - rewrite map_app in ND; simpl in ND.
    destruct (nodup_app_cons _ _ _ ND) as [Hk ND'].
    rewrite set_fresh by exact Hk.
    rewrite IH; [rewrite <- List.app_assoc; reflexivity|].
    rewrite !map_app; simpl; exact ND'.
Qed.

Lemma dump_items_length d :
  (List.length d <= List.length (Json.dump_items d))%nat.
Proof.
  induction d as [|kv d IH]; [simpl; lia|].
  destruct d as [|kv' d'].
  - unfold Json.dump_items, Json.dump_item; simpl; lia.
  - cbn [Json.dump_items]; rewrite length_app; unfold Json.dump_item at 1.
    simpl List.length in *; lia.
Qed.

(** The text [json.dumps] writes for a record is read back as the
    object with the same keys and values, in the same order. *)
Lemma loads_dumps d :
  NoDup (map fst d) -> Json.loads (Json.dumps d) = Some (VDict (as_items d)).
Proof.
  intros ND; unfold Json.loads, Json.dumps, Json.chars.
  rewrite list_ascii_of_string_of_list_ascii.
  destruct d as [|kv d]; [reflexivity|].
  set (items := kv :: d) in *.
  change (Json.skip_ws (Json.chr 123 :: ?l)) with (Json.chr 123 :: l).
  assert (M : Json.scan_members
                (List.length (Json.chr 123 :: Json.dump_items items
                              ++ [Json.chr 10; Json.chr 125]))
                (Json.skip_ws (Json.dump_items items ++ [Json.chr 10; Json.chr 125]))
              = Some (as_items items, [])).
  { apply scan_members_dump; [discriminate|].
    pose proof (dump_items_length items) as L.
    change (List.length (Json.chr 123 :: ?l)) with (S (List.length l)).
    rewrite length_app; lia. }
  cbn [Json.scan_value].
  change (Json.is_code 34 (Json.chr 123)) with false;
    change (Json.is_code 123 (Json.chr 123)) with true; cbv beta iota.
  rewrite M.
  assert (Q : exists r, Json.skip_ws (Json.dump_items items ++ [Json.chr 10; Json.chr 125])
                        = Json.chr 34 :: r).
  { unfold items; destruct d as [|kv' d'].
    - cbn [Json.dump_items]; rewrite dump_item_shape; eexists; reflexivity.
    - cbn [Json.dump_items]; rewrite <- List.app_assoc, dump_item_shape.
      eexists; reflexivity. }
  destruct Q as [r Q]; rewrite Q.
  change (Json.is_code 125 (Json.chr 34)) with false; cbv beta iota.
  rewrite of_pairs_fresh; [reflexivity|].
  unfold as_items; rewrite map_map; simpl; exact ND.
Qed.

(** ** Records across a round *)

(** What [update_best] returns: the record as it was, or the record
    with the winning attempt count under the key, which then beats what
    was there. *)
Lemma update_best_record score_file lv key a won best w best' w' :
  update_best score_file lv key a won best w = (Ok best', w') ->
  (best' = best /\ fs w' = fs w)
  \/ (improves key a won best = true /\ best' = Dict.set key a best).
Proof.
  intros H; destruct (improves key a won best) eqn:I.
  - right; rewrite (update_best_improving _ _ _ _ _ _ _ I) in H.
    inversion H; split; reflexivity.
  - left; destruct (update_best_otherwise score_file lv key a won best w I) as [R F].
    rewrite H in R, F; simpl in R, F; inversion R; split; [reflexivity | exact F].
Qed.

(** Over a round of the interactive loop an entry of the record stays,
    appears, or gets strictly smaller. *)
Lemma round_record score_file rng best w rng' best' w' :
  round score_file (rng, best) w = (Ok (inl (rng', best')), w') ->
  forall k,
    Dict.get k best' = Dict.get k best
    \/ exists a, Dict.get k best' = Some a
                 /\ (Dict.get k best = None
                     \/ exists prev, Dict.get k best = Some prev /\ a < prev).
Proof.
  unfold round; intros H k.
  apply bind_inv in H; destruct H as (u & w1 & _ & H).
  apply bind_inv in H; destruct H as (sel & w2 & _ & H).
  destruct sel as [lv key|]; [|inversion H; left; reflexivity].
  apply bind_inv in H; destruct H as (p & w3 & _ & H).
  apply bind_inv in H; destruct H as (best2 & w4 & U & H).
  apply bind_inv in H; destruct H as (again & w5 & _ & H).
  destruct again.
  - inversion H; subst; clear H.
    destruct (update_best_record _ _ _ _ _ _ _ _ _ U) as [[-> _]|[I ->]];
      [left; reflexivity|].
    rewrite get_set; destruct (String.eqb k key) eqn:K; [|left; reflexivity].
    apply String.eqb_eq in K; subst k; right; exists (attempts_used p).
    split; [reflexivity|].
    unfold improves in I; apply andb_true_iff in I; destruct I as [_ I].
    destruct (Dict.get key best) as [prev|]; [right | left; reflexivity].
    exists prev; split; [reflexivity | apply Z.ltb_lt; exact I].
  - apply bind_inv in H; destruct H as (u' & w6 & _ & H); inversion H.
Qed.

(** [run_interactive] always comes back: with [None], or with an
    exception. *)
Lemma run_interactive_quiet seed score_file : quiet (run_interactive seed score_file).
Proof.
  unfold run_interactive; apply quiet_bind.
  - destruct seed; apply silent_quiet; intros w; split; try reflexivity; eexists; reflexivity.
  - intros rng; apply quiet_bind.
    + apply silent_quiet; intros w; split;
        [destruct (safe_load_scores_total score_file w) as [d E]; exists d; rewrite E; reflexivity|].
      destruct (safe_load_scores_total score_file w) as [d E]; rewrite E; reflexivity.
    + intros best; apply quiet_bind; [apply silent_quiet, silent_output | intros _].
      apply quiet_try_except; [|apply silent_quiet, silent_output].
      apply strict_quiet, strict_while_true; intros; apply round_strict.
Qed.

(* ================================================================== *)
(** * The claims *)
(* ================================================================== *)

(** C1.  In a session over a range with [lo <= hi], when the first line
    the reader accepts is the guess [g] and the secret drawn is [g], with
    [lo <= g <= hi], [play_game] returns one attempt and a win; when
    [lo = hi] the first accepted guess wins whatever it is.  Lines the
    reader rejects before that guess change nothing. *)
Theorem first_guess_wins (lo hi : Z) (lim : option Z) (rng : option Random)
    (w : world) (t : turn) (rest : list input_event) :
  lo <= hi ->
  valid_turn lo hi t = true ->
  stdin w = turn_input t ++ rest ->
  (forall g, lo <= g <= hi ->
     secret_of (source_of rng w) lo hi = g ->
     guess_of lo hi t = g ->
     exists w', play_game lo hi lim rng w
                = (Ok (mkPlayed 1 true (drawn_from (source_of rng w) lo hi)), w'))
  /\ (lo = hi ->
      exists w', play_game lo hi lim rng w
                 = (Ok (mkPlayed 1 true (drawn_from (source_of rng w) lo hi)), w')).
Proof.
  intros Hr Hv E.
  assert (W : guess_of lo hi t = secret_of (source_of rng w) lo hi ->
              exists w', play_game lo hi lim rng w
                = (Ok (mkPlayed 1 true (drawn_from (source_of rng w) lo hi)), w')).
  { intros Hg; rewrite play_game_start by assumption.
    eexists; apply (session_win lo hi lim _ _ 0 t _ rest Hv Hg).
    destruct rng; exact E. }
  split.
  - intros g _ Hs Hg; apply W; congruence.
  - intros Heq; apply W.
    pose proof (secret_in_range (source_of rng w) lo hi Hr).
    pose proof (valid_guess_in_range lo hi t Hv).
    lia.
Qed.

Lemma first_guess_wins_witness :
  (exists w', play_game 1 10 None None
                (sample_world 2 [Line "x"; Line "77"; Line " 3"; Line "9"])
              = (Ok (mkPlayed 1 true (mkRandom (fun _ _ => 2) [10])), w'))
  /\ (exists w', play_game 7 7 (Some 4) (Some (mkRandom (fun _ _ => 5) []))
                   (sample_world 2 [Line "0_7"])
                 = (Ok (mkPlayed 1 true (mkRandom (fun _ _ => 5) [1])), w')).
Proof.
  split.
  - apply (proj1 (first_guess_wins 1 10 None None
                    (sample_world 2 [Line "x"; Line "77"; Line " 3"; Line "9"])
                    (["x"; "77"], " 3") [Line "9"]
                    ltac:(lia) eq_refl eq_refl) 3);
      [lia | reflexivity | reflexivity].
  - apply (proj2 (first_guess_wins 7 7 (Some 4) (Some (mkRandom (fun _ _ => 5) []))
                    (sample_world 2 [Line "0_7"]) ([], "0_7") []
                    ltac:(lia) eq_refl eq_refl) eq_refl).
Defined.

(** C2.  With [attempt_limit = N > 0] and [N] turns whose accepted
    guesses all differ from the secret, [play_game] returns [N] attempts
    and a loss, leaves the input after those turns untouched, asks for
    guesses under the attempt numbers 1..N only (one prompt per line
    typed, so exactly [N] prompts when no line is rejected), and ends
    with the game-over message, which spells out the secret.  Without a
    limit a session returns only by a win: wrong guesses alone, however
    many, never end it. *)
Theorem limit_reached_or_unbounded (lo hi : Z) (rng : option Random) (w : world)
    (ts : list turn) :
  let secret := secret_of (source_of rng w) lo hi in
  let rng' := drawn_from (source_of rng w) lo hi in
  lo <= hi ->
  forallb (wrong_turn lo hi secret) ts = true ->
  (forall N rest,
     0 < N -> Z.of_nat (List.length ts) = N ->
     stdin w = flat_map turn_input ts ++ rest ->
     let r := play_game lo hi (Some N) rng w in
     fst r = Ok (mkPlayed N false rng')
     /\ stdin (snd r) = rest
     /\ stdout (snd r)
        = stdout w ++ Said (msg_guess_between lo hi)
            :: wrong_log lo hi secret 0 ts ++ [Said (msg_game_over N secret)]
     /\ List.length (filter is_asked (wrong_log lo hi secret 0 ts))
        = (Z.to_nat N + rejections ts)%nat
     /\ (forall p, In (Asked p) (wrong_log lo hi secret 0 ts) ->
                   exists k, 1 <= k <= N /\ p = prompt_attempt k)
     /\ msg_game_over N secret
        = nl +++ "💀 Game Over! You've used all " +++ str N +++ " attempts."
             +++ nl +++ "The correct number was " +++ str secret +++ "." +++ nl)
  /\ (stdin w = flat_map turn_input ts ->
      fst (play_game lo hi None rng w) = Raise EOFError)
  /\ (forall w0 p w', play_game lo hi None rng w0 = (Ok p, w') -> won p = true).
Proof.
  intros secret rng' Hr Hw; split; [|split].
  - intros N rest HN Hlen E r; subst r.
    rewrite play_game_start by assumption.
    assert (Hne : ts <> []) by (destruct ts; [simpl in Hlen; lia | discriminate]).
    assert (E' : stdin (started lo hi rng w) = flat_map turn_input ts ++ rest)
      by (destruct rng; exact E).
    fold secret rng'.
    rewrite (session_limit lo hi (Some N) secret rng' ts 0 _ rest N Hne Hw eq_refl
               ltac:(lia) E').
    split; [reflexivity|]; split; [reflexivity|]; split; [|split; [|split]].
    + destruct rng; destruct w; unfold logged, started, set_stdin, set_stdout; simpl;
        list_norm; reflexivity.
    + rewrite wrong_log_asked; lia.
    + intros p Hp; destruct (wrong_log_prompts _ _ _ _ _ _ Hp) as (k & Hk & ->).
      exists k; split; [lia | reflexivity].
    + reflexivity.
  - intros E; rewrite play_game_start by assumption.
    apply (session_unbounded lo hi None secret rng' ts 0 _ eq_refl Hw).
    destruct rng; exact E.
  - intros w0 p w' H.
    destruct (Z_le_gt_dec lo hi) as [Hle|Hgt].
    + rewrite play_game_start in H by assumption.
      unfold session, while_true in H.
      eapply session_unbounded_won; [reflexivity | exact H].
    + pose proof (play_game_empty_range lo hi None rng w0 ltac:(lia)) as X.
      rewrite H in X; discriminate.
Qed.

Lemma limit_reached_or_unbounded_witness :
  fst (play_game 1 20 (Some 2) None
         (sample_world 2 [Line "x"; Line "5"; Line "7"; Line "3"]))
  = Ok (mkPlayed 2 false (mkRandom (fun _ _ => 2) [20]))
  /\ fst (play_game 1 20 None None (sample_world 2 [Line "x"; Line "5"; Line "7"]))
     = Raise EOFError.
Proof.
  split.
  - exact (proj1 (proj1 (limit_reached_or_unbounded 1 20 None
              (sample_world 2 [Line "x"; Line "5"; Line "7"; Line "3"])
              [(["x"], "5"); ([], "7")] ltac:(lia) eq_refl)
            2 [Line "3"] ltac:(lia) eq_refl eq_refl)).
  - exact (proj1 (proj2 (limit_reached_or_unbounded 1 20 None
              (sample_world 2 [Line "x"; Line "5"; Line "7"])
              [(["x"], "5"); ([], "7")] ltac:(lia) eq_refl)) eq_refl).
Defined.

(** C3.  [get_valid_number] always comes back (with a value or an
    exception of [input_fn]); a value it returns lies in
    [[lo, hi]]; it is the first line that parses as an integer of that
    range, returned as soon as it is read; every line before it, not a
    numeral or out of range, is answered by the matching message and
    another prompt; and such lines are no game attempts: a session
    counts and decides the same with or without them. *)
Theorem validated_reader_contract (prompt : string) (lo hi : Z) (w : world) :
  fst (get_valid_number prompt lo hi w) <> Fuel
  /\ (forall v w', get_valid_number prompt lo hi w = (Ok v, w') -> lo <= v <= hi)
  /\ (forall s v, accepts lo hi s = Some v <-> Py.int_of_str s = Some v /\ lo <= v <= hi)
  /\ (forall bad s rest v,
        stdin w = map Line bad ++ Line s :: rest ->
        Forall (fun b => accepts lo hi b = None) bad ->
        accepts lo hi s = Some v ->
        get_valid_number prompt lo hi w
        = (Ok v, set_stdin rest
                   (logged (flat_map (fun b => [Asked prompt; Said (complaint lo hi b)]) bad
                            ++ [Asked prompt]) w)))
  /\ (forall b, accepts lo hi b = None ->
        (Py.int_of_str b = None /\ complaint lo hi b = msg_invalid)
        \/ (exists x, Py.int_of_str b = Some x /\ ~ (lo <= x <= hi)
                      /\ complaint lo hi b = msg_range lo hi))
  /\ (forall lim rng,
        fst (play_game lo hi lim rng w)
        = fst (play_game lo hi lim rng (set_stdin (filter (kept lo hi) (stdin w)) w))).
Proof.
  split; [apply get_valid_number_strict|].
  split; [apply get_valid_number_in_range|].
  split; [intros; apply accepts_spec|].
  split; [intros bad s rest v E Hb Hs;
          exact (get_valid_number_skips prompt lo hi bad w s rest v E Hb Hs)|].
  split; [intros; apply complaint_spec; assumption|].
  intros; apply play_game_filter.
Qed.

Lemma validated_reader_contract_witness :
  1 <= 7 <= 10
  /\ fst (get_valid_number "prompt" 1 10 (sample_world 2 [Line "x"; Line "12"; Line "7"]))
     = Ok 7.
Proof.
  split.
  - exact (proj1 (proj2 (validated_reader_contract "prompt" 1 10
                           (sample_world 2 [Line "x"; Line "12"; Line "7"])))
                 7 _ eq_refl).
  - exact (f_equal fst
             (proj1 (proj2 (proj2 (proj2 (validated_reader_contract "prompt" 1 10
                           (sample_world 2 [Line "x"; Line "12"; Line "7"])))))
                ["x"; "12"] "7" [] 7 eq_refl
                (Forall_cons "x" (eq_refl : accepts 1 10 "x" = None)
                   (Forall_cons "12" (eq_refl : accepts 1 10 "12" = None)
                      (Forall_nil _)))
                eq_refl)).
Defined.

(** C4.  After a session the orchestrator changes the score record and
    writes the score file exactly when the session was won and its
    attempt count is strictly below the entry stored under the
    difficulty key, or no entry is stored there: the entry of that key
    becomes the attempt count, every other entry stays, and the record
    is saved at once.  After a lost session, and after a won one that
    does not strictly improve, record and file system are as before.
    Over a whole round of the interactive loop an entry of the record
    stays, appears, or gets strictly smaller. *)
Theorem best_score_update (score_file : string) (lv : level) (key : string)
    (a : Z) (won : bool) (best : scores) (w : world) :
  let r := update_best score_file lv key a won best w in
  (improves key a won best = true <->
     won = true /\ (Dict.get key best = None
                    \/ exists prev, Dict.get key best = Some prev /\ a < prev))
  /\ (improves key a won best = true ->
        fst r = Ok (Dict.set key a best)
        /\ fs (snd r) = fs (snd (safe_save_scores (Dict.set key a best) score_file w))
        /\ Dict.get key (Dict.set key a best) = Some a
        /\ forall k, k <> key -> Dict.get k (Dict.set key a best) = Dict.get k best)
  /\ (improves key a won best = false -> fst r = Ok best /\ fs (snd r) = fs w)
  /\ (won = false -> fst r = Ok best /\ fs (snd r) = fs w)
  /\ (forall rng rng' best' w',
        round score_file (rng, best) w = (Ok (inl (rng', best')), w') ->
        forall k,
          Dict.get k best' = Dict.get k best
          \/ exists n, Dict.get k best' = Some n
                       /\ (Dict.get k best = None
                           \/ exists prev, Dict.get k best = Some prev /\ n < prev)).
Proof.
  intros r; subst r; split; [|split; [|split; [|split]]];
    [| | | | intros rng rng' best' w' H; exact (round_record _ _ _ _ _ _ _ H)].
  - unfold improves; split.
    + intros H; apply andb_true_iff in H; destruct H as [-> H]; split; [reflexivity|].
      destruct (Dict.get key best) as [prev|]; [right | left; reflexivity].
      exists prev; split; [reflexivity | apply Z.ltb_lt; exact H].
    + intros [-> [H|(prev & H & L)]]; rewrite H; [reflexivity|].
      apply Z.ltb_lt in L; rewrite L; reflexivity.
  - intros H; rewrite (update_best_improving _ _ _ _ _ _ _ H).
    split; [reflexivity|]; split; [reflexivity|]; split;
      [apply get_set_same | intros; apply get_set_other; assumption].
  - apply update_best_otherwise.
  - intros ->; apply update_best_otherwise; reflexivity.
Qed.

Lemma best_score_update_witness :
  (fst (update_best "s.json" (mkLevel "Hard" 1 50 (Some 5)) "3" 2 true [("3", 4)]
          (sample_world 0 []))
   = Ok [("3", 2)]
   /\ fs (snd (update_best "s.json" (mkLevel "Hard" 1 50 (Some 5)) "3" 2 true [("3", 4)]
                 (sample_world 0 [])))
      = fs (snd (safe_save_scores [("3", 2)] "s.json" (sample_world 0 []))))
  /\ (fst (update_best "s.json" (mkLevel "Hard" 1 50 (Some 5)) "3" 4 true [("3", 4)]
             (sample_world 0 []))
      = Ok [("3", 4)]
      /\ fs (snd (update_best "s.json" (mkLevel "Hard" 1 50 (Some 5)) "3" 4 true
                    [("3", 4)] (sample_world 0 [])))
         = fs (sample_world 0 [])).
Proof.
  split.
  - pose proof (proj1 (proj2 (best_score_update "s.json" (mkLevel "Hard" 1 50 (Some 5))
                                "3" 2 true [("3", 4)] (sample_world 0 []))) eq_refl)
      as (A & B & _).
    split; [exact A | exact B].
  - exact (proj1 (proj2 (proj2 (best_score_update "s.json" (mkLevel "Hard" 1 50 (Some 5))
                                  "3" 4 true [("3", 4)] (sample_world 0 [])))) eq_refl).
Defined.

(** C9.  When the player picks the custom range and types integers
    with minimum > maximum, the round shows the menu, asks the three
    questions, says the warning and goes back to the menu: the loop
    continues with the same generator and the same score record, no
    session text appears on the console, and file system and generator
    supply are untouched. *)
Theorem custom_range_rejected (score_file : string) (rng : Random) (best : scores)
    (w : world) (c smin smax : string) (rest : list input_event) (lo hi : Z) :
  stdin w = Line c :: Line smin :: Line smax :: rest ->
  Py.strip c = "4" ->
  Py.int_of_str (Py.strip smin) = Some lo ->
  Py.int_of_str (Py.strip smax) = Some hi ->
  lo > hi ->
  let w' := set_stdin rest
              (logged (menu_log ++ [Asked prompt_choice; Asked prompt_minimum;
                                    Asked prompt_maximum; Said msg_min_max]) w) in
  round score_file (rng, best) w = (Ok (inl (rng, best)), w')
  /\ fs w' = fs w /\ spawned w' = spawned w
  /\ while_true (round score_file) (rng, best) w
     = while_true (round score_file) (rng, best) w'.
Proof.
  intros E Hc Hlo Hhi Hgt w'.
  assert (R : round score_file (rng, best) w = (Ok (inl (rng, best)), w')).
  { unfold round; rewrite (bind_ok _ _ _ _ _ (show_menu_log w)).
    assert (G : (lo >? hi) = true) by (apply Z.gtb_lt; lia).
    destruct w as [inp out files en sp sd]; simpl in E; subst inp.
    unfold select_level, bind, input_fn, int_; simpl.
    rewrite Hc; simpl; rewrite Hlo; simpl; rewrite Hhi; simpl; rewrite G; simpl.
    unfold w', logged, set_stdin, set_stdout; simpl.
    list_norm; reflexivity. }
  split; [exact R|]; split; [reflexivity|]; split; [reflexivity|].
  rewrite while_true_step by (intros; apply round_strict).
  rewrite R; reflexivity.
Qed.

Lemma custom_range_rejected_witness :
  round "scores.json" (mkRandom (fun _ _ => 2) [], [("1", 3)])
    (sample_world 2 [Line "4"; Line "10"; Line "5"; Line "1"])
  = (Ok (inl (mkRandom (fun _ _ => 2) [], [("1", 3)])),
     set_stdin [Line "1"]
       (logged (menu_log ++ [Asked prompt_choice; Asked prompt_minimum;
                             Asked prompt_maximum; Said msg_min_max])
          (sample_world 2 [Line "4"; Line "10"; Line "5"; Line "1"]))).
Proof.
  exact (proj1 (custom_range_rejected "scores.json" (mkRandom (fun _ _ => 2) [])
                  [("1", 3)] (sample_world 2 [Line "4"; Line "10"; Line "5"; Line "1"])
                  "4" "10" "5" [Line "1"] 10 5 eq_refl eq_refl eq_refl eq_refl eq_refl)).
Defined.

(** C5.  A line that is not a numeral typed for the minimum of a custom
    range is not recovered: [int] raises [ValueError] outside any
    handler and the exception leaves [run_interactive], with the rest
    of the input unread; the same line typed as a guess is answered by
    a new prompt. *)
Theorem custom_minimum_not_numeric_aborts :
  let w := sample_world 2 [Line "4"; Line "abc"; Line "1"; Line "3"; Line "n"] in
  fst (run_interactive None "scores.json" w) = Raise ValueError
  /\ stdin (snd (run_interactive None "scores.json" w)) = [Line "1"; Line "3"; Line "n"]
  /\ fst (run_interactive None "scores.json"
            (sample_world 2 [Line "1"; Line "abc"; Line "3"; Line "n"]))
     = Ok tt.
Proof. vm_compute; repeat split. Qed.

(** C6, as stated, fails: called without a generator, [play_game] makes
    one itself with [random.Random()], so two sessions with the same
    (absent) generator argument and the same input can end differently. *)
Lemma session_creates_its_source :
  let inp := [Line "3"; Line "5"] in
  stdin (sample_world 2 inp) = stdin (sample_world 4 inp)
  /\ outcome (fst (play_game 1 10 None None (sample_world 2 inp))) = Some (1, true)
  /\ outcome (fst (play_game 1 10 None None (sample_world 4 inp))) = Some (2, true)
  /\ spawned (sample_world 2 inp) = 0%nat
  /\ spawned (snd (play_game 1 10 None None (sample_world 2 inp))) = 1%nat.
Proof. vm_compute; repeat split. Qed.

(** C6, amended.  A session that is given a generator draws its secret
    from it by one [randint(lo, hi)], a value of [[lo, hi]], and creates
    no generator: its result depends on that generator and on the input
    only, so two sessions given the same generator and the same input end
    the same.  A session that is given none creates one. *)
Theorem supplied_source_determines_session (lo hi : Z) (lim : option Z) (r : Random)
    (w1 w2 : world) :
  stdin w1 = stdin w2 ->
  fst (play_game lo hi lim (Some r) w1) = fst (play_game lo hi lim (Some r) w2)
  /\ spawned (snd (play_game lo hi lim (Some r) w1)) = spawned w1
  /\ (lo <= hi ->
      lo <= secret_of r lo hi <= hi
      /\ play_game lo hi lim (Some r) w1
         = session lo hi lim (secret_of r lo hi) (drawn_from r lo hi) 0
             (logged [Said (msg_guess_between lo hi)] w1)
      /\ past (drawn_from r lo hi) = (hi - lo + 1) :: past r)
  /\ spawned (snd (play_game lo hi lim None w1)) = S (spawned w1).
Proof.
  intros E; split; [apply play_game_supplied_deterministic; exact E|].
  split; [apply play_game_supplied_console_only|].
  split.
  - intros H; split; [apply secret_in_range; exact H|].
    split; [apply (play_game_start lo hi lim (Some r) w1 H) | reflexivity].
  - destruct (Z_le_gt_dec lo hi) as [Hle|Hgt].
    + rewrite play_game_start by assumption; unfold session.
      destruct (console_only_while
                  (guess_round lo hi lim (secret_of (source_of None w1) lo hi)
                     (drawn_from (source_of None w1) lo hi)) 0
                  (fun a => guess_round_console_only lo hi lim _ _ a)
                  (started lo hi None w1)) as [S1 _].
      rewrite S1; reflexivity.
    + unfold play_game, bind, new_random, randint.
      replace (lo <=? hi) with false by (symmetry; apply Z.leb_gt; lia).
      reflexivity.
Qed.

Lemma supplied_source_determines_session_witness :
  fst (play_game 1 10 None (Some (mkRandom (fun _ _ => 2) []))
         (sample_world 2 [Line "3"; Line "5"]))
  = fst (play_game 1 10 None (Some (mkRandom (fun _ _ => 2) []))
           (sample_world 4 [Line "3"; Line "5"])).
Proof.
  exact (proj1 (supplied_source_determines_session 1 10 None (mkRandom (fun _ _ => 2) [])
                  (sample_world 2 [Line "3"; Line "5"])
                  (sample_world 4 [Line "3"; Line "5"]) eq_refl)).
Defined.

(** C7.  [safe_load_scores] never raises and never changes the world:
    for every path and every state of the file it returns a record, and
    that record is empty whenever something fails: no file, a file that
    cannot be opened for reading, text that is not JSON, JSON that is
    not an object, or an object with a value [int] refuses.  The text
    [{not json] is such a case. *)
Theorem load_never_raises (path : string) (w : world) :
  (exists d, safe_load_scores path w = (Ok d, w))
  /\ (forall c, fs w path = Missing c -> safe_load_scores path w = (Ok [], w))
  /\ (forall wr text, fs w path = Stored false wr text ->
        safe_load_scores path w = (Ok [], w))
  /\ (forall rd wr text, fs w path = Stored rd wr text ->
        Json.loads text = None ->
        safe_load_scores path w = (Ok [], w))
  /\ (forall rd wr text data, fs w path = Stored rd wr text ->
        Json.loads text = Some data -> items_of data = None ->
        safe_load_scores path w = (Ok [], w))
  /\ (forall rd wr text items, fs w path = Stored rd wr text ->
        Json.loads text = Some (VDict items) ->
        (exists k v, In (k, v) items /\ int_of_value v = None) ->
        safe_load_scores path w = (Ok [], w))
  /\ Json.loads text_not_json = None.
Proof.
  split; [apply safe_load_scores_total|].
  split; [intros c E; unfold safe_load_scores; rewrite E; reflexivity|].
  split; [intros wr text E; unfold safe_load_scores; rewrite E; reflexivity|].
  split.
  { intros rd wr text E L; unfold safe_load_scores, load_scores; rewrite E, L.
    destruct rd; reflexivity. }
  split.
  { intros rd wr text data E L I; unfold safe_load_scores, load_scores.
    rewrite E, L, I; destruct rd; reflexivity. }
  split; [|reflexivity].
  intros rd wr text items E L X; unfold safe_load_scores, load_scores.
  rewrite E, L; simpl; rewrite (int_items_fails items [] X).
  destruct rd; reflexivity.
Qed.

Lemma load_never_raises_witness :
  safe_load_scores "scores.json" (with_file "scores.json" text_not_json (sample_world 0 []))
  = (Ok [], with_file "scores.json" text_not_json (sample_world 0 []))
  /\ safe_load_scores "scores.json" (with_file "scores.json" text_null_value (sample_world 0 []))
     = (Ok [], with_file "scores.json" text_null_value (sample_world 0 [])).
Proof.
  split.
  - exact (proj1 (proj2 (proj2 (proj2 (load_never_raises "scores.json"
             (with_file "scores.json" text_not_json (sample_world 0 []))))))
           true true text_not_json eq_refl eq_refl).
  - exact (proj1 (proj2 (proj2 (proj2 (proj2 (proj2 (load_never_raises "scores.json"
             (with_file "scores.json" text_null_value (sample_world 0 []))))))))
           true true text_null_value [("1", VNone)] eq_refl eq_refl
           (ex_intro _ "1" (ex_intro _ VNone (conj (or_introl eq_refl) eq_refl)))).
Defined.

(** C10.  [safe_load_scores] converts every stored value with [int]:
    when the file holds a JSON object all of whose values convert, the
    record has under each key the integer of its value, for values that
    are integers, booleans, finite floats (truncated towards zero) or
    numeric strings alike; the files [{"1": "3"}] and [{"1": 3.7}] load
    as the record with 3 under key 1.  The empty record comes back for
    an object only when the object is empty or one of its values fails
    the conversion. *)
Theorem load_coerces_values (path : string) (w : world) (wr : bool)
    (text : string) (items : list (string * value)) :
  fs w path = Stored true wr text ->
  Json.loads text = Some (VDict items) ->
  (Forall (fun kv => int_of_value (snd kv) <> None) items ->
     exists d, safe_load_scores path w = (Ok d, w)
               /\ forall k, Dict.get k d = int_at k items)
  /\ (safe_load_scores path w = (Ok [], w) ->
        items = [] \/ exists k v, In (k, v) items /\ int_of_value v = None)
  /\ (forall n, int_of_value (VInt n) = Some n)
  /\ (forall s, int_of_value (VStr s) = Py.int_of_str s)
  /\ (forall m e, int_of_value (VFloat (FFinite m e)) = Some (trunc m e))
  /\ (forall m e, e < 0 -> trunc m e = Z.quot m (2 ^ (- e)))
  /\ fst (safe_load_scores path (with_file path text_string_value w)) = Ok [("1", 3)]
  /\ fst (safe_load_scores path (with_file path text_float_value w)) = Ok [("1", 3)].
Proof.
  intros E L.
  assert (ND : NoDup (map fst items)) by (eapply loads_dict_nodup; exact L).
  assert (U : safe_load_scores path w
              = (Ok match int_items items [] with Some d => d | None => [] end, w)).
  { unfold safe_load_scores, load_scores; rewrite E, L; simpl.
    destruct (int_items items []); reflexivity. }
  split; [|split].
  - intros Hall; rewrite U.
    destruct (int_items items []) as [d|] eqn:I.
    + exists d; split; [reflexivity|]; intros k.
      rewrite (int_items_get items [] d k I ND); unfold int_at.
      destruct (Dict.get k items); reflexivity.
    + exfalso; clear - Hall I; revert I; generalize (@nil (string * Z)).
      induction items as [|[k v] items IH]; intros acc I; [discriminate|].
      inversion Hall as [|? ? Hv Hall']; subst; simpl in *.
      destruct (int_of_value v); [eapply IH; eassumption | congruence].
  - rewrite U; intros H; inversion H as [H1]; clear H.
    destruct (int_items items []) as [d|] eqn:I.
    + subst d; destruct items as [|[k v] items]; [left; reflexivity|].
      exfalso; pose proof (int_items_get _ _ _ k I ND) as G.
      simpl in G; rewrite String.eqb_refl in G.
      apply int_items_succeeds in I; inversion I; subst; simpl in *.
      destruct (int_of_value v); [discriminate | congruence].
    + right; clear - I; revert I; generalize (@nil (string * Z)).
      induction items as [|[k v] items IH]; intros acc I; [discriminate|].
      simpl in I; destruct (int_of_value v) eqn:V.
      * destruct (IH _ I) as (k' & v' & Hin & Hv); exists k', v'; split;
          [right; assumption | assumption].
      * exists k, v; split; [left; reflexivity | assumption].
  - split; [reflexivity|]; split; [reflexivity|]; split; [reflexivity|].
    split; [intros m e He; unfold trunc; destruct (0 <=? e) eqn:X;
            [apply Z.leb_le in X; lia | reflexivity]|].
    unfold safe_load_scores, with_file, write_file; simpl.
    rewrite String.eqb_refl; split; reflexivity.
Qed.

Lemma load_coerces_values_witness :
  exists d, safe_load_scores "scores.json"
              (with_file "scores.json" text_float_value (sample_world 0 []))
            = (Ok d, with_file "scores.json" text_float_value (sample_world 0 []))
            /\ forall k, Dict.get k d
                         = int_at k [("1", VFloat (FFinite 8331659310635418 (-51)))].
Proof.
  refine (proj1 (load_coerces_values "scores.json"
                   (with_file "scores.json" text_float_value (sample_world 0 []))
                   true text_float_value
                   [("1", VFloat (FFinite 8331659310635418 (-51)))] eq_refl eq_refl) _).
  constructor; [discriminate | constructor].
Defined.

(** C8.  For every record (a dict: each key once) with integer values
    and every path that can be written and read, [safe_save_scores]
    followed by [safe_load_scores] returns the record, key for key in
    the same order.  The saved file holds the text of the record alone,
    whatever it held before, and no other path changes.  Loading never
    changes the world, so loading the same file twice gives the same
    mapping twice. *)
Theorem save_then_load (record : scores) (path : string) (w : world) :
  NoDup (map fst record) ->
  usable (fs w path) ->
  let w1 := snd (safe_save_scores record path w) in
  fs w1 path = Stored true true (Json.dumps record)
  /\ (forall p, p <> path -> fs w1 p = fs w p)
  /\ safe_load_scores path w1 = (Ok record, w1)
  /\ load_twice path w1 = (Ok (record, record), w1)
  /\ (forall p w0, exists d, load_twice p w0 = (Ok (d, d), w0)).
Proof.
  intros ND U w1.
  assert (F : fs w1 = write_file path (Stored true true (Json.dumps record)) (fs w)).
  { unfold w1, safe_save_scores; destruct U as [U|[old U]]; rewrite U; reflexivity. }
  assert (P : fs w1 path = Stored true true (Json.dumps record)).
  { rewrite F; unfold write_file; rewrite String.eqb_refl; reflexivity. }
  assert (L : safe_load_scores path w1 = (Ok record, w1)).
  { unfold safe_load_scores, load_scores; rewrite P, (loads_dumps record ND).
    cbn [items_of]; rewrite (int_items_as_items record [] ND); reflexivity. }
  split; [exact P|]; split; [|split; [exact L|split]].
  - intros p Hp; rewrite F; unfold write_file.
    apply String.eqb_neq in Hp; rewrite Hp; reflexivity.
  - unfold load_twice, bind; rewrite L, L; reflexivity.
  - intros p w0; destruct (safe_load_scores_total p w0) as [d E].
    exists d; unfold load_twice, bind; rewrite E, E; reflexivity.
Qed.

Lemma save_then_load_witness :
  safe_load_scores "scores.json"
    (snd (safe_save_scores [("1", 3); ("2", 5)] "scores.json"
            (with_file "scores.json" text_not_json (sample_world 0 []))))
  = (Ok [("1", 3); ("2", 5)],
     snd (safe_save_scores [("1", 3); ("2", 5)] "scores.json"
            (with_file "scores.json" text_not_json (sample_world 0 [])))).
Proof.
  refine (proj1 (proj2 (proj2 (save_then_load [("1", 3); ("2", 5)] "scores.json"
            (with_file "scores.json" text_not_json (sample_world 0 [])) _ _)))).
  - constructor; [intros [H|[]]; discriminate H|].
    constructor; [intros [] | constructor].
  - right; exists text_not_json; reflexivity.
Defined.

(* ================================================================== *)
(** * Further properties of the program *)
(* ================================================================== *)

(** ** [get_yes_no] *)

Arguments str_in : simpl never.

Lemma get_yes_no_accept prompt w s rest b :
  stdin w = Line s :: rest -> answer s = Some b ->
  get_yes_no prompt w = (Ok b, set_stdin rest (logged [Asked prompt] w)).
Proof.
  intros E Hs; unfold get_yes_no.
  rewrite while_true_step by (intros; apply ask_round_strict).
  destruct w as [inp out files en sp sd]; simpl in E; subst inp.
  unfold answer in Hs; unfold ask_round, bind, input_fn; simpl.
  destruct (str_in (Py.lower (Py.strip s)) ["y"; "yes"]).
  - inversion Hs; reflexivity.
  - destruct (str_in (Py.lower (Py.strip s)) ["n"; "no"]); [|discriminate].
    inversion Hs; reflexivity.
Qed.

Lemma get_yes_no_reject prompt w s rest :
  stdin w = Line s :: rest -> answer s = None ->
  get_yes_no prompt w
  = get_yes_no prompt (set_stdin rest (logged [Asked prompt; Said msg_yes_no] w)).
Proof.
  intros E Hs; unfold get_yes_no at 1.
  rewrite while_true_step by (intros; apply ask_round_strict).
  destruct w as [inp out files en sp sd]; simpl in E; subst inp.
  unfold answer in Hs; unfold ask_round, bind, input_fn, logged; simpl.
  destruct (str_in (Py.lower (Py.strip s)) ["y"; "yes"]); [discriminate|].
  destruct (str_in (Py.lower (Py.strip s)) ["n"; "no"]); [discriminate|].
  simpl; rewrite <- List.app_assoc; reflexivity.
Qed.

Lemma get_yes_no_eof prompt w :
  stdin w = [] -> get_yes_no prompt w = (Raise EOFError, logged [Asked prompt] w).
Proof.
  intros E; unfold get_yes_no.
  rewrite while_true_step by (intros; apply ask_round_strict).
  destruct w as [inp out files en sp sd]; simpl in E; subst inp; reflexivity.
Qed.

Lemma answer_spec s :
  (answer s = Some true
   <-> Py.lower (Py.strip s) = "y" \/ Py.lower (Py.strip s) = "yes")
  /\ (answer s = Some false
      <-> Py.lower (Py.strip s) = "n" \/ Py.lower (Py.strip s) = "no").
Proof.
  unfold answer, str_in; cbn [existsb].
  destruct (String.eqb_spec (Py.lower (Py.strip s)) "y") as [->|N1];
    [split; split; intros H; try discriminate; auto;
     destruct H as [H|H]; discriminate|].
  destruct (String.eqb_spec (Py.lower (Py.strip s)) "yes") as [->|N2];
    [split; split; intros H; try discriminate; auto;
     destruct H as [H|H]; discriminate|].
  destruct (String.eqb_spec (Py.lower (Py.strip s)) "n") as [->|N3];
    [split; split; intros H; try discriminate; auto;
     destruct H as [H|H]; discriminate|].
  destruct (String.eqb_spec (Py.lower (Py.strip s)) "no") as [->|N4];
    [split; split; intros H; try discriminate; auto;
     destruct H as [H|H]; discriminate|].
  cbn; split; split; intros H; try discriminate; destruct H; contradiction.
Qed.

(** X1.  [get_yes_no] returns the meaning of the first line that,
    stripped and lower-cased, is y, yes, n or no: true for the first
    two, false for the others.  Each line before it is answered by the
    y/n reminder and a new prompt; when the input ends before such a
    line comes, [EOFError] leaves the function. *)
Theorem get_yes_no_contract (prompt : string) (w : world) (bad : list string) :
  Forall (fun x => answer x = None) bad ->
  (forall s rest b,
     stdin w = map Line bad ++ Line s :: rest ->
     answer s = Some b ->
     get_yes_no prompt w
     = (Ok b, set_stdin rest
                (logged (flat_map (fun _ => [Asked prompt; Said msg_yes_no]) bad
                         ++ [Asked prompt]) w)))
  /\ (stdin w = map Line bad -> fst (get_yes_no prompt w) = Raise EOFError)
  /\ (forall s,
        (answer s = Some true
         <-> Py.lower (Py.strip s) = "y" \/ Py.lower (Py.strip s) = "yes")
        /\ (answer s = Some false
            <-> Py.lower (Py.strip s) = "n" \/ Py.lower (Py.strip s) = "no")).
Proof.
  intros Hbad; split; [|split; [|apply answer_spec]].
  - revert w; induction Hbad as [|x bad Hx Hbad IH]; intros w s rest b E Hs; simpl in E.
    + rewrite (get_yes_no_accept _ _ _ _ _ E Hs); reflexivity.
    + rewrite (get_yes_no_reject _ _ _ _ E Hx).
      rewrite (IH _ s rest b); [|reflexivity|assumption].
      destruct w as [inp out files en sp sd]; unfold logged, set_stdin, set_stdout; simpl.
      rewrite <- List.app_assoc; reflexivity.
  - revert w; induction Hbad as [|x bad Hx Hbad IH]; intros w E; simpl in E.
    + rewrite get_yes_no_eof by assumption; reflexivity.
    + rewrite (get_yes_no_reject _ _ _ _ E Hx); apply IH; reflexivity.
Qed.

Lemma get_yes_no_contract_witness :
  get_yes_no "again? " (sample_world 0 [Line "maybe"; Line ""; Line " YES "; Line "n"])
  = (Ok true,
     set_stdin [Line "n"]
       (logged [Asked "again? "; Said msg_yes_no; Asked "again? "; Said msg_yes_no;
                Asked "again? "]
          (sample_world 0 [Line "maybe"; Line ""; Line " YES "; Line "n"]))).
Proof.
  exact (proj1 (get_yes_no_contract "again? "
                  (sample_world 0 [Line "maybe"; Line ""; Line " YES "; Line "n"])
                  ["maybe"; ""]
                  (Forall_cons "maybe" (eq_refl : answer "maybe" = None)
                     (Forall_cons "" (eq_refl : answer "" = None) (Forall_nil _))))
               " YES " [Line "n"] true eq_refl eq_refl).
Defined.

(** ** The menu *)

(** X2.  A menu line that, stripped, is none of 1, 2, 3, 4 (an empty
    line included) starts no session: the round says that the choice is
    invalid and goes back to the menu with the same generator and the
    same score record, having read that one line only and written no
    file. *)
Theorem invalid_choice_back_to_menu (score_file : string) (rng : Random)
    (best : scores) (w : world) (c : string) (rest : list input_event) :
  stdin w = Line c :: rest ->
  ~ In (Py.strip c) ["1"; "2"; "3"; "4"] ->
  let w' := set_stdin rest
              (logged (menu_log ++ [Asked prompt_choice; Said msg_invalid_choice]) w) in
  round score_file (rng, best) w = (Ok (inl (rng, best)), w')
  /\ while_true (round score_file) (rng, best) w
     = while_true (round score_file) (rng, best) w'.
Proof.
  intros E Hc w'.
  assert (R : round score_file (rng, best) w = (Ok (inl (rng, best)), w')).
  { unfold round; rewrite (bind_ok _ _ _ _ _ (show_menu_log w)).
    destruct w as [inp out files en sp sd]; simpl in E; subst inp.
    unfold select_level, bind, input_fn; simpl.
    destruct (String.eqb_spec (Py.strip c) "4") as [X|_];
      [exfalso; apply Hc; rewrite X; simpl; auto|].
    destruct (String.eqb_spec (Py.strip c) "1") as [X|_];
      [exfalso; apply Hc; rewrite X; simpl; auto|].
    destruct (String.eqb_spec (Py.strip c) "2") as [X|_];
      [exfalso; apply Hc; rewrite X; simpl; auto|].
    destruct (String.eqb_spec (Py.strip c) "3") as [X|_];
      [exfalso; apply Hc; rewrite X; simpl; auto|].
    unfold w', logged, set_stdin, set_stdout; simpl.
    list_norm; reflexivity. }
  split; [exact R|].
  rewrite while_true_step by (intros; apply round_strict).
  rewrite R; reflexivity.
Qed.

Lemma invalid_choice_back_to_menu_witness :
  round "scores.json" (mkRandom (fun _ _ => 2) [], [("1", 3)])
    (sample_world 2 [Line " five "; Line "1"])
  = (Ok (inl (mkRandom (fun _ _ => 2) [], [("1", 3)])),
     set_stdin [Line "1"]
       (logged (menu_log ++ [Asked prompt_choice; Said msg_invalid_choice])
          (sample_world 2 [Line " five "; Line "1"]))).
Proof.
  refine (proj1 (invalid_choice_back_to_menu "scores.json" (mkRandom (fun _ _ => 2) [])
                   [("1", 3)] (sample_world 2 [Line " five "; Line "1"])
                   " five " [Line "1"] eq_refl _)).
  intros [H|[H|[H|[H|[]]]]]; discriminate H.
Defined.

(** ** Saving *)


(** ** Sessions *)

(** X4.  Called with [min_value > max_value], [play_game] fails at the
    draw: [randint] raises [ValueError] before anything is printed or
    read, so console and input are as before. *)
Theorem empty_range_fails_at_once (lo hi : Z) (lim : option Z) (rng : option Random)
    (w : world) :
  hi < lo ->
  fst (play_game lo hi lim rng w) = Raise ValueError
  /\ stdout (snd (play_game lo hi lim rng w)) = stdout w
  /\ stdin (snd (play_game lo hi lim rng w)) = stdin w
  /\ fs (snd (play_game lo hi lim rng w)) = fs w.
Proof.
  intros H; unfold play_game, randint.
  apply Z.leb_gt in H; rewrite H.
  destruct rng as [r|]; repeat split; reflexivity.
Qed.

Lemma empty_range_fails_at_once_witness :
  fst (play_game 10 5 None None (sample_world 2 [Line "7"])) = Raise ValueError
  /\ stdout (snd (play_game 10 5 None None (sample_world 2 [Line "7"]))) = []
  /\ stdin (snd (play_game 10 5 None None (sample_world 2 [Line "7"]))) = [Line "7"].
Proof.
  pose proof (empty_range_fails_at_once 10 5 None None (sample_world 2 [Line "7"])
                ltac:(lia)) as (A & B & C & _).
  split; [exact A | split; [exact B | exact C]].
Defined.


(** The guessing loop from attempt counter [a] on: the count it
    returns, the generator it hands back and how a loss relates to the
    limit. *)
Lemma session_bounds lo hi lim secret rng n : forall a w p w',
  loop n (guess_round lo hi lim secret rng) a w = (Ok p, w') ->
  a + 1 <= attempts_used p
  /\ rng_after p = rng
  /\ (forall m, lim = Some m ->
        attempts_used p <= Z.max m (a + 1)
        /\ (won p = false -> attempts_used p = Z.max m (a + 1))).
Proof.
  induction n as [|n IH]; intros a w p w' H; [discriminate|].
  simpl in H; unfold bind at 1 in H.
  destruct (guess_round_verdict lo hi lim secret rng a w) as [V _].
  destruct (guess_round lo hi lim secret rng a w) as [[[a'|q]|e|] w1];
    try discriminate H; simpl in V.
  - destruct (get_valid_number _ lo hi w) as [[g|e|] w2]; simpl in V; try discriminate V.
    inversion V as [V']; clear V; unfold verdict in V'.
    destruct (IH _ _ _ _ H) as (B1 & B2 & B3).
    destruct ((g <? secret) || (g >? secret)); [|discriminate].
    destruct lim as [m|].
    + destruct (a + 1 >=? m) eqn:G; [discriminate|]; inversion V'; subst a'.
      rewrite Z.geb_leb in G; apply Z.leb_gt in G.
      split; [lia|]; split; [exact B2|].
      intros m' Hm; inversion Hm; subst m'.
      destruct (B3 m eq_refl) as [U L]; split; [lia | intros X; specialize (L X); lia].
    + inversion V'; subst a'; split; [lia|]; split; [exact B2 | intros m' X; discriminate].
  - inversion H; subst q w1; clear H.
    destruct (get_valid_number _ lo hi w) as [[g|e|] w2]; simpl in V; try discriminate V.
    inversion V as [V']; clear V; unfold verdict in V'.
    destruct ((g <? secret) || (g >? secret)).
    + destruct lim as [m|]; [|discriminate].
      destruct (a + 1 >=? m) eqn:G; [|discriminate]; inversion V'; subst p; simpl.
      rewrite Z.geb_leb in G; apply Z.leb_le in G.
      split; [lia|]; split; [reflexivity|].
      intros m' Hm; inversion Hm; subst m'; split; [lia | intros _; lia].
    + inversion V'; subst p; simpl; split; [lia|]; split; [reflexivity|].
      intros m Hm; split; [lia | discriminate].
Qed.

(** X5.  However the player guesses, a session that returns has counted
    at least one attempt; under a limit [N >= 1] it never counts more
    than [N], and a lost session has counted exactly [N].  A limit of
    zero or less acts like a limit of one: the session ends at its first
    validated guess, won or lost. *)
Theorem attempts_within_limit (lo hi N : Z) (rng : option Random) (w : world)
    (p : played) (w' : world) :
  play_game lo hi (Some N) rng w = (Ok p, w') ->
  1 <= attempts_used p
  /\ (1 <= N -> attempts_used p <= N /\ (won p = false -> attempts_used p = N))
  /\ (N <= 1 -> attempts_used p = 1).
Proof.
  intros H.
  destruct (Z_le_gt_dec lo hi) as [Hle|Hgt].
  - rewrite play_game_start in H by assumption; unfold session, while_true in H.
    destruct (session_bounds _ _ _ _ _ _ _ _ _ _ H) as (B1 & _ & B3).
    destruct (B3 N eq_refl) as [U L].
    split; [lia|]; split.
    + intros HN; split; [lia | intros X; specialize (L X); lia].
    + intros HN; lia.
  - pose proof (play_game_empty_range lo hi (Some N) rng w ltac:(lia)) as X.
    rewrite H in X; discriminate.
Qed.

Lemma attempts_within_limit_witness :
  1 <= 1 /\ (1 <= 0 -> 1 <= 0 /\ (false = false -> 1 = 0)) /\ (0 <= 1 -> 1 = 1).
Proof.
  exact (attempts_within_limit 1 10 0 None (sample_world 2 [Line "9"; Line "3"])
           (mkPlayed 1 false (mkRandom (fun _ _ => 2) [10]))
           _ eq_refl).
Defined.

(** X6.  A session that returns hands back the generator after exactly
    one draw of width [hi - lo + 1], whatever the number of guesses: the
    guesses never touch the generator, so the next session of the same
    run draws the next value. *)
Theorem session_draws_once (lo hi : Z) (lim : option Z) (rng : option Random)
    (w : world) (p : played) (w' : world) :
  play_game lo hi lim rng w = (Ok p, w') ->
  rng_after p = drawn_from (source_of rng w) lo hi
  /\ draws (rng_after p) = draws (source_of rng w)
  /\ past (rng_after p) = (hi - lo + 1) :: past (source_of rng w).
Proof.
  intros H.
  destruct (Z_le_gt_dec lo hi) as [Hle|Hgt].
  - rewrite play_game_start in H by assumption; unfold session, while_true in H.
    destruct (session_bounds _ _ _ _ _ _ _ _ _ _ H) as (_ & B2 & _).
    rewrite B2; repeat split.
  - pose proof (play_game_empty_range lo hi lim rng w ltac:(lia)) as X.
    rewrite H in X; discriminate.
Qed.

Lemma session_draws_once_witness :
  past (mkRandom (fun _ _ => 2) [10]) = [10].
Proof.
  exact (proj2 (proj2 (session_draws_once 1 10 None None
                  (sample_world 2 [Line "9"; Line "x"; Line "3"])
                  (mkPlayed 2 true (mkRandom (fun _ _ => 2) [10])) _ eq_refl))).
Defined.

(** X7.  The reply to a validated guess points to the secret: a guess
    below the secret is answered by the higher-number hint, a guess
    above it by the lower-number hint, and a guess equal to it by the
    success message with the secret and the attempt number and by
    nothing else. *)
Theorem hint_points_to_secret (lo hi : Z) (lim : option Z) (secret : Z) (rng : Random)
    (a : Z) (t : turn) (w : world) (rest : list input_event) :
  valid_turn lo hi t = true ->
  stdin w = turn_input t ++ rest ->
  let g := guess_of lo hi t in
  let out := stdout (snd (guess_round lo hi lim secret rng a w)) in
  let asked := stdout w ++ reading_log (prompt_attempt (a + 1)) lo hi t in
  (g < secret -> exists tail, out = asked ++ Said msg_higher :: tail)
  /\ (g > secret -> exists tail, out = asked ++ Said msg_lower :: tail)
  /\ (g = secret -> out = asked ++ [Said (msg_correct secret (a + 1))]).
Proof.
  intros Hv E g out asked; subst out asked.
  unfold guess_round.
  rewrite (bind_ok _ _ _ _ _ (valid_turn_reads lo hi _ t w rest Hv E)).
  fold g; rewrite Z.gtb_ltb.
  assert (L : forall w1, exists tail,
             stdout (snd (limit_check lim secret rng (a + 1) w1)) = stdout w1 ++ tail).
  { intros w1; unfold limit_check; destruct lim as [m|];
      [destruct (a + 1 >=? m)|].
    - eexists; reflexivity.
    - exists []; simpl; rewrite List.app_nil_r; reflexivity.
    - exists []; simpl; rewrite List.app_nil_r; reflexivity. }
  split; [|split].
  - intros Hlt; apply Z.ltb_lt in Hlt; rewrite Hlt.
    unfold bind at 1, output_fn at 1.
    match goal with |- context [limit_check lim secret rng (a + 1) ?w1] =>
      destruct (L w1) as [tail T]; exists tail; rewrite T end.
    destruct w; simpl; list_norm; reflexivity.
  - intros Hgt.
    replace (g <? secret) with false by (symmetry; apply Z.ltb_ge; lia).
    replace (secret <? g) with true by (symmetry; apply Z.ltb_lt; lia).
    unfold bind at 1, output_fn at 1.
    match goal with |- context [limit_check lim secret rng (a + 1) ?w1] =>
      destruct (L w1) as [tail T]; exists tail; rewrite T end.
    destruct w; simpl; list_norm; reflexivity.
  - intros Heq; rewrite Heq, Z.ltb_irrefl.
    destruct w; simpl; list_norm; reflexivity.
Qed.

Lemma hint_points_to_secret_witness :
  exists tail,
    stdout (snd (guess_round 1 10 (Some 1) 7 (mkRandom (fun _ _ => 6) [10]) 0
                   (sample_world 0 [Line "x"; Line "4"])))
    = ([] ++ reading_log (prompt_attempt (0 + 1)) 1 10 (["x"], "4"))
      ++ Said msg_higher :: tail.
Proof.
  exact (proj1 (hint_points_to_secret 1 10 (Some 1) 7 (mkRandom (fun _ _ => 6) [10]) 0
                  (["x"], "4") (sample_world 0 [Line "x"; Line "4"]) []
                  eq_refl eq_refl) ltac:(vm_compute; reflexivity)).
Defined.

(** ** How the program reads its input *)

Lemma read_as_extend e before mid after ls1 ls2 :
  before = map Line ls1 ++ mid ->
  read_as e mid after ls2 ->
  read_as e before after (ls1 ++ ls2).
Proof.
  intros -> H; unfold read_as in *.
  destruct e as [[| |]|]; rewrite map_app;
    try (rewrite <- List.app_assoc, H; reflexivity).
  destruct H as [-> ->]; split; reflexivity.
Qed.

Lemma reads_silent {A} (c : M A) : silent c -> reads_in_order c.
Proof.
  intros H w; destruct (H w) as [[a Ha] Hs]; exists []; rewrite Ha, Hs; reflexivity.
Qed.

Lemma reads_raise {A} e : e <> EOFError -> e <> KeyboardInterrupt ->
  reads_in_order (@raise A e).
Proof. intros H1 H2 w; exists []; destruct e; try congruence; reflexivity. Qed.

Lemma reads_input prompt : reads_in_order (input_fn prompt).
Proof.
  intros [inp out files en sp sd]; unfold input_fn; simpl.
  destruct inp as [|[s|] rest]; simpl.
  - exists []; split; reflexivity.
  - exists [s]; reflexivity.
  - exists []; reflexivity.
Qed.

Lemma reads_bind {A B} (c : M A) (k : A -> M B) :
  reads_in_order c -> (forall a, reads_in_order (k a)) -> reads_in_order (bind c k).
Proof.
  intros Hc Hk w; unfold bind; destruct (Hc w) as [ls1 H1].
  destruct (c w) as [[a|e|] w1]; simpl in *.
  - destruct (Hk a w1) as [ls2 H2]; exists (ls1 ++ ls2).
    eapply read_as_extend; eassumption.
  - exists ls1; exact H1.
  - exists ls1; exact H1.
Qed.

Lemma reads_try_except {A} (c h : M A) x :
  x <> EOFError -> x <> KeyboardInterrupt ->
  reads_in_order c -> reads_in_order h -> reads_in_order (try_except c x h).
Proof.
  intros X1 X2 Hc Hh w; unfold try_except; destruct (Hc w) as [ls1 H1].
  destruct (c w) as [[a|e|] w1]; simpl in *; try (exists ls1; exact H1).
  destruct (exn_eqb x e) eqn:E; [|exists ls1; exact H1].
  assert (e = x) by (destruct x, e; simpl in E; congruence); subst e.
  destruct (Hh w1) as [ls2 H2]; exists (ls1 ++ ls2).
  eapply read_as_extend; [|exact H2].
  destruct x; try congruence; exact H1.
Qed.

Lemma reads_loop {S A} (body : S -> M (S + A)) n :
  (forall s, reads_in_order (body s)) -> forall s, reads_in_order (loop n body s).
Proof.
  intros Hb; induction n as [|n IH]; intros s; [intros w; exists []; reflexivity|].
  simpl; apply reads_bind; [apply Hb|].
  intros [s'|a]; [apply IH | apply reads_silent, silent_ret].
Qed.

Lemma reads_while {S A} (body : S -> M (S + A)) s :
  (forall s, reads_in_order (body s)) -> reads_in_order (while_true body s).
Proof. intros Hb w; unfold while_true; apply reads_loop; assumption. Qed.

Lemma reads_int_ raw : reads_in_order (int_ raw).
Proof.
  unfold int_; destruct (Py.int_of_str raw);
    [apply reads_silent, silent_ret | apply reads_raise; discriminate].
Qed.

Lemma reads_get_valid_number prompt lo hi :
  reads_in_order (get_valid_number prompt lo hi).
Proof.
  apply reads_while; intros u; unfold read_round.
  apply reads_try_except; try discriminate.
  - apply reads_bind; [apply reads_input | intros raw].
    apply reads_bind; [apply reads_int_ | intros v].
    destruct ((lo <=? v) && (v <=? hi)); apply reads_silent; [apply silent_ret|].
    apply silent_bind; [apply silent_output | intros; apply silent_ret].
  - apply reads_silent, silent_bind; [apply silent_output | intros; apply silent_ret].
Qed.

Lemma reads_get_yes_no prompt : reads_in_order (get_yes_no prompt).
Proof.
  apply reads_while; intros u; unfold ask_round.
  apply reads_bind; [apply reads_input | intros raw].
  apply reads_silent.
  destruct (str_in _ _); [apply silent_ret|].
  destruct (str_in _ _); [apply silent_ret|].
  apply silent_bind; [apply silent_output | intros; apply silent_ret].
Qed.

Lemma reads_play_game lo hi lim rng : reads_in_order (play_game lo hi lim rng).
Proof.
  unfold play_game; apply reads_bind.
  - destruct rng; apply reads_silent; [apply silent_ret|].
    intros w; split; [exists (entropy w (spawned w))|]; reflexivity.
  - intros r; apply reads_bind.
    + unfold randint; destruct (lo <=? hi); [|apply reads_raise; discriminate].
      destruct (randbelow r (hi - lo + 1)); apply reads_silent, silent_ret.
    + intros [secret r']; apply reads_bind; [apply reads_silent, silent_output|].
      intros _; apply reads_while; intros a; unfold guess_round.
      apply reads_bind; [apply reads_get_valid_number | intros g].
      apply reads_silent.
      destruct (g <? secret); [|destruct (g >? secret)];
        (apply silent_bind; [apply silent_output | intros]);
        try apply limit_check_silent; apply silent_ret.
Qed.

Lemma reads_select_level : reads_in_order select_level.
Proof.
  unfold select_level; apply reads_bind; [apply reads_input | intros raw].
  destruct (String.eqb (Py.strip raw) "4").
  - apply reads_bind; [apply reads_input | intros raw_min].
    apply reads_bind; [apply reads_int_ | intros min_v].
    apply reads_bind; [apply reads_input | intros raw_max].
    apply reads_bind; [apply reads_int_ | intros max_v].
    destruct (min_v >? max_v); apply reads_silent; [|apply silent_ret].
    apply silent_bind; [apply silent_output | intros; apply silent_ret].
  - destruct (Dict.get (Py.strip raw) difficulty_presets); apply reads_silent;
      [apply silent_ret|].
    apply silent_bind; [apply silent_output | intros; apply silent_ret].
Qed.

Lemma reads_round score_file st : reads_in_order (round score_file st).
Proof.
  destruct st as [rng best]; unfold round.
  apply reads_bind; [apply reads_silent, show_menu_silent | intros _].
  apply reads_bind; [apply reads_select_level | intros sel].
  destruct sel as [lv key|]; [|apply reads_silent, silent_ret].
  apply reads_bind; [apply reads_play_game | intros p].
  apply reads_bind; [apply reads_silent, update_best_silent | intros best'].
  apply reads_bind; [apply reads_get_yes_no | intros again].
  destruct again; apply reads_silent; [apply silent_ret|].
  apply silent_bind; [apply farewell_silent | intros; apply silent_ret].
Qed.

(** ** The endings of [run_interactive] *)

Lemma run_interactive_start seed score_file w :
  run_interactive seed score_file w
  = try_except
      (while_true (round score_file) (first_rng seed w, loaded score_file w))
      KeyboardInterrupt (output_fn msg_interrupted) (opened seed w).
Proof.
  unfold run_interactive, first_rng, loaded, opened, bind, safe_load_scores, new_random.
  destruct seed as [n|]; simpl;
    destruct (load_scores (fs w score_file)); reflexivity.
Qed.

Lemma lines_then_interrupt a : forall b r s,
  map Line a ++ Interrupt :: r = map Line b ++ s ->
  exists c, a = b ++ c /\ s = map Line c ++ Interrupt :: r.
Proof.
  induction a as [|x a IH]; intros b r s H; destruct b as [|y b]; simpl in *.
  - exists []; split; [reflexivity | symmetry; exact H].
  - discriminate H.
  - exists (x :: a); split; [reflexivity | symmetry; exact H].
  - inversion H as [[Hx Ht]]; destruct (IH _ _ _ Ht) as (c & -> & ->).
    exists c; split; reflexivity.
Qed.

Lemma interrupt_place a b r r' :
  map Line a ++ Interrupt :: r = map Line b ++ Interrupt :: r' -> a = b /\ r = r'.
Proof.
  intros H; destruct (lines_then_interrupt _ _ _ _ H) as (c & -> & Hc).
  destruct c as [|x c]; simpl in Hc; [|discriminate Hc].
  inversion Hc; rewrite List.app_nil_r; split; reflexivity.
Qed.

Lemma interrupt_not_lines a r b : map Line a ++ Interrupt :: r <> map Line b.
Proof.
  intros H; rewrite <- (List.app_nil_r (map Line b)) in H.
  destruct (lines_then_interrupt _ _ _ _ H) as (c & _ & Hc).
  destruct c; discriminate Hc.
Qed.

(** X8.  [run_interactive] never lets [KeyboardInterrupt] out.  When
    the player interrupts a prompt, the lines typed before have been
    read in order, the run returns normally with the goodbye for an
    interrupted run as the last thing printed, and what was typed after
    the interrupt is left unread.  The only other way a run with an
    interrupt in its input can end is before that interrupt is reached:
    by a normal return or by [ValueError]. *)
Theorem interrupt_ends_gracefully (seed : option Z) (score_file : string) (w : world)
    (ls : list string) (rest : list input_event) :
  stdin w = map Line ls ++ Interrupt :: rest ->
  let r := run_interactive seed score_file w in
  fst r <> Raise KeyboardInterrupt
  /\ (fst r = Ok tt \/ fst r = Raise ValueError)
  /\ ((fst r = Ok tt /\ stdin (snd r) = rest
       /\ exists evs, stdout (snd r) = evs ++ [Said msg_interrupted])
      \/ exists pre, stdin (snd r) = map Line pre ++ Interrupt :: rest).
Proof.
  intros E r; subst r; rewrite run_interactive_start; unfold try_except.
  set (L := while_true (round score_file) (first_rng seed w, loaded score_file w)).
  assert (E1 : stdin (opened seed w) = map Line ls ++ Interrupt :: rest)
    by (destruct seed; exact E).
  destruct (reads_while (round score_file) (first_rng seed w, loaded score_file w)
              (reads_round score_file) (opened seed w)) as [ls' R].
  destruct (strict_while_true (round score_file) (round_strict score_file)
              (first_rng seed w, loaded score_file w) (opened seed w)) as (NF & _).
  fold L in R, NF; destruct (L (opened seed w)) as [[[]|e|] w1]; simpl in *.
  - split; [discriminate|]; split; [left; reflexivity|]; right.
    rewrite E1 in R; destruct (lines_then_interrupt _ _ _ _ R) as (c & _ & ->).
    exists c; reflexivity.
  - destruct e; simpl.
    + split; [discriminate|]; split; [right; reflexivity|]; right.
      rewrite E1 in R; destruct (lines_then_interrupt _ _ _ _ R) as (c & _ & ->).
      exists c; reflexivity.
    + destruct R as [R _]; rewrite E1 in R.
      exfalso; exact (interrupt_not_lines _ _ _ R).
    + split; [discriminate|]; split; [left; reflexivity|]; left.
      rewrite E1 in R; destruct (interrupt_place _ _ _ _ R) as [_ <-].
      split; [reflexivity|]; split; [reflexivity|].
      exists (stdout w1); reflexivity.
  - contradiction.
Qed.

Lemma interrupt_ends_gracefully_witness :
  fst (run_interactive (Some 0) "scores.json"
         (sample_world 2 [Line "2"; Line "x"; Line "9"; Interrupt; Line "3"]))
  <> Raise KeyboardInterrupt.
Proof.
  exact (proj1 (interrupt_ends_gracefully (Some 0) "scores.json"
                  (sample_world 2 [Line "2"; Line "x"; Line "9"; Interrupt; Line "3"])
                  ["2"; "x"; "9"] [Line "3"] eq_refl)).
Defined.

(** X9.  [EOFError] is never caught: it leaves [run_interactive]
    exactly when a prompt finds the input exhausted.  With no input at
    all the run ends so at the first menu; and whenever a run ends by
    [EOFError], every line of the input has been read and no interrupt
    was among them. *)
Theorem input_exhausted_is_eof (seed : option Z) (score_file : string) (w : world) :
  let r := run_interactive seed score_file w in
  (stdin w = [] -> fst r = Raise EOFError)
  /\ (fst r = Raise EOFError ->
        stdin (snd r) = [] /\ exists ls, stdin w = map Line ls).
Proof.
  intros r; subst r; rewrite run_interactive_start; unfold try_except.
  set (L := while_true (round score_file) (first_rng seed w, loaded score_file w)).
  assert (E1 : stdin (opened seed w) = stdin w) by (destruct seed; reflexivity).
  destruct (reads_while (round score_file) (first_rng seed w, loaded score_file w)
              (reads_round score_file) (opened seed w)) as [ls' R].
  destruct (strict_while_true (round score_file) (round_strict score_file)
              (first_rng seed w, loaded score_file w) (opened seed w)) as (NF & _ & ST).
  fold L in R, NF, ST; unfold pending in ST; rewrite E1 in R, ST.
  destruct (L (opened seed w)) as [[[]|e|] w1]; simpl in *.
  - split; [|discriminate].
    intros E; rewrite E in ST; simpl in ST.
    assert (X : (List.length (stdin w1) < 0)%nat) by (apply ST; discriminate); lia.
  - destruct e; simpl.
    + split; [|discriminate].
      intros E; rewrite E in ST; simpl in ST.
      assert (X : (List.length (stdin w1) < 0)%nat) by (apply ST; discriminate); lia.
    + destruct R as [R1 R2]; split; [reflexivity|].
      intros _; split; [exact R2 | exists ls'; exact R1].
    + split; [|discriminate].
      intros E; rewrite E in R; destruct ls'; discriminate R.
  - contradiction.
Qed.

Lemma input_exhausted_is_eof_witness :
  fst (run_interactive None "scores.json" (sample_world 2 [])) = Raise EOFError.
Proof.
  exact (proj1 (input_exhausted_is_eof None "scores.json" (sample_world 2 [])) eq_refl).
Defined.

(** ** Where [ValueError] can come from *)

















(** ** Numerals and the keys of custom ranges *)

Lemma numeral_char_facts c :
  numeral_char c = true ->
  Py.int_space c = false /\ Py.is_underscore c = false.
Proof.
  destruct c as [[] [] [] [] [] [] [] []]; intros H;
    try discriminate H; split; reflexivity.
Qed.

Lemma uint_chars l :
  Forall (fun c => numeral_char c = true) (Json.chars (NilEmpty.string_of_uint l)).
Proof. induction l; simpl; constructor; try reflexivity; assumption. Qed.

Lemma str_chars n :
  Forall (fun c => numeral_char c = true) (Json.chars (Py.str_of_int n)).
Proof.
  destruct n as [|p|p].
  - constructor; [reflexivity | constructor].
  - change (Json.chars (Py.str_of_int (Z.pos p))) with (Json.dump_int (Z.pos p)).
    rewrite dump_int_pos; apply uint_chars.
  - change (Json.chars (Py.str_of_int (Z.neg p))) with (Json.dump_int (Z.neg p)).
    rewrite dump_int_neg; constructor; [reflexivity | apply uint_chars].
Qed.

Lemma drop_while_none p l :
  Forall (fun c => p c = false) l -> Py.drop_while p l = l.
Proof. intros H; destruct H as [|c l Hc _]; simpl; [|rewrite Hc]; reflexivity. Qed.

Lemma trim_none p l : Forall (fun c => p c = false) l -> Py.trim p l = l.
Proof.
  intros H; unfold Py.trim; rewrite (drop_while_none p l H).
  rewrite drop_while_none; [apply rev_involutive|].
  apply Forall_rev; exact H.
Qed.

Lemma digits_tail_step c d acc l :
  Py.digit_of c = Some d -> Py.is_underscore c = false ->
  Py.digits_tail acc false (c :: l) = Py.digits_tail (10 * acc + d) false l.
Proof. intros H U; simpl; rewrite U, H; reflexivity. Qed.

Ltac digit_tail_case IH acc k :=
  rewrite (digits_tail_step _ (Z.pos k)) by reflexivity;
  replace (10 * Z.pos acc + Z.pos k) with (Z.pos (k + 10 * acc)) by lia;
  apply IH.

Lemma digits_tail_uint l : forall acc,
  Py.digits_tail (Z.pos acc) false (Json.chars (NilEmpty.string_of_uint l))
  = Some (Z.pos (Pos.of_uint_acc l acc)).
Proof.
  induction l; intros acc;
    cbn [NilEmpty.string_of_uint Json.chars list_ascii_of_string Pos.of_uint_acc];
    try change (list_ascii_of_string (NilEmpty.string_of_uint l))
          with (Json.chars (NilEmpty.string_of_uint l)).
  - reflexivity.
  - rewrite (digits_tail_step _ 0) by reflexivity.
    replace (10 * Z.pos acc + 0) with (Z.pos (10 * acc)) by lia; apply IHl.
  - digit_tail_case IHl acc 1%positive.
  - digit_tail_case IHl acc 2%positive.
  - digit_tail_case IHl acc 3%positive.
  - digit_tail_case IHl acc 4%positive.
  - digit_tail_case IHl acc 5%positive.
  - digit_tail_case IHl acc 6%positive.
  - digit_tail_case IHl acc 7%positive.
  - digit_tail_case IHl acc 8%positive.
  - digit_tail_case IHl acc 9%positive.
Qed.

(** [int(str(n)) == n] *)
Lemma int_of_str_of_int n : Py.int_of_str (Py.str_of_int n) = Some n.
Proof.
  unfold Py.int_of_str.
  change (list_ascii_of_string (Py.str_of_int n)) with (Json.chars (Py.str_of_int n)).
  rewrite trim_none.
  2:{ eapply Forall_impl; [|apply str_chars].
      intros c Hc; apply numeral_char_facts; exact Hc. }
  destruct n as [|p|p]; [reflexivity | |].
  - change (Json.chars (Py.str_of_int (Z.pos p))) with (Json.dump_int (Z.pos p)).
    rewrite dump_int_pos.
    pose proof (DecimalPos.Unsigned.of_to p) as V.
    pose proof (to_uint_head p) as H0.
    destruct (Pos.to_uint p) as [|l|l|l|l|l|l|l|l|l|l] eqn:D;
      [exfalso; exact (DecimalPos.Unsigned.to_uint_nonnil p D)
      | exfalso; exact (H0 l eq_refl) | ..];
      cbn [Pos.of_uint] in V; inversion V as [V']; clear V;
      cbn [NilEmpty.string_of_uint Json.chars list_ascii_of_string];
      change (list_ascii_of_string (NilEmpty.string_of_uint l))
        with (Json.chars (NilEmpty.string_of_uint l));
      unfold Py.signed_digits, Py.digits; cbn [Py.ord Py.digit_of];
      match goal with
      | |- context [Pos.of_uint_acc l ?k] => exact (digits_tail_uint l k)
      end.
  - change (Json.chars (Py.str_of_int (Z.neg p))) with (Json.dump_int (Z.neg p)).
    rewrite dump_int_neg.
    pose proof (DecimalPos.Unsigned.of_to p) as V.
    pose proof (to_uint_head p) as H0.
    destruct (Pos.to_uint p) as [|l|l|l|l|l|l|l|l|l|l] eqn:D;
      [exfalso; exact (DecimalPos.Unsigned.to_uint_nonnil p D)
      | exfalso; exact (H0 l eq_refl) | ..];
      cbn [Pos.of_uint] in V; inversion V as [V']; clear V;
      cbn [NilEmpty.string_of_uint Json.chars list_ascii_of_string];
      change (list_ascii_of_string (NilEmpty.string_of_uint l))
        with (Json.chars (NilEmpty.string_of_uint l));
      unfold Py.signed_digits, Py.digits;
      match goal with
      | |- context [Pos.of_uint_acc l ?k] =>
          change (Some (Z.neg (Pos.of_uint_acc l k)))
            with (option_map Z.opp (Some (Z.pos (Pos.of_uint_acc l k))));
          rewrite <- (digits_tail_uint l k)
      end; reflexivity.
Qed.

Lemma underscore_split s : forall s' t t',
  Forall (fun c => numeral_char c = true) (Json.chars s) ->
  Forall (fun c => numeral_char c = true) (Json.chars s') ->
  s +++ String "_" t = s' +++ String "_" t' -> s = s' /\ t = t'.
Proof.
  induction s as [|c s IH]; intros s' t t' Hs Hs' H; destruct s' as [|c' s'];
    cbn [String.append] in H.
  - inversion H; split; reflexivity.
  - inversion H; subst c'; inversion Hs' as [|? ? X _]; discriminate X.
  - inversion H; subst c; inversion Hs as [|? ? X _]; discriminate X.
  - inversion H; subst c'.
    inversion Hs; inversion Hs'; subst.
    destruct (IH s' t t') as [-> ->]; try assumption; split; reflexivity.
Qed.

Lemma str_of_int_inj a b : Py.str_of_int a = Py.str_of_int b -> a = b.
Proof.
  intros H; pose proof (int_of_str_of_int a) as A.
  rewrite H, int_of_str_of_int in A; congruence.
Qed.

Lemma select_level_custom w c smin smax rest lo hi :
  stdin w = Line c :: Line smin :: Line smax :: rest ->
  Py.strip c = "4" ->
  Py.int_of_str (Py.strip smin) = Some lo ->
  Py.int_of_str (Py.strip smax) = Some hi ->
  lo <= hi ->
  select_level w
  = (Ok (Selected (mkLevel "Custom" lo hi None) (custom_key lo hi)),
     set_stdin rest
       (logged [Asked prompt_choice; Asked prompt_minimum; Asked prompt_maximum] w)).
Proof.
  intros E Hc Hlo Hhi Hle.
  assert (G : (lo >? hi) = false) by (rewrite Z.gtb_ltb; apply Z.ltb_ge; exact Hle).
  destruct w as [inp out files en sp sd]; simpl in E; subst inp.
  unfold select_level, bind, input_fn, int_; simpl.
  rewrite Hc; simpl; rewrite Hlo; simpl; rewrite Hhi; simpl; rewrite G; simpl.
  unfold logged, set_stdin, set_stdout, custom_key, str; simpl.
  list_norm; reflexivity.
Qed.

(** X11.  A custom range with [lo <= hi] is played as the level from
    [lo] to [hi] without attempt limit and scored under the key built
    from its two bounds.  Different ranges get different keys, and no
    such key is one of the menu choices, so the best scores of custom
    ranges mix neither with each other nor with those of the presets. *)
Theorem custom_keys_are_distinct (lo hi : Z) :
  (forall w c smin smax rest,
     stdin w = Line c :: Line smin :: Line smax :: rest ->
     Py.strip c = "4" ->
     Py.int_of_str (Py.strip smin) = Some lo ->
     Py.int_of_str (Py.strip smax) = Some hi ->
     lo <= hi ->
     fst (select_level w)
     = Ok (Selected (mkLevel "Custom" lo hi None) (custom_key lo hi)))
  /\ (forall lo' hi', custom_key lo hi = custom_key lo' hi' -> lo = lo' /\ hi = hi')
  /\ Dict.get (custom_key lo hi) difficulty_presets = None
  /\ custom_key lo hi <> "4".
Proof.
  split; [|split; [|split]].
  - intros w c smin smax rest E Hc Hlo Hhi Hle.
    rewrite (select_level_custom w c smin smax rest lo hi E Hc Hlo Hhi Hle); reflexivity.
  - intros lo' hi' H; unfold custom_key in H; cbn [String.append] in H.
    inversion H as [H'].
    destruct (underscore_split _ _ _ _ (str_chars lo) (str_chars lo') H') as [A B].
    split; apply str_of_int_inj; assumption.
  - reflexivity.
  - discriminate.
Qed.

Lemma custom_keys_are_distinct_witness :
  fst (select_level (sample_world 0 [Line "4"; Line "-3"; Line " 12 "; Line "5"]))
  = Ok (Selected (mkLevel "Custom" (-3) 12 None) (custom_key (-3) 12)).
Proof.
  exact (proj1 (custom_keys_are_distinct (-3) 12)
           (sample_world 0 [Line "4"; Line "-3"; Line " 12 "; Line "5"])
           "4" "-3" " 12 " [Line "5"] eq_refl eq_refl eq_refl eq_refl ltac:(lia)).
Defined.

(** ** The score file during a run *)

(** X12.  A new best score is on disk at once.  When a won session
    beats the record under its key and the score file can be written
    and read, loading the file right after the update gives the updated
    record, with the winning attempt count under that key: a later run
    of the program starts from it. *)
Theorem new_best_is_on_disk (score_file : string) (lv : level) (key : string)
    (a : Z) (best : scores) (w : world) :
  NoDup (map fst best) ->
  usable (fs w score_file) ->
  improves key a true best = true ->
  let w' := snd (update_best score_file lv key a true best w) in
  safe_load_scores score_file w' = (Ok (Dict.set key a best), w')
  /\ loaded score_file w' = Dict.set key a best
  /\ Dict.get key (loaded score_file w') = Some a.
Proof.
  intros ND U I w'.
  assert (ND' : NoDup (map fst (Dict.set key a best))) by (apply set_nodup; exact ND).
  assert (F : fs w' score_file = Stored true true (Json.dumps (Dict.set key a best))).
  { unfold w'; rewrite (update_best_improving _ _ _ _ _ _ _ I); simpl.
    unfold safe_save_scores; destruct U as [U|[old U]]; rewrite U; simpl;
      unfold write_file; rewrite String.eqb_refl; reflexivity. }
  assert (L : load_scores (fs w' score_file) = Some (Dict.set key a best)).
  { rewrite F; unfold load_scores; rewrite (loads_dumps _ ND'); cbn [items_of].
    apply (int_items_as_items _ [] ND'). }
  split; [unfold safe_load_scores; rewrite L; reflexivity|].
  split; [unfold loaded; rewrite L; reflexivity|].
  unfold loaded; rewrite L; apply get_set_same.
Qed.

Lemma new_best_is_on_disk_witness :
  loaded "scores.json"
    (snd (update_best "scores.json" (mkLevel "Hard" 1 50 (Some 5)) "3" 2 true
            [("1", 3); ("3", 4)] (sample_world 0 [])))
  = [("1", 3); ("3", 2)].
Proof.
  refine (proj1 (proj2 (new_best_is_on_disk "scores.json" (mkLevel "Hard" 1 50 (Some 5))
                          "3" 2 [("1", 3); ("3", 4)] (sample_world 0 []) _ _ eq_refl))).
  - constructor; [intros [H|[]]; discriminate H|].
    constructor; [intros [] | constructor].
  - left; reflexivity.
Defined.

Lemma writes_only_console {A} path (c : M A) : console_only c -> writes_only path c.
Proof. intros H w; destruct (H w) as [S F]; split; [exact S | intros; rewrite F; reflexivity]. Qed.

Lemma writes_only_bind {A B} path (c : M A) (k : A -> M B) :
  writes_only path c -> (forall a, writes_only path (k a)) -> writes_only path (bind c k).
Proof.
  intros Hc Hk w; unfold bind; destruct (Hc w) as [S1 F1].
  destruct (c w) as [[a|e|] w1]; simpl in *; try (split; assumption).
  destruct (Hk a w1) as [S2 F2]; split; [congruence|].
  intros p Hp; rewrite F2, F1 by assumption; reflexivity.
Qed.

Lemma writes_only_try {A} path (c h : M A) e :
  writes_only path c -> writes_only path h -> writes_only path (try_except c e h).
Proof.
  intros Hc Hh w; unfold try_except; destruct (Hc w) as [S1 F1].
  destruct (c w) as [[a|e'|] w1]; simpl in *; try (split; assumption).
  destruct (exn_eqb e e'); [|split; assumption].
  destruct (Hh w1) as [S2 F2]; split; [congruence|].
  intros p Hp; rewrite F2, F1 by assumption; reflexivity.
Qed.

Lemma writes_only_loop {S A} path (body : S -> M (S + A)) n :
  (forall s, writes_only path (body s)) -> forall s, writes_only path (loop n body s).
Proof.
  intros Hb; induction n as [|n IH]; intros s;
    [intros w; split; [reflexivity | intros; reflexivity]|].
  simpl; apply writes_only_bind; [apply Hb|].
  intros [s'|a]; [apply IH | apply writes_only_console, console_only_ret].
Qed.

Lemma writes_only_save record path : writes_only path (safe_save_scores record path).
Proof.
  intros w; unfold safe_save_scores.
  destruct (fs w path) as [[|]|rd [|] text]; simpl; split; try reflexivity;
    intros p Hp; unfold write_file; apply String.eqb_neq in Hp; rewrite Hp; reflexivity.
Qed.

Lemma console_only_for_each {A} (l : list A) (f : A -> M unit) :
  (forall x, console_only (f x)) -> console_only (for_each l f).
Proof.
  intros H; induction l as [|x l IH]; simpl; [apply console_only_ret|].
  apply console_only_bind; [apply H | intros; exact IH].
Qed.

Lemma console_only_get_yes_no prompt : console_only (get_yes_no prompt).
Proof.
  apply console_only_while; intros u; unfold ask_round.
  apply console_only_bind; [apply console_only_input | intros raw].
  destruct (str_in _ _); [apply console_only_ret|].
  destruct (str_in _ _); [apply console_only_ret|].
  apply console_only_bind; [apply console_only_output | intros; apply console_only_ret].
Qed.

Lemma console_only_farewell best : console_only (farewell best).
Proof.
  unfold farewell; apply console_only_bind; [apply console_only_output | intros _].
  destruct best; [apply console_only_ret|].
  apply console_only_bind; [apply console_only_output | intros _].
  apply console_only_for_each; intros; apply console_only_output.
Qed.

Lemma console_only_select_level : console_only select_level.
Proof.
  assert (I : forall raw, console_only (int_ raw)).
  { intros raw; unfold int_; destruct (Py.int_of_str raw);
      [apply console_only_ret | apply console_only_raise]. }
  unfold select_level; apply console_only_bind; [apply console_only_input | intros raw].
  destruct (String.eqb (Py.strip raw) "4").
  - apply console_only_bind; [apply console_only_input | intros raw_min].
    apply console_only_bind; [apply I | intros min_v].
    apply console_only_bind; [apply console_only_input | intros raw_max].
    apply console_only_bind; [apply I | intros max_v].
    destruct (min_v >? max_v); [|apply console_only_ret].
    apply console_only_bind; [apply console_only_output | intros; apply console_only_ret].
  - destruct (Dict.get (Py.strip raw) difficulty_presets); [apply console_only_ret|].
    apply console_only_bind; [apply console_only_output | intros; apply console_only_ret].
Qed.

Lemma writes_only_update_best f lv key a won best :
  writes_only f (update_best f lv key a won best).
Proof.
  unfold update_best; destruct won.
  - destruct (Dict.get key best) as [prev|]; [destruct (a <? prev)|];
      repeat (apply writes_only_bind;
              [first [apply writes_only_save
                     | apply writes_only_console, console_only_output] | intros]);
      apply writes_only_console, console_only_ret.
  - apply writes_only_console, console_only_bind;
      [apply console_only_output | intros; apply console_only_ret].
Qed.

Lemma writes_only_round f st : writes_only f (round f st).
Proof.
  destruct st as [rng best]; unfold round.
  apply writes_only_bind.
  { apply writes_only_console; unfold show_menu.
    apply console_only_bind; [apply console_only_output | intros _].
    apply console_only_bind; [|intros; apply console_only_output].
    apply console_only_for_each; intros; apply console_only_output. }
  intros _; apply writes_only_bind;
    [apply writes_only_console, console_only_select_level | intros sel].
  destruct sel as [lv key|]; [|apply writes_only_console, console_only_ret].
  apply writes_only_bind;
    [apply writes_only_console, play_game_supplied_console_only | intros p].
  apply writes_only_bind; [apply writes_only_update_best | intros best'].
  apply writes_only_bind;
    [apply writes_only_console, console_only_get_yes_no | intros again].
  destruct again; apply writes_only_console; [apply console_only_ret|].
  apply console_only_bind; [apply console_only_farewell | intros; apply console_only_ret].
Qed.

(** X13.  A whole run of [run_interactive] writes no file but the score
    file, and plays all its sessions with one generator: it creates
    exactly one when no seed is given and none when a seed is given. *)
Theorem run_touches_only_the_score_file (seed : option Z) (score_file : string)
    (w : world) :
  let w' := snd (run_interactive seed score_file w) in
  (forall p, p <> score_file -> fs w' p = fs w p)
  /\ spawned w' = match seed with
                  | Some _ => spawned w
                  | None => S (spawned w)
                  end.
Proof.
  intros w'; subst w'; rewrite run_interactive_start.
  destruct (writes_only_try score_file
              (while_true (round score_file) (first_rng seed w, loaded score_file w))
              (output_fn msg_interrupted) KeyboardInterrupt
              (fun w0 => writes_only_loop score_file (round score_file) _
                           (writes_only_round score_file) _ w0)
              (writes_only_console _ _ (console_only_output msg_interrupted))
              (opened seed w)) as [S F].
  split.
  - intros p Hp; rewrite (F p Hp); destruct seed; reflexivity.
  - rewrite S; destruct seed; reflexivity.
Qed.

Lemma run_touches_only_the_score_file_witness :
  fs (snd (run_interactive (Some 3) "scores.json"
             (sample_world 2 [Line "1"; Line "3"; Line "n"]))) "notes.txt"
  = Missing true.
Proof.
  exact (proj1 (run_touches_only_the_score_file (Some 3) "scores.json"
                  (sample_world 2 [Line "1"; Line "3"; Line "n"]))
           "notes.txt" ltac:(discriminate)).
Defined.

(** ** A whole round *)

Lemma preset_range k lv :
  Dict.get k difficulty_presets = Some lv -> min lv <= max lv.
Proof.
  unfold difficulty_presets, Dict.get.
  destruct (String.eqb k "1"); [intros H; inversion H; simpl; lia|].
  destruct (String.eqb k "2"); [intros H; inversion H; simpl; lia|].
  destruct (String.eqb k "3"); [intros H; inversion H; simpl; lia|].
  discriminate.
Qed.

Lemma select_level_preset w c rest lv :
  stdin w = Line c :: rest ->
  Dict.get (Py.strip c) difficulty_presets = Some lv ->
  select_level w
  = (Ok (Selected lv (Py.strip c)), set_stdin rest (logged [Asked prompt_choice] w)).
Proof.
  intros E G.
  assert (N : String.eqb (Py.strip c) "4" = false).
  { destruct (String.eqb_spec (Py.strip c) "4") as [X|X]; [|reflexivity].
    rewrite X in G; discriminate G. }
  destruct w as [inp out files en sp sd]; simpl in E; subst inp.
  unfold select_level, bind, input_fn; cbn -[Dict.get difficulty_presets].
  rewrite N, G; reflexivity.
Qed.

(** The part of a round after the session: score update, the question
    whether to play again, and the farewell. *)
Lemma after_session score_file lv key p best w ans rest b :
  stdin w = Line ans :: rest ->
  answer ans = Some b ->
  let k := (best' <- update_best score_file lv key (attempts_used p) (won p) best ;;
            again <- get_yes_no prompt_play_again ;;
            if again then continue_ (rng_after p, best')
            else farewell best' ;;; return_ tt) in
  let best' := if improves key (attempts_used p) (won p) best
               then Dict.set key (attempts_used p) best else best in
  fst (k w) = Ok (if b then inl (rng_after p, best') else inr tt)
  /\ stdin (snd (k w)) = rest
  /\ fs (snd (k w))
     = fs (snd (update_best score_file lv key (attempts_used p) (won p) best w)).
Proof.
  intros E Ha k best'; subst k.
  destruct (update_best_silent score_file lv key (attempts_used p) (won p) best w)
    as [[d Hd] Hs].
  assert (D : d = best').
  { unfold best'; destruct (improves key (attempts_used p) (won p) best) eqn:I.
    - rewrite (update_best_improving _ _ _ _ _ _ _ I) in Hd; inversion Hd; reflexivity.
    - destruct (update_best_otherwise score_file lv key (attempts_used p) (won p) best w I)
        as [R _]; rewrite Hd in R; inversion R; reflexivity. }
  unfold bind.
  destruct (update_best score_file lv key (attempts_used p) (won p) best w) as [r w1] eqn:U;
    simpl in Hd, Hs; subst r d.
  rewrite E in Hs.
  pose proof (get_yes_no_accept prompt_play_again w1 ans rest b Hs Ha) as Y.
  cbv beta iota; rewrite Y.
  destruct b; [destruct w1; split; [|split]; reflexivity|].
  destruct (farewell_silent best' (set_stdin rest (logged [Asked prompt_play_again] w1)))
    as [[u Hu] Hs'].
  destruct (console_only_farewell best'
              (set_stdin rest (logged [Asked prompt_play_again] w1))) as [_ Hf].
  destruct (farewell best' (set_stdin rest (logged [Asked prompt_play_again] w1)))
    as [r w2]; simpl in Hu, Hs', Hf; subst r.
  cbn [fst snd ret return_].
  split; [reflexivity|]; split; [rewrite Hs'; destruct w1; reflexivity|].
  rewrite Hf; destruct w1; reflexivity.
Qed.

(** The file system after the score update depends on the file system
    before it only. *)
Lemma update_best_fs score_file lv key a won best w1 w2 :
  fs w1 = fs w2 ->
  fs (snd (update_best score_file lv key a won best w1))
  = fs (snd (update_best score_file lv key a won best w2)).
Proof.
  intros F; destruct (improves key a won best) eqn:I.
  - rewrite !(update_best_improving _ _ _ _ _ _ _ I); simpl.
    unfold safe_save_scores; rewrite F.
    destruct (fs w2 score_file) as [[|]|rd [|] text]; simpl; rewrite ?F; reflexivity.
  - destruct (update_best_otherwise score_file lv key a won best w1 I) as [_ ->].
    destruct (update_best_otherwise score_file lv key a won best w2 I) as [_ ->].
    exact F.
Qed.

(** A round in which a preset is chosen and the session returns. *)
Lemma preset_round score_file rng best w c lv inp p w3 ans rest b :
  stdin w = Line c :: inp ->
  Dict.get (Py.strip c) difficulty_presets = Some lv ->
  play_game (min lv) (max lv) (attempts lv) (Some rng)
    (set_stdin inp (logged (menu_log ++ [Asked prompt_choice]) w)) = (Ok p, w3) ->
  stdin w3 = Line ans :: rest ->
  answer ans = Some b ->
  let best' := if improves (Py.strip c) (attempts_used p) (won p) best
               then Dict.set (Py.strip c) (attempts_used p) best else best in
  let r := round score_file (rng, best) w in
  fst r = Ok (if b then inl (rng_after p, best') else inr tt)
  /\ stdin (snd r) = rest
  /\ fs (snd r)
     = fs (snd (update_best score_file lv (Py.strip c) (attempts_used p) (won p) best w)).
Proof.
  intros E G P E3 Ha best' r; subst r.
  assert (E1 : stdin (logged menu_log w) = Line c :: inp) by exact E.
  assert (W : set_stdin inp (logged [Asked prompt_choice] (logged menu_log w))
              = set_stdin inp (logged (menu_log ++ [Asked prompt_choice]) w)).
  { destruct w; unfold logged, set_stdin, set_stdout; simpl; list_norm; reflexivity. }
  unfold round; rewrite (bind_ok _ _ _ _ _ (show_menu_log w)).
  rewrite (bind_ok _ _ _ _ _ (select_level_preset _ c inp lv E1 G)), W.
  rewrite (bind_ok _ _ _ _ _ P).
  destruct (after_session score_file lv (Py.strip c) p best w3 ans rest b E3 Ha)
    as (A & B & C).
  split; [exact A|]; split; [exact B|].
  rewrite C; apply update_best_fs.
  destruct (play_game_supplied_console_only (min lv) (max lv) (attempts lv) rng
              (set_stdin inp (logged (menu_log ++ [Asked prompt_choice]) w))) as [_ F].
  rewrite P in F; simpl in F; rewrite F; destruct w; reflexivity.
Qed.

(** X14.  A round won on a preset.  When the player picks a preset,
    makes wrong guesses that stay below the attempt limit of the level,
    then guesses the secret, and answers the question whether to play
    again, the round counts one attempt per validated guess; it updates
    and saves the record exactly as the score update prescribes for
    that count under the key of the preset; it reads nothing beyond the
    answer; and it goes on with the generator after one draw (answer
    yes) or ends the loop (answer no). *)
Theorem preset_round_won (score_file : string) (rng : Random) (best : scores)
    (w : world) (c : string) (lv : level) (ts : list turn) (t : turn)
    (ans : string) (rest : list input_event) (b : bool) :
  let secret := secret_of rng (min lv) (max lv) in
  let k := Z.of_nat (List.length ts) + 1 in
  stdin w = Line c :: flat_map turn_input ts ++ turn_input t ++ Line ans :: rest ->
  Dict.get (Py.strip c) difficulty_presets = Some lv ->
  forallb (wrong_turn (min lv) (max lv) secret) ts = true ->
  match attempts lv with Some m => k <= m | None => True end ->
  valid_turn (min lv) (max lv) t = true ->
  guess_of (min lv) (max lv) t = secret ->
  answer ans = Some b ->
  let best' := if improves (Py.strip c) k true best
               then Dict.set (Py.strip c) k best else best in
  let r := round score_file (rng, best) w in
  fst r = Ok (if b then inl (drawn_from rng (min lv) (max lv), best') else inr tt)
  /\ stdin (snd r) = rest
  /\ fs (snd r) = fs (snd (update_best score_file lv (Py.strip c) k true best w)).
Proof.
  intros secret k E G Hw Hl Hv Hg Ha best' r; subst r.
  set (w2 := set_stdin (flat_map turn_input ts ++ turn_input t ++ Line ans :: rest)
               (logged (menu_log ++ [Asked prompt_choice]) w)).
  assert (P : exists w3,
             play_game (min lv) (max lv) (attempts lv) (Some rng) w2
             = (Ok (mkPlayed k true (drawn_from rng (min lv) (max lv))), w3)
             /\ stdin w3 = Line ans :: rest).
  { rewrite play_game_start by (eapply preset_range; exact G).
    cbn [source_of]; fold secret.
    rewrite (session_misses (min lv) (max lv) (attempts lv) secret _ ts 0 _
               (turn_input t ++ Line ans :: rest) Hw);
      [| destruct (attempts lv); [unfold k in Hl; lia | exact I] | reflexivity].
    rewrite (session_win (min lv) (max lv) (attempts lv) secret _ _ t _
               (Line ans :: rest) Hv Hg); [|reflexivity].
    eexists; split; [unfold k; rewrite Z.add_0_l; reflexivity | reflexivity]. }
  destruct P as (w3 & P & E3).
  exact (preset_round score_file rng best w c lv _ _ w3 ans rest b E G P E3 Ha).
Qed.

Lemma preset_round_won_witness :
  fst (round "scores.json" (mkRandom (fun _ _ => 2) [], [("2", 4)])
         (sample_world 0 [Line "2"; Line "x"; Line "9"; Line "3"; Line "no"; Line "1"]))
  = Ok (inr tt).
Proof.
  exact (proj1 (preset_round_won "scores.json" (mkRandom (fun _ _ => 2) []) [("2", 4)]
                  (sample_world 0 [Line "2"; Line "x"; Line "9"; Line "3"; Line "no"; Line "1"])
                  "2" (mkLevel "Medium" 1 20 (Some 7)) [(["x"], "9")] ([], "3")
                  "no" [Line "1"] false
                  eq_refl eq_refl eq_refl ltac:(cbv; discriminate) eq_refl eq_refl eq_refl)).
Defined.

(** X15.  A round lost on a preset.  When the player picks a preset
    with an attempt limit and uses it up with wrong guesses, the round
    leaves the score record and the file system as they were, reads
    nothing beyond the answer to the question whether to play again,
    and goes on (answer yes) or ends the loop (answer no). *)
Theorem preset_round_lost (score_file : string) (rng : Random) (best : scores)
    (w : world) (c : string) (lv : level) (m : Z) (ts : list turn)
    (ans : string) (rest : list input_event) (b : bool) :
  let secret := secret_of rng (min lv) (max lv) in
  stdin w = Line c :: flat_map turn_input ts ++ Line ans :: rest ->
  Dict.get (Py.strip c) difficulty_presets = Some lv ->
  attempts lv = Some m ->
  Z.of_nat (List.length ts) = m ->
  forallb (wrong_turn (min lv) (max lv) secret) ts = true ->
  answer ans = Some b ->
  let r := round score_file (rng, best) w in
  fst r = Ok (if b then inl (drawn_from rng (min lv) (max lv), best) else inr tt)
  /\ stdin (snd r) = rest
  /\ fs (snd r) = fs w.
Proof.
  intros secret E G Hm Hlen Hw Ha r; subst r.
  assert (M : 0 < m).
  { revert G Hm; unfold difficulty_presets, Dict.get.
    destruct (String.eqb (Py.strip c) "1"); [intros H; inversion H; discriminate|].
    destruct (String.eqb (Py.strip c) "2");
      [intros H X; inversion H; subst lv; inversion X; lia|].
    destruct (String.eqb (Py.strip c) "3");
      [intros H X; inversion H; subst lv; inversion X; lia|].
    discriminate. }
  set (w2 := set_stdin (flat_map turn_input ts ++ Line ans :: rest)
               (logged (menu_log ++ [Asked prompt_choice]) w)).
  assert (P : exists w3,
             play_game (min lv) (max lv) (attempts lv) (Some rng) w2
             = (Ok (mkPlayed m false (drawn_from rng (min lv) (max lv))), w3)
             /\ stdin w3 = Line ans :: rest).
  { rewrite play_game_start by (eapply preset_range; exact G).
    cbn [source_of]; fold secret.
    rewrite (session_limit (min lv) (max lv) (attempts lv) secret _ ts 0 _
               (Line ans :: rest) m);
      [| destruct ts; [simpl in Hlen; lia | discriminate] | exact Hw | exact Hm
       | lia | reflexivity].
    eexists; split; reflexivity. }
  destruct P as (w3 & P & E3).
  destruct (preset_round score_file rng best w c lv _ _ w3 ans rest b E G P E3 Ha)
    as (A & B & C).
  cbn [attempts_used won rng_after] in A, C.
  split; [exact A|]; split; [exact B|].
  rewrite C.
  destruct (update_best_otherwise score_file lv (Py.strip c) m false best w eq_refl)
    as [_ F]; exact F.
Qed.

Lemma preset_round_lost_witness :
  fst (round "scores.json" (mkRandom (fun _ _ => 2) [], [("3", 4)])
         (sample_world 0 [Line "3"; Line "9"; Line "8"; Line "7"; Line "6"; Line "5";
                          Line "y"]))
  = Ok (inl (mkRandom (fun _ _ => 2) [50], [("3", 4)])).
Proof.
  exact (proj1 (preset_round_lost "scores.json" (mkRandom (fun _ _ => 2) []) [("3", 4)]
                  (sample_world 0 [Line "3"; Line "9"; Line "8"; Line "7"; Line "6";
                                   Line "5"; Line "y"])
                  "3" (mkLevel "Hard" 1 50 (Some 5)) 5
                  [([], "9"); ([], "8"); ([], "7"); ([], "6"); ([], "5")]
                  "y" [] true
                  eq_refl eq_refl eq_refl eq_refl eq_refl eq_refl)).
Defined.

(** ** The one-file variant *)

Example guess_the_number_game_example :
  let r := guess_the_number_game (sample_world 2 [Line "x"; Line "100"; Line "1"; Line "3"; Line "4"]) in
  fst r = Ok tt /\ stdin (snd r) = [Line "4"]
  /\ last (stdout (snd r)) (Said "") = Said (legacy_done 3 3).
Proof. vm_compute; repeat split. Qed.

Lemma legacy_body_strict r s :
  strict (s' <- legacy_round r s ;;
          if negb (fst s' =? r) then continue_ s' else return_ s').
Proof.
  destruct s as [a g].
  assert (Q : forall s' : Z * Z,
             quiet (if negb (fst s' =? r) then @continue_ (Z * Z) (Z * Z) s'
                    else return_ s')).
  { intros s'; destruct (negb (fst s' =? r)); apply silent_quiet, silent_ret. }
  apply strict_bind; [|exact Q].
  unfold legacy_round; apply strict_try_except; [discriminate | |].
  - apply strict_bind; [apply strict_input | intros raw].
    apply quiet_bind; [apply quiet_int_ | intros v].
    apply silent_quiet, silent_bind; [|intros; apply silent_ret].
    destruct (v >? r); [apply silent_output|].
    destruct (v <? r); [apply silent_output | apply silent_ret].
  - apply silent_quiet, silent_bind; [apply silent_output | intros; apply silent_ret].
Qed.

(** A line that is no numeral: the complaint, and the same state. *)
Lemma legacy_step_bad r a g w l rest :
  stdin w = Line l :: rest -> Py.int_of_str l = None -> a <> r ->
  legacy_loop r (a, g) w
  = legacy_loop r (a, g)
      (set_stdin rest (logged [Asked (legacy_prompt g); Said legacy_wrong] w)).
Proof.
  intros E Hl Ha; unfold legacy_loop at 1.
  rewrite while_true_step by (intros; apply legacy_body_strict).
  destruct w as [inp out files en sp sd]; simpl in E; subst inp.
  unfold legacy_round, try_except, bind, input_fn, int_; simpl.
  rewrite Hl; simpl.
  apply Z.eqb_neq in Ha; rewrite Ha; simpl.
  unfold logged, set_stdin, set_stdout; simpl; list_norm; reflexivity.
Qed.

(** A numeral that is not the secret: one more guess. *)
Lemma legacy_step_miss r a g w l rest v :
  stdin w = Line l :: rest -> Py.int_of_str l = Some v -> v <> r ->
  exists w1,
    legacy_loop r (a, g) w = legacy_loop r (v, g + 1) w1 /\ stdin w1 = rest.
Proof.
  intros E Hl Hv; unfold legacy_loop at 1.
  rewrite while_true_step by (intros; apply legacy_body_strict).
  destruct w as [inp out files en sp sd]; simpl in E; subst inp.
  unfold legacy_round, try_except, bind, input_fn, int_; simpl.
  rewrite Hl; simpl.
  assert (N : (v =? r) = false) by (apply Z.eqb_neq; exact Hv).
  destruct (v >? r); simpl; [rewrite N; simpl; eexists; split; reflexivity|].
  destruct (v <? r); simpl; rewrite N; simpl; eexists; split; reflexivity.
Qed.

(** The secret: the loop ends with one more guess. *)
Lemma legacy_step_hit r a g w l rest :
  stdin w = Line l :: rest -> Py.int_of_str l = Some r ->
  legacy_loop r (a, g) w
  = (Ok (r, g + 1), set_stdin rest (logged [Asked (legacy_prompt g)] w)).
Proof.
  intros E Hl; unfold legacy_loop.
  rewrite while_true_step by (intros; apply legacy_body_strict).
  destruct w as [inp out files en sp sd]; simpl in E; subst inp.
  unfold legacy_round, try_except, bind, input_fn, int_; simpl.
  rewrite Hl; simpl.
  rewrite Z.gtb_ltb, Z.ltb_irrefl; simpl; rewrite Z.eqb_refl; reflexivity.
Qed.

Lemma numerals_cons l ls :
  numerals (l :: ls)
  = (if is_some (Py.int_of_str l) then 1 else 0) + numerals ls.
Proof.
  unfold numerals; simpl; destruct (is_some (Py.int_of_str l)); simpl List.length; lia.
Qed.

(** The loop over lines none of which is the secret, then the secret. *)
Lemma legacy_loop_counts r ls : forall a g w s rest,
  stdin w = map Line ls ++ Line s :: rest ->
  Forall (fun l => Py.int_of_str l <> Some r) ls ->
  Py.int_of_str s = Some r ->
  a <> r ->
  exists w1,
    legacy_loop r (a, g) w = (Ok (r, g + numerals ls + 1), w1) /\ stdin w1 = rest.
Proof.
  induction ls as [|l ls IH]; intros a g w s rest E Hls Hs Ha; simpl in E.
  - rewrite (legacy_step_hit r a g w s rest E Hs).
    eexists; split;
      [unfold numerals; simpl; rewrite Z.add_0_r; reflexivity | reflexivity].
  - inversion Hls as [|? ? Hl Hls']; subst.
    rewrite numerals_cons.
    destruct (Py.int_of_str l) as [v|] eqn:L; cbn [is_some].
    + destruct (legacy_step_miss r a g w l _ v E L) as (w1 & -> & E1); [congruence|].
      destruct (IH v (g + 1) w1 s rest E1 Hls' Hs) as (w2 & -> & E2); [congruence|].
      exists w2; split; [|exact E2].
      replace (g + (1 + numerals ls) + 1) with (g + 1 + numerals ls + 1) by lia.
      reflexivity.
    + rewrite (legacy_step_bad r a g w l _ E L Ha).
      match goal with |- context [legacy_loop r (a, g) ?w0] =>
        destruct (IH a g w0 s rest) as (w2 & -> & E2);
          [destruct w; reflexivity | exact Hls' | exact Hs | exact Ha |]
      end.
      exists w2; split; [|exact E2].
      rewrite Z.add_0_l; reflexivity.
Qed.

(** The whole script on lines none of which is the secret, then the
    secret. *)
Lemma legacy_run (w : world) (ls : list string) (s : string)
    (rest : list input_event) :
  let secret := secret_of (entropy w (spawned w)) 1 9 in
  stdin w = map Line ls ++ Line s :: rest ->
  Forall (fun l => Py.int_of_str l <> Some secret) ls ->
  Py.int_of_str s = Some secret ->
  exists w1,
    guess_the_number_game w = (Ok tt, w1) /\ stdin w1 = rest
    /\ exists evs, stdout w1
         = evs ++ [Said (legacy_done secret (numerals ls + 1))].
Proof.
  intros secret E Hls Hs.
  assert (R : 1 <= secret <= 9) by (apply secret_in_range; lia).
  unfold secret, secret_of in *.
  unfold guess_the_number_game, new_random, randint, bind.
  destruct (randbelow (entropy w (spawned w)) (9 - 1 + 1)) as [v rng'] eqn:RB.
  cbn [fst snd] in *.
  change (1 <=? 9) with true.
  cbv beta iota delta [ret output_fn while_]; cbn [fst].
  replace (negb (-1 =? 1 + v)) with true
    by (symmetry; apply negb_true_iff, Z.eqb_neq; lia).
  fold (legacy_loop (1 + v)).
  match goal with |- context [legacy_loop (1 + v) (-1, 0) ?w0] =>
    destruct (legacy_loop_counts (1 + v) ls (-1) 0 w0 s rest) as (w1 & L & E1);
      [destruct w; exact E | exact Hls | exact Hs | lia |]
  end.
  rewrite L; cbn [snd]; rewrite Z.add_0_l.
  eexists; split; [reflexivity|].
  split; [destruct w1; exact E1|].
  eexists; destruct w1; reflexivity.
Qed.

(** X16.  The one-file variant counts every line that [int] accepts as
    a guess, inside 1..9 or not, and no other line.  When the player
    types lines none of which is the secret and then the secret, the
    script ends normally, has read exactly those lines, and reports the
    secret with a count of one more than the numerals typed before it. *)
Theorem legacy_counts_numerals (w : world) (ls : list string) (s : string)
    (rest : list input_event) :
  let secret := secret_of (entropy w (spawned w)) 1 9 in
  stdin w = map Line ls ++ Line s :: rest ->
  Forall (fun l => Py.int_of_str l <> Some secret) ls ->
  Py.int_of_str s = Some secret ->
  let r := guess_the_number_game w in
  fst r = Ok tt
  /\ stdin (snd r) = rest
  /\ exists evs, stdout (snd r) = evs ++ [Said (legacy_done secret (numerals ls + 1))].
Proof.
  intros secret E Hls Hs r; subst r.
  destruct (legacy_run w ls s rest E Hls Hs) as (w1 & -> & G1 & G2); cbn [fst snd].
  split; [reflexivity|]; split; [exact G1 | exact G2].
Qed.
Lemma legacy_counts_numerals_witness :
  fst (guess_the_number_game
         (sample_world 2 [Line "x"; Line "100"; Line "1"; Line "3"; Line "4"]))
  = Ok tt.
Proof.
  refine (proj1 (legacy_counts_numerals
                   (sample_world 2 [Line "x"; Line "100"; Line "1"; Line "3"; Line "4"])
                   ["x"; "100"; "1"] "3" [Line "4"] eq_refl _ eq_refl)).
  repeat constructor; discriminate.
Defined.

(** A line the reader rejects changes neither the attempt counter nor
    what the session goes on to do. *)
Lemma session_skip lo hi lim secret rng a w l rest :
  stdin w = Line l :: rest -> accepts lo hi l = None ->
  exists w1,
    session lo hi lim secret rng a w = session lo hi lim secret rng a w1
    /\ stdin w1 = rest.
Proof.
  intros E Hl.
  exists (set_stdin rest
            (logged [Asked (prompt_attempt (a + 1)); Said (complaint lo hi l)] w)).
  split; [|destruct w; reflexivity].
  unfold session.
  rewrite !while_true_step by (intros; apply guess_round_strict).
  unfold guess_round, bind at 1.
  rewrite (get_valid_number_reject _ lo hi w l rest E Hl).
  reflexivity.
Qed.

Lemma accepted_cons lo hi l ls :
  accepted lo hi (l :: ls)
  = (if is_some (accepts lo hi l) then 1 else 0) + accepted lo hi ls.
Proof.
  unfold accepted; simpl; destruct (is_some (accepts lo hi l)); simpl List.length; lia.
Qed.

(** An unlimited session over lines none of which is the secret, then
    the secret: the attempts are the accepted lines. *)
Lemma session_counts lo hi secret rng ls : forall a w s rest,
  stdin w = map Line ls ++ Line s :: rest ->
  Forall (fun l => accepts lo hi l <> Some secret) ls ->
  accepts lo hi s = Some secret ->
  exists w1,
    session lo hi None secret rng a w
    = (Ok (mkPlayed (a + accepted lo hi ls + 1) true rng), w1)
    /\ stdin w1 = rest.
Proof.
  induction ls as [|l ls IH]; intros a w s rest E Hls Hs; simpl in E.
  - rewrite (session_win lo hi None secret rng a ([], s) w rest).
    + eexists; split;
        [unfold accepted; simpl; rewrite Z.add_0_r; reflexivity
        | destruct w; reflexivity].
    + unfold valid_turn; simpl; rewrite Hs; reflexivity.
    + unfold guess_of; simpl; rewrite Hs; reflexivity.
    + exact E.
  - inversion Hls as [|? ? Hl Hls']; subst.
    rewrite accepted_cons.
    destruct (accepts lo hi l) as [v|] eqn:L; cbn [is_some].
    + rewrite (session_miss lo hi None secret rng a ([], l) w
                 (map Line ls ++ Line s :: rest)); [|  | exact I | exact E].
      * match goal with |- context [session lo hi None secret rng (a + 1) ?w0] =>
          destruct (IH (a + 1) w0 s rest) as (w2 & -> & E2);
            [destruct w; reflexivity | exact Hls' | exact Hs |]
        end.
        exists w2; split; [|exact E2].
        replace (a + (1 + accepted lo hi ls) + 1)
          with (a + 1 + accepted lo hi ls + 1) by lia.
        reflexivity.
      * unfold wrong_turn, valid_turn, guess_of; simpl; rewrite L; simpl.
        apply negb_true_iff, Z.eqb_neq; congruence.
    + destruct (session_skip lo hi None secret rng a w l _ E L) as (w1 & -> & E1).
      destruct (IH a w1 s rest E1 Hls' Hs) as (w2 & -> & E2).
      exists w2; split; [|exact E2].
      rewrite Z.add_0_l; reflexivity.
Qed.

Lemma accepts_numeral lo hi l v :
  accepts lo hi l = Some v -> Py.int_of_str l = Some v /\ lo <= v <= hi.
Proof.
  unfold accepts; destruct (Py.int_of_str l) as [x|]; [|discriminate].
  destruct ((lo <=? x) && (x <=? hi)) eqn:R; [|discriminate].
  intros H; inversion H; subst; split; [reflexivity | lia].
Qed.

Lemma numeral_accepted lo hi l v :
  Py.int_of_str l = Some v -> lo <= v <= hi -> accepts lo hi l = Some v.
Proof.
  intros H R; unfold accepts; rewrite H.
  replace ((lo <=? v) && (v <=? hi)) with true; [reflexivity|].
  symmetry; apply andb_true_iff; split; apply Z.leb_le; lia.
Qed.

Lemma numerals_nonneg ls : 0 <= numerals ls.
Proof. unfold numerals; lia. Qed.

(** The reader accepts no more lines than [int] does, and as many
    exactly when every numeral lies in the range. *)
Lemma accepted_le_numerals lo hi ls :
  accepted lo hi ls <= numerals ls
  /\ (accepted lo hi ls = numerals ls
      <-> Forall (fun l => forall v, Py.int_of_str l = Some v -> lo <= v <= hi) ls).
Proof.
  induction ls as [|l ls [IH1 IH2]].
  - split; [unfold accepted, numerals; simpl; lia|].
    split; [constructor | reflexivity].
  - rewrite accepted_cons, numerals_cons.
    destruct (accepts lo hi l) as [v|] eqn:A; cbn [is_some].
    + destruct (accepts_numeral lo hi l v A) as [N R]; rewrite N; cbn [is_some].
      split; [lia|]; split.
      * intros H; constructor; [|apply IH2; lia].
        intros v' Hv'; rewrite N in Hv'; inversion Hv'; subst; exact R.
      * intros H; inversion H; subst.
        assert (accepted lo hi ls = numerals ls) by (apply IH2; assumption); lia.
    + destruct (Py.int_of_str l) as [v|] eqn:N; cbn [is_some].
      * split; [lia|]; split.
        -- intros H; lia.
        -- intros H; inversion H as [|? ? Hl Hls]; subst.
           rewrite (numeral_accepted lo hi l v N (Hl v N)) in A; discriminate.
      * split; [lia|]; split.
        -- intros H; constructor; [intros v' Hv'; congruence | apply IH2; lia].
        -- intros H; inversion H; subst.
           assert (accepted lo hi ls = numerals ls) by (apply IH2; assumption); lia.
Qed.

(** X17.  The rewritten game against the one-file variant, on the same
    input and with generators in the same state, so that both draw the
    same secret in 1..9.  When the player types lines none of which is
    the secret and then the secret, [play_game(1, 9)] wins and has read
    the same lines; its attempt count is one more than the lines its
    reader accepted, which is never more than the count the one-file
    script reports, and the two counts agree exactly when no numeral
    outside 1..9 was typed. *)
Theorem rewrite_counts_no_more_than_legacy (w : world) (ls : list string)
    (s : string) (rest : list input_event) :
  let secret := secret_of (entropy w (spawned w)) 1 9 in
  stdin w = map Line ls ++ Line s :: rest ->
  Forall (fun l => Py.int_of_str l <> Some secret) ls ->
  Py.int_of_str s = Some secret ->
  let n := numerals ls + 1 in
  exists p evs,
    fst (play_game 1 9 None None w) = Ok p
    /\ won p = true
    /\ stdin (snd (play_game 1 9 None None w)) = rest
    /\ attempts_used p = accepted 1 9 ls + 1
    /\ fst (guess_the_number_game w) = Ok tt
    /\ stdout (snd (guess_the_number_game w)) = evs ++ [Said (legacy_done secret n)]
    /\ attempts_used p <= n
    /\ (attempts_used p = n
        <-> Forall (fun l => forall v, Py.int_of_str l = Some v -> 1 <= v <= 9) ls).
Proof.
  intros secret E Hls Hs n; subst n.
  assert (R : 1 <= secret <= 9) by (apply secret_in_range; lia).
  destruct (legacy_run w ls s rest E Hls Hs) as (w1 & G & _ & evs & G2).
  rewrite play_game_start by lia.
  change (secret_of (source_of None w) 1 9) with secret.
  destruct (session_counts 1 9 secret (drawn_from (source_of None w) 1 9) ls
              0 (started 1 9 None w) s rest) as (w2 & -> & E2).
  - destruct w; exact E.
  - eapply Forall_impl; [|exact Hls].
    intros l Hl A; apply Hl; apply (accepts_numeral 1 9 l secret A).
  - apply numeral_accepted; assumption.
  - destruct (accepted_le_numerals 1 9 ls) as [L1 L2].
    eexists; exists evs; rewrite G; cbn [fst snd].
    split; [reflexivity|]; cbn [attempts_used won]; rewrite Z.add_0_l.
    split; [reflexivity|]; split; [exact E2|].
    split; [reflexivity|]; split; [reflexivity|]; split; [exact G2|].
    split; [lia|].
    rewrite <- L2; split; intros; lia.
Qed.

Lemma rewrite_counts_no_more_than_legacy_witness :
  exists p evs,
    fst (play_game 1 9 None None
           (sample_world 2 [Line "x"; Line "100"; Line "1"; Line "3"; Line "4"])) = Ok p
    /\ attempts_used p <= 3
    /\ stdout (snd (guess_the_number_game
                      (sample_world 2 [Line "x"; Line "100"; Line "1"; Line "3"; Line "4"])))
       = evs ++ [Said (legacy_done 3 3)].
Proof.
  assert (F : Forall (fun l => Py.int_of_str l <> Some 3) ["x"; "100"; "1"])
    by (repeat constructor; discriminate).
  destruct (rewrite_counts_no_more_than_legacy
              (sample_world 2 [Line "x"; Line "100"; Line "1"; Line "3"; Line "4"])
              ["x"; "100"; "1"] "3" [Line "4"] eq_refl F eq_refl)
    as (p & evs & H1 & _ & _ & _ & _ & H6 & H7 & _).
  exists p, evs; split; [exact H1|]; split; [exact H7 | exact H6].
Defined.

(** The input ends: [input] raises, and nothing catches it. *)
Lemma legacy_step_eof r a g w :
  stdin w = [] ->
  legacy_loop r (a, g) w = (Raise EOFError, logged [Asked (legacy_prompt g)] w).
Proof.
  intros E; unfold legacy_loop.
  rewrite while_true_step by (intros; apply legacy_body_strict).
  destruct w as [inp out files en sp sd]; simpl in E; subst inp.
  reflexivity.
Qed.

(** An interrupt at the prompt is not caught either. *)
Lemma legacy_step_interrupt r a g w rest :
  stdin w = Interrupt :: rest ->
  legacy_loop r (a, g) w
  = (Raise KeyboardInterrupt, set_stdin rest (logged [Asked (legacy_prompt g)] w)).
Proof.
  intros E; unfold legacy_loop.
  rewrite while_true_step by (intros; apply legacy_body_strict).
  destruct w as [inp out files en sp sd]; simpl in E; subst inp.
  reflexivity.
Qed.

Lemma legacy_outcome_cons {A} r l inp (res : result A * world) :
  Py.int_of_str l <> Some r ->
  legacy_outcome r inp res -> legacy_outcome r (Line l :: inp) res.
Proof.
  intros Hl; unfold legacy_outcome.
  destruct (fst res) as [x|[]|].
  - intros (ls & s & rest & -> & F & Hs & E).
    exists (l :: ls), s, rest; repeat split; try assumption.
    constructor; assumption.
  - intros [].
  - intros [(ls & -> & F) E]; split; [|exact E].
    exists (l :: ls); split; [reflexivity | constructor; assumption].
  - intros (ls & rest & -> & F & E).
    exists (l :: ls), rest; repeat split; try assumption.
    constructor; assumption.
  - intros [].
Qed.

Lemma legacy_loop_outcome r inp : forall a g w,
  stdin w = inp -> a <> r ->
  legacy_outcome r inp (legacy_loop r (a, g) w).
Proof.
  induction inp as [|e inp IH]; intros a g w E Ha.
  - rewrite (legacy_step_eof r a g w E); unfold legacy_outcome; cbn [fst snd].
    split; [exists []; split; [reflexivity | constructor] | destruct w; exact E].
  - destruct e as [l|].
    + destruct (Py.int_of_str l) as [v|] eqn:L.
      * destruct (Z.eq_dec v r) as [->|Hv].
        -- rewrite (legacy_step_hit r a g w l inp E L); unfold legacy_outcome; cbn [fst snd].
           exists [], l, inp.
           split; [reflexivity|]; split; [constructor|]; split; [exact L|].
           destruct w; reflexivity.
        -- destruct (legacy_step_miss r a g w l inp v E L Hv) as (w1 & -> & E1).
           apply legacy_outcome_cons; [congruence|].
           apply IH; assumption.
      * rewrite (legacy_step_bad r a g w l inp E L Ha).
        apply legacy_outcome_cons; [congruence|].
        apply IH; [destruct w; reflexivity | exact Ha].
    + rewrite (legacy_step_interrupt r a g w inp E); unfold legacy_outcome; cbn [fst snd].
      exists [], inp.
      split; [reflexivity|]; split; [constructor | destruct w; reflexivity].
Qed.

(** X18.  The one-file variant has no way out but the secret.  It ends
    normally only when a line read as the secret, all lines before it
    having read as something else or as no number; when the input ends
    first, the [EOFError] of [input] escapes, and an interrupt at the
    prompt escapes as [KeyboardInterrupt], which this script, unlike
    [run_interactive], does not catch.  In each case the input is
    consumed exactly up to that point.  No [ValueError] escapes. *)
Theorem legacy_ends_only_on_secret (w : world) :
  legacy_outcome (secret_of (entropy w (spawned w)) 1 9) (stdin w)
    (guess_the_number_game w).
Proof.
  set (secret := secret_of (entropy w (spawned w)) 1 9).
  assert (R : 1 <= secret <= 9) by (apply secret_in_range; lia).
  unfold secret, secret_of in *.
  unfold guess_the_number_game, new_random, randint, bind.
  destruct (randbelow (entropy w (spawned w)) (9 - 1 + 1)) as [v rng'] eqn:RB.
  cbn [fst snd] in *.
  change (1 <=? 9) with true.
  cbv beta iota delta [ret output_fn while_]; cbn [fst].
  replace (negb (-1 =? 1 + v)) with true
    by (symmetry; apply negb_true_iff, Z.eqb_neq; lia).
  fold (legacy_loop (1 + v)).
  match goal with |- context [legacy_loop (1 + v) (-1, 0) ?w0] =>
    assert (O : legacy_outcome (1 + v) (stdin w) (legacy_loop (1 + v) (-1, 0) w0))
      by (apply legacy_loop_outcome; [destruct w; reflexivity | lia]);
    destruct (legacy_loop (1 + v) (-1, 0) w0) as [[st|e|] w1]
  end; unfold legacy_outcome in *; cbn [fst snd] in *.
  - destruct O as (ls & s & rest & E & F & Hs & E1).
    exists ls, s, rest; repeat split; assumption.
  - exact O.
  - exact O.
Qed.
